(** * go-blog: slug generation, tag resolution, ranking, search and archive

    A shallow embedding of the service layer of the blog backend
    (internal/utils/slug.go, internal/services/*.go, internal/models/*.go and
    the gorm-backed repositories) together with the properties the
    specification states about it.

    Conventions of the embedding
    - A Go [string] is read as the sequence of runes a [range] loop yields
      (its UTF-8 decoding); a rune is a code point in [N].  All string
      literals of the program are ASCII.
    - [int], [int64] and [uint] are 64 bit; arithmetic on caller-supplied
      values is written with its wrap-around.
    - [float64] is IEEE 754 binary64 as the standard library specifies it
      ([SpecFloat], precision 53, exponents up to 1024): every conversion
      and every operation rounds to nearest, ties to even, on its own; no
      product is fused with a sum.
    - [time.Time] is the number of nanoseconds since the Unix epoch, in a
      zone without clock changes (UTC).
    - Services are programs over the calls of the repository interfaces and
      of the clock; a handler gives the calls their meaning. *)

From Stdlib Require Import ZArith NArith QArith Qpower Ascii String
  DecimalString DecimalN Lia Permutation SpecFloat.
From stdpp Require Import base option list sorting gmap.

Local Open Scope N_scope.

(* ===================================================================== *)
(** * Definitions *)
(* ===================================================================== *)

(** ** Go strings *)

Definition rune : Type := N.
Definition gostring : Type := list rune.

(** An ASCII literal of the program text. *)
Definition lit (s : string) : gostring :=
  map N_of_ascii (list_ascii_of_string s).

Definition rune_eqb (a b : rune) : bool := N.eqb a b.

Definition in_range (lo hi r : rune) : bool := (lo <=? r) && (r <=? hi).

Definition hyphen : rune := 45.
Definition space : rune := 32.
Definition doubleQuote : rune := 34.

Fixpoint dropWhile {A} (p : A -> bool) (l : list A) : list A :=
  match l with
  | [] => []
  | x :: t => if p x then dropWhile p t else l
  end.

Definition dropWhileEnd {A} (p : A -> bool) (l : list A) : list A :=
  reverse (dropWhile p (reverse l)).

(** [utf8.RuneLen]: the number of bytes a rune occupies in the string. *)
Definition utf8_RuneLen (r : rune) : N :=
  if r <? 128 then 1 else if r <? 2048 then 2 else if r <? 65536 then 3 else 4.

(** [len(s)] counts bytes. *)
Definition len (s : gostring) : N :=
  fold_right (fun r n => utf8_RuneLen r + n) 0 s.

(** [unicode.IsSpace]: the Latin-1 spaces and the White_Space property. *)
Definition unicode_IsSpace (r : rune) : bool :=
  in_range 9 13 r || (r =? 32) || (r =? 133) || (r =? 160) || (r =? 5760)
  || in_range 8192 8202 r || (r =? 8232) || (r =? 8233) || (r =? 8239)
  || (r =? 8287) || (r =? 12288).

(** The case-mapping table of package [unicode] for runes above
    [unicode.MaxASCII].  The table belongs to the Go runtime library; what
    the program relies on is kept as a law: white space has no lower-case
    variant. *)
Class CaseTable := {
  lowerSpecial : rune -> rune;
  lowerSpecial_space :
    forall r, unicode_IsSpace r = true -> lowerSpecial r = r
}.

(** The table that maps every rune above ASCII to itself; enough to run the
    program on ASCII text. *)
Definition asciiCaseTable : CaseTable :=
  {| lowerSpecial := fun r => r; lowerSpecial_space := fun _ _ => eq_refl |}.

Module strings.

(** [unicode.ToLower] *)
Definition toLowerRune `{CaseTable} (r : rune) : rune :=
  if r <=? 127 then (if in_range 65 90 r then r + 32 else r)
  else lowerSpecial r.

Definition ToLower `{CaseTable} (s : gostring) : gostring :=
  map toLowerRune s.

Definition TrimSpace (s : gostring) : gostring :=
  dropWhileEnd unicode_IsSpace (dropWhile unicode_IsSpace s).

Definition inCutset (cutset : gostring) (r : rune) : bool :=
  existsb (rune_eqb r) cutset.

Definition Trim (s cutset : gostring) : gostring :=
  dropWhileEnd (inCutset cutset) (dropWhile (inCutset cutset) s).

Fixpoint HasPrefix (s prefix : gostring) : bool :=
  match prefix, s with
  | [], _ => true
  | p :: ps, c :: cs => rune_eqb p c && HasPrefix cs ps
  | _ :: _, [] => false
  end.

Definition HasSuffix (s suffix : gostring) : bool :=
  HasPrefix (reverse s) (reverse suffix).

Definition TrimSuffix (s suffix : gostring) : gostring :=
  if HasSuffix s suffix
  then take (length s - length suffix)%nat s
  else s.

(** [strings.Fields]: the maximal runs of non-space runes.  [cur] holds the
    field being read, reversed. *)
Fixpoint fieldsFrom (cur : gostring) (s : gostring) : list gostring :=
  match s with
  | [] => match cur with [] => [] | _ => [reverse cur] end
  | r :: t =>
      if unicode_IsSpace r
      then match cur with
           | [] => fieldsFrom [] t
           | _ => reverse cur :: fieldsFrom [] t
           end
      else fieldsFrom (r :: cur) t
  end.

Definition Fields (s : gostring) : list gostring := fieldsFrom [] s.

Fixpoint Join (elems : list gostring) (sep : gostring) : gostring :=
  match elems with
  | [] => []
  | [e] => e
  | e :: rest => e ++ sep ++ Join rest sep
  end.

End strings.

(** [fmt.Sprintf("%d", n)] for a non-negative [n]. *)
Definition itoa (n : N) : gostring :=
  lit (NilEmpty.string_of_uint (N.to_uint n)).

(** ** internal/utils/slug.go *)

Module utils.

Definition isSlugAlnum (r : rune) : bool :=
  in_range 97 122 r || in_range 48 57 r.

(** [regexp.MustCompile(`[^a-z0-9]+`).ReplaceAllString(slug, "-")]: every
    maximal run of runes outside [[a-z0-9]] becomes one hyphen.  [inRun]
    tells that the hyphen of the current run has been written. *)
Fixpoint replaceRuns (inRun : bool) (s : gostring) : gostring :=
  match s with
  | [] => []
  | r :: t =>
      if isSlugAlnum r then r :: replaceRuns false t
      else if inRun then replaceRuns true t
      else hyphen :: replaceRuns true t
  end.

Definition GenerateSlug `{CaseTable} (text : gostring) : gostring :=
  let slug := strings.ToLower text in
  let slug := replaceRuns false slug in
  let slug := strings.Trim slug (lit "-") in
  if (100 <? len slug)
  then strings.TrimSuffix (take 100 slug) (lit "-")
  else slug.

End utils.

(** ** Errors and results *)

(** Go's [error] values as the program builds and inspects them. *)
Inductive error : Type :=
| ErrRecordNotFound                         (* gorm.ErrRecordNotFound *)
| ErrStore (msg : gostring)                 (* any other error of the store *)
| ErrNew (msg : gostring)                   (* errors.New, fmt.Errorf without %w *)
| ErrWrap (msg : gostring) (cause : error)  (* fmt.Errorf("msg: %w", cause) *)
| ErrPanic (msg : gostring)                 (* a run-time panic, e.g. nil dereference *)
| ErrFuel.                                  (* recursion budget of a loop model
                                               exhausted; not a Go error *)

(** [errors.Is(err, gorm.ErrRecordNotFound)] follows the [%w] chain. *)
Fixpoint isRecordNotFound (err : error) : bool :=
  match err with
  | ErrRecordNotFound => true
  | ErrWrap _ cause => isRecordNotFound cause
  | _ => false
  end.

Definition errors_New (msg : string) : error := ErrNew (lit msg).

Inductive Result (A : Type) : Type :=
| Ok (a : A)
| Err (e : error).
Arguments Ok {A} a.
Arguments Err {A} e.

(** ** internal/models *)

Definition Time : Type := Z.

(** The zero [time.Time], 1 January of year 1, 00:00 UTC. *)
Definition zeroTime : Time := (-62135596800 * 1000000000)%Z.
Definition Time_IsZero (t : Time) : bool := (t =? zeroTime)%Z.
(** [t.After(u)] *)
Definition Time_After (t u : Time) : bool := (u <? t)%Z.

Definition nanosPerDay : Z := (24 * 3600 * 1000000000)%Z.
(** [t.AddDate(0, 0, days)] in a zone without clock changes. *)
Definition Time_AddDays (t : Time) (days : Z) : Time := (t + days * nanosPerDay)%Z.

Module models.

Definition ArticleStatus : Type := gostring.
Definition StatusDraft : ArticleStatus := lit "draft".
Definition StatusPublished : ArticleStatus := lit "published".
Definition StatusArchived : ArticleStatus := lit "archived".

Record User := mkUser {
  User_ID : N;
  User_Username : gostring
}.

Record Category := mkCategory {
  Category_ID : N;
  Category_Name : gostring;
  Category_Slug : gostring
}.

Record Tag := mkTag {
  Tag_ID : N;
  Tag_Name : gostring;
  Tag_Slug : gostring
}.

(** [Article], without the [Comments] and [Likes] associations, which the
    services modelled here never read or write. *)
Record Article := mkArticle {
  ID : N;
  Title : gostring;
  Slug : gostring;
  Content : gostring;
  Excerpt : gostring;
  AuthorID : N;
  Author : User;
  CategoryID : option N;
  Category_ : option Category;
  Tags : list Tag;
  Status : ArticleStatus;
  ViewCount : N;
  LikeCount : N;
  CommentCount : N;
  PublishedAt : option Time;
  CreatedAt : Time;
  DeletedAt : option Time
}.

Definition zeroUser : User := mkUser 0 [].

Definition set_ID (v : N) (a : Article) : Article :=
  mkArticle v (Title a) (Slug a) (Content a) (Excerpt a) (AuthorID a)
    (Author a) (CategoryID a) (Category_ a) (Tags a) (Status a) (ViewCount a)
    (LikeCount a) (CommentCount a) (PublishedAt a) (CreatedAt a) (DeletedAt a).
Definition set_Title (v : gostring) (a : Article) : Article :=
  mkArticle (ID a) v (Slug a) (Content a) (Excerpt a) (AuthorID a)
    (Author a) (CategoryID a) (Category_ a) (Tags a) (Status a) (ViewCount a)
    (LikeCount a) (CommentCount a) (PublishedAt a) (CreatedAt a) (DeletedAt a).
Definition set_Slug (v : gostring) (a : Article) : Article :=
  mkArticle (ID a) (Title a) v (Content a) (Excerpt a) (AuthorID a)
    (Author a) (CategoryID a) (Category_ a) (Tags a) (Status a) (ViewCount a)
    (LikeCount a) (CommentCount a) (PublishedAt a) (CreatedAt a) (DeletedAt a).
Definition set_Content (v : gostring) (a : Article) : Article :=
  mkArticle (ID a) (Title a) (Slug a) v (Excerpt a) (AuthorID a)
    (Author a) (CategoryID a) (Category_ a) (Tags a) (Status a) (ViewCount a)
    (LikeCount a) (CommentCount a) (PublishedAt a) (CreatedAt a) (DeletedAt a).
Definition set_Excerpt (v : gostring) (a : Article) : Article :=
  mkArticle (ID a) (Title a) (Slug a) (Content a) v (AuthorID a)
    (Author a) (CategoryID a) (Category_ a) (Tags a) (Status a) (ViewCount a)
    (LikeCount a) (CommentCount a) (PublishedAt a) (CreatedAt a) (DeletedAt a).
Definition set_Category (id : option N) (c : option Category) (a : Article)
  : Article :=
  mkArticle (ID a) (Title a) (Slug a) (Content a) (Excerpt a) (AuthorID a)
    (Author a) id c (Tags a) (Status a) (ViewCount a)
    (LikeCount a) (CommentCount a) (PublishedAt a) (CreatedAt a) (DeletedAt a).
Definition set_Tags (v : list Tag) (a : Article) : Article :=
  mkArticle (ID a) (Title a) (Slug a) (Content a) (Excerpt a) (AuthorID a)
    (Author a) (CategoryID a) (Category_ a) v (Status a) (ViewCount a)
    (LikeCount a) (CommentCount a) (PublishedAt a) (CreatedAt a) (DeletedAt a).
Definition set_Status (v : ArticleStatus) (a : Article) : Article :=
  mkArticle (ID a) (Title a) (Slug a) (Content a) (Excerpt a) (AuthorID a)
    (Author a) (CategoryID a) (Category_ a) (Tags a) v (ViewCount a)
    (LikeCount a) (CommentCount a) (PublishedAt a) (CreatedAt a) (DeletedAt a).
Definition set_PublishedAt (v : option Time) (a : Article) : Article :=
  mkArticle (ID a) (Title a) (Slug a) (Content a) (Excerpt a) (AuthorID a)
    (Author a) (CategoryID a) (Category_ a) (Tags a) (Status a) (ViewCount a)
    (LikeCount a) (CommentCount a) v (CreatedAt a) (DeletedAt a).
Definition set_CreatedAt (v : Time) (a : Article) : Article :=
  mkArticle (ID a) (Title a) (Slug a) (Content a) (Excerpt a) (AuthorID a)
    (Author a) (CategoryID a) (Category_ a) (Tags a) (Status a) (ViewCount a)
    (LikeCount a) (CommentCount a) (PublishedAt a) v (DeletedAt a).

End models.
Export models.

#[global] Instance gostring_eq_dec : EqDecision gostring := _.

(** ** The repository interfaces and the clock *)

(** A value of the [filters map[string]interface{}] of [List]. *)
Inductive FilterValue : Type :=
| FStatus (s : ArticleStatus)
| FUint (n : N).

Record SearchFilters := mkSearchFilters {
  sf_Status : gostring;
  sf_CategoryID : N;
  sf_AuthorID : N;
  sf_TagID : N;
  sf_DateFrom : Time;
  sf_DateTo : Time
}.

(** What [GetArchive] returns under the key ["years"]: per year the list of
    its months with their article counts. *)
Record MonthData := mkMonthData { md_month : Z; md_count : Z }.
Record YearData := mkYearData { yd_year : Z; yd_months : list MonthData }.

(** The calls a service makes: the methods of [UserRepository],
    [CategoryRepository], [TagRepository] and [ArticleRepository] that the
    services below use, and [time.Now].  A method that receives a pointer
    and returns only [error] answers with the record as the callee left it
    and the error. *)
Inductive Event : Type -> Type :=
| TimeNow : Event Time
| UserGetByID (id : N) : Event (Result User)
| CategoryGetByID (id : N) : Event (Result Category)
| TagGetByName (name : gostring) : Event (Result Tag)
| TagGetBySlug (slug : gostring) : Event (Result Tag)
| TagCreate (tag : Tag) : Event (Tag * option error)
| ArticleCreate (article : Article) : Event (Article * option error)
| ArticleGetByID (id : N) : Event (Result Article)
| ArticleGetBySlug (slug : gostring) : Event (Result Article)
| ArticleList (offset limit : Z) (filters : gmap gostring FilterValue)
    : Event (Result (list Article * Z))
| ArticleUpdate (article : Article) : Event (Article * option error)
| ArticleAdvancedSearch (query : gostring) (offset limit : Z)
    (filters : SearchFilters) : Event (Result (list Article * Z))
| ArticleSearchWithBoolean (query : gostring) (offset limit : Z)
    (filters : SearchFilters) : Event (Result (list Article * Z))
| ArticleGetArchive : Event (Result (list YearData)).

(** A service is a program: it returns, or makes a call and continues with
    the answer. *)
Inductive Prog (R : Type) : Type :=
| Ret (r : R)
| Call {X : Type} (e : Event X) (k : X -> Prog R).
Arguments Ret {R} r.
Arguments Call {R X} e k.

Fixpoint bind {A B} (m : Prog A) (f : A -> Prog B) : Prog B :=
  match m with
  | Ret a => f a
  | Call e k => Call e (fun x => bind (k x) f)
  end.

Definition call {X} (e : Event X) : Prog X := Call e Ret.

Declare Scope prog_scope.
Delimit Scope prog_scope with prog.
Bind Scope prog_scope with Prog.
Notation "x <- m ;; k" := (bind m (fun x => k))
  (at level 100, m at next level, right associativity) : prog_scope.
Local Open Scope prog_scope.

(** A handler answers the calls over a state [W]: an implementation of the
    repository interfaces together with a clock. *)
Definition Handler (W : Type) : Type := forall X, Event X -> W -> X * W.

Inductive CallRecord : Type :=
| Called {X : Type} (e : Event X).

(** Running a program: its result, the final state and the calls it made,
    in order. *)
Fixpoint run {W R} (h : Handler W) (p : Prog R) (w : W)
  : R * W * list CallRecord :=
  match p with
  | Ret r => (r, w, [])
  | Call e k =>
      let '(x, w1) := h _ e w in
      let '(r, w2, calls) := run h (k x) w1 in
      (r, w2, Called e :: calls)
  end.

Definition result_of {W R} (h : Handler W) (p : Prog R) (w : W) : R :=
  (run h p w).1.1.
Definition state_of {W R} (h : Handler W) (p : Prog R) (w : W) : W :=
  (run h p w).1.2.
Definition calls_of {W R} (h : Handler W) (p : Prog R) (w : W)
  : list CallRecord :=
  (run h p w).2.

(** Calls that write to the store. *)
Definition isWrite (c : CallRecord) : bool :=
  match c with
  | Called (TagCreate _) | Called (ArticleCreate _) | Called (ArticleUpdate _) => true
  | _ => false
  end.

(** Calls that reach the text-search engine. *)
Definition isSearch (c : CallRecord) : bool :=
  match c with
  | Called (ArticleAdvancedSearch _ _ _ _)
  | Called (ArticleSearchWithBoolean _ _ _ _) => true
  | _ => false
  end.

(** [x, err := f(); if err != nil { return nil, err }] *)
Definition bindOk {A B} (m : Prog (Result A)) (f : A -> Prog (Result B))
  : Prog (Result B) :=
  r <- m ;;
  match r with
  | Ok a => f a
  | Err e => Ret (Err e)
  end.
Notation "x <-? m ;; k" := (bindOk m (fun x => k))
  (at level 100, m at next level, right associativity) : prog_scope.

Definition nilDereference {A} : Prog (Result A) :=
  Ret (Err (ErrPanic (lit "invalid memory address or nil pointer dereference"))).

(** ** The loop of [generateUniqueSlug]

    The tag service and the article service carry the same loop, each over
    its own repository's [GetBySlug].  [counter] starts at 1 and the loop
    leaves once it exceeds 1000, so 1000 rounds are a sufficient budget. *)
Fixpoint uniqueSlugLoop {T} (getBySlug : gostring -> Event (Result T))
    (fuel : nat) (baseSlug slug : gostring) (counter : N)
  : Prog (Result gostring) :=
  match fuel with
  | O => Ret (Err ErrFuel)
  | S fuel =>
      r <- call (getBySlug slug) ;;
      match r with
      | Err err =>
          if isRecordNotFound err then Ret (Ok slug)
          else Ret (Err (ErrWrap (lit "error checking slug availability") err))
      | Ok _ =>
          let slug := baseSlug ++ lit "-" ++ itoa counter in
          let counter := counter + 1 in
          if 1000 <? counter
          then Ret (Err (errors_New "unable to generate unique slug"))
          else uniqueSlugLoop getBySlug fuel baseSlug slug counter
      end
  end.

(** ** internal/services/tag_service.go *)

Module TagService.

Record CreateTagRequest := mkCreateTagRequest { Name : gostring }.

Definition validateCreateRequest (req : option CreateTagRequest)
  : option error :=
  match req with
  | None => Some (errors_New "create request is required")
  | Some req =>
      if decide (strings.TrimSpace (Name req) = [])
      then Some (errors_New "tag name is required")
      else if 50 <? len (Name req)
      then Some (errors_New "tag name must be less than 50 characters")
      else None
  end.

Definition generateUniqueSlug `{CaseTable} (name : gostring)
  : Prog (Result gostring) :=
  let baseSlug := utils.GenerateSlug name in
  if decide (baseSlug = [])
  then Ret (Err (errors_New "cannot generate slug from name"))
  else uniqueSlugLoop TagGetBySlug 1000 baseSlug baseSlug 1.

Definition Create `{CaseTable} (req : option CreateTagRequest)
  : Prog (Result Tag) :=
  match validateCreateRequest req, req with
  | Some err, _ => Ret (Err err)
  | None, None => nilDereference
  | None, Some req =>
      let tagName := strings.TrimSpace (Name req) in
      existing <- call (TagGetByName tagName) ;;
      match existing with
      | Ok _ =>
          Ret (Err (ErrNew (lit "tag with name '" ++ tagName
                              ++ lit "' already exists")))
      | Err err =>
          if negb (isRecordNotFound err)
          then Ret (Err (ErrWrap (lit "error checking existing tag") err))
          else
            s <- generateUniqueSlug tagName ;;
            match s with
            | Err err => Ret (Err (ErrWrap (lit "failed to generate slug") err))
            | Ok slug =>
                let tag := mkTag 0 tagName slug in
                created <- call (TagCreate tag) ;;
                match created.2 with
                | Some err => Ret (Err (ErrWrap (lit "failed to create tag") err))
                | None => Ret (Ok created.1)
                end
            end
      end
  end.

Definition FindOrCreateByName `{CaseTable} (name : gostring)
  : Prog (Result Tag) :=
  let tagName := strings.TrimSpace name in
  if decide (tagName = [])
  then Ret (Err (errors_New "tag name cannot be empty"))
  else
    found <- call (TagGetByName tagName) ;;
    match found with
    | Ok tag => Ret (Ok tag)
    | Err err =>
        if negb (isRecordNotFound err)
        then Ret (Err (ErrWrap (lit "error checking existing tag") err))
        else Create (Some (mkCreateTagRequest tagName))
    end.

(** The [for _, tagName := range tagNames] loop of [ProcessTagNames], with
    its two local variables. *)
Fixpoint processLoop `{CaseTable} (tagNames : list gostring)
    (tags : list Tag) (processedNames : gmap gostring bool)
  : Prog (Result (list Tag)) :=
  match tagNames with
  | [] => Ret (Ok tags)
  | tagName :: rest =>
      let tagName := strings.TrimSpace tagName in
      if decide (tagName = []) then processLoop rest tags processedNames
      else if default false (processedNames !! tagName)
      then processLoop rest tags processedNames
      else
        let processedNames := <[tagName := true]> processedNames in
        r <- FindOrCreateByName tagName ;;
        match r with
        | Err err =>
            Ret (Err (ErrWrap (lit "failed to process tag '" ++ tagName
                                 ++ lit "'") err))
        | Ok tag => processLoop rest (tags ++ [tag]) processedNames
        end
  end.

Definition ProcessTagNames `{CaseTable} (tagNames : list gostring)
  : Prog (Result (list Tag)) :=
  processLoop tagNames [] ∅.

End TagService.

(** ** internal/services/article_service.go *)

Module ArticleService.

Record CreateArticleRequest := mkCreateArticleRequest {
  c_Title : gostring;
  c_Content : gostring;
  c_Excerpt : gostring;
  c_CategoryID : option N;
  c_TagNames : option (list gostring);
  c_Status : gostring
}.

Record UpdateArticleRequest := mkUpdateArticleRequest {
  u_Title : gostring;
  u_Content : gostring;
  u_Excerpt : gostring;
  u_CategoryID : option N;
  u_TagNames : option (list gostring);
  u_Status : gostring
}.

Definition validateCreateRequest (req : option CreateArticleRequest)
  : option error :=
  match req with
  | None => Some (errors_New "create request is required")
  | Some req =>
      if decide (strings.TrimSpace (c_Title req) = [])
      then Some (errors_New "title is required")
      else if 255 <? len (c_Title req)
      then Some (errors_New "title must be less than 255 characters")
      else if decide (strings.TrimSpace (c_Content req) = [])
      then Some (errors_New "content is required")
      else if negb (bool_decide (c_Excerpt req = [])) && (500 <? len (c_Excerpt req))
      then Some (errors_New "excerpt must be less than 500 characters")
      else if negb (bool_decide (c_Status req = []))
              && negb (bool_decide (c_Status req = lit "draft"))
              && negb (bool_decide (c_Status req = lit "published"))
      then Some (errors_New "status must be either 'draft' or 'published'")
      else None
  end.

Definition validateUpdateRequest (req : option UpdateArticleRequest)
  : option error :=
  match req with
  | None => Some (errors_New "update request is required")
  | Some req =>
      if negb (bool_decide (u_Title req = []))
         && bool_decide (strings.TrimSpace (u_Title req) = [])
      then Some (errors_New "title cannot be empty")
      else if negb (bool_decide (u_Title req = [])) && (255 <? len (u_Title req))
      then Some (errors_New "title must be less than 255 characters")
      else if negb (bool_decide (u_Content req = []))
              && bool_decide (strings.TrimSpace (u_Content req) = [])
      then Some (errors_New "content cannot be empty")
      else if negb (bool_decide (u_Excerpt req = [])) && (500 <? len (u_Excerpt req))
      then Some (errors_New "excerpt must be less than 500 characters")
      else if negb (bool_decide (u_Status req = []))
              && negb (existsb (fun status => bool_decide (u_Status req = status))
                         [lit "draft"; lit "published"; lit "archived"])
      then Some (errors_New "status must be one of: draft, published, archived")
      else None
  end.

Definition generateUniqueSlug `{CaseTable} (title : gostring)
  : Prog (Result gostring) :=
  let baseSlug := utils.GenerateSlug title in
  if decide (baseSlug = [])
  then Ret (Err (errors_New "cannot generate slug from title"))
  else uniqueSlugLoop ArticleGetBySlug 1000 baseSlug baseSlug 1.

Definition processTagNames `{CaseTable} (tagNames : list gostring)
  : Prog (Result (list Tag)) :=
  TagService.ProcessTagNames tagNames.

Definition Create `{CaseTable} (authorID : N)
    (req : option CreateArticleRequest) : Prog (Result Article) :=
  match validateCreateRequest req, req with
  | Some err, _ => Ret (Err err)
  | None, None => nilDereference
  | None, Some req =>
      u <- call (UserGetByID authorID) ;;
      match u with
      | Err _ => Ret (Err (errors_New "author not found"))
      | Ok author =>
          s <- generateUniqueSlug (c_Title req) ;;
          match s with
          | Err err => Ret (Err (ErrWrap (lit "failed to generate slug") err))
          | Ok slug =>
              let article :=
                mkArticle 0 (strings.TrimSpace (c_Title req)) slug
                  (strings.TrimSpace (c_Content req))
                  (strings.TrimSpace (c_Excerpt req))
                  authorID author None None [] StatusDraft 0 0 0 None
                  zeroTime None in
              (* Set category if provided *)
              article <-?
                match c_CategoryID req with
                | Some categoryID =>
                    c <- call (CategoryGetByID categoryID) ;;
                    match c with
                    | Err _ => Ret (Err (errors_New "category not found"))
                    | Ok category =>
                        Ret (Ok (set_Category (Some categoryID) (Some category)
                                   article))
                    end
                | None => Ret (Ok article)
                end ;;
              (* Set status if provided *)
              let article :=
                if decide (c_Status req = []) then article
                else set_Status (c_Status req) article in
              (* Handle publishing *)
              article <-
                (if decide (Status article = StatusPublished)
                 then now <- call TimeNow ;;
                      Ret (set_PublishedAt (Some now) article)
                 else Ret article) ;;
              (* Process tags *)
              article <-?
                match c_TagNames req with
                | Some ((_ :: _) as tagNames) =>
                    t <- processTagNames tagNames ;;
                    match t with
                    | Err err =>
                        Ret (Err (ErrWrap (lit "failed to process tags") err))
                    | Ok tags => Ret (Ok (set_Tags tags article))
                    end
                | _ => Ret (Ok article)
                end ;;
              (* Create article *)
              created <- call (ArticleCreate article) ;;
              match created.2 with
              | Some err => Ret (Err (ErrWrap (lit "failed to create article") err))
              | None => Ret (Ok created.1)
              end
          end
      end
  end.

Definition Update `{CaseTable} (id authorID : N)
    (req : option UpdateArticleRequest) : Prog (Result Article) :=
  match validateUpdateRequest req, req with
  | Some err, _ => Ret (Err err)
  | None, None => nilDereference
  | None, Some req =>
      g <- call (ArticleGetByID id) ;;
      match g with
      | Err _ => Ret (Err (errors_New "article not found"))
      | Ok article =>
          if negb (AuthorID article =? authorID)
          then Ret (Err (errors_New
                 "unauthorized: you can only edit your own articles"))
          else
            let updated := false in
            (* title and slug *)
            st <-?
              (if negb (bool_decide (u_Title req = []))
                  && negb (bool_decide (u_Title req = Title article))
               then
                 let article := set_Title (strings.TrimSpace (u_Title req)) article in
                 s <- generateUniqueSlug (Title article) ;;
                 match s with
                 | Err err =>
                     Ret (Err (ErrWrap (lit "failed to generate slug") err))
                 | Ok slug => Ret (Ok (set_Slug slug article, true))
                 end
               else Ret (Ok (article, updated))) ;;
            let '(article, updated) := st in
            let '(article, updated) :=
              if negb (bool_decide (u_Content req = []))
                 && negb (bool_decide (u_Content req = Content article))
              then (set_Content (strings.TrimSpace (u_Content req)) article, true)
              else (article, updated) in
            let '(article, updated) :=
              if negb (bool_decide (u_Excerpt req = Excerpt article))
              then (set_Excerpt (strings.TrimSpace (u_Excerpt req)) article, true)
              else (article, updated) in
            (* Handle category change *)
            st <-?
              match u_CategoryID req with
              | Some reqCategory =>
                  if match CategoryID article with
                     | None => negb (reqCategory =? 0)
                     | Some current => negb (current =? reqCategory)
                     end
                  then
                    if reqCategory =? 0
                    then Ret (Ok (set_Category None None article, true))
                    else
                      c <- call (CategoryGetByID reqCategory) ;;
                      match c with
                      | Err _ => Ret (Err (errors_New "category not found"))
                      | Ok category =>
                          Ret (Ok (set_Category (Some reqCategory)
                                     (Some category) article, true))
                      end
                  else Ret (Ok (article, updated))
              | None => Ret (Ok (article, updated))
              end ;;
            let '(article, updated) := st in
            (* Handle status change *)
            st <-
              (if negb (bool_decide (u_Status req = []))
                  && negb (bool_decide (Status article = u_Status req))
               then
                 let oldStatus := Status article in
                 let article := set_Status (u_Status req) article in
                 article <-
                   (if bool_decide (Status article = StatusPublished)
                       && negb (bool_decide (oldStatus = StatusPublished))
                    then
                      match PublishedAt article with
                      | None => now <- call TimeNow ;;
                                Ret (set_PublishedAt (Some now) article)
                      | Some _ => Ret article
                      end
                    else Ret article) ;;
                 Ret (article, true)
               else Ret (article, updated)) ;;
            let '(article, updated) := st in
            (* Handle tags *)
            st <-?
              match u_TagNames req with
              | Some tagNames =>
                  t <- processTagNames tagNames ;;
                  match t with
                  | Err err =>
                      Ret (Err (ErrWrap (lit "failed to process tags") err))
                  | Ok tags => Ret (Ok (set_Tags tags article, true))
                  end
              | None => Ret (Ok (article, updated))
              end ;;
            let '(article, updated) := st in
            if negb updated then Ret (Ok article)
            else
              saved <- call (ArticleUpdate article) ;;
              match saved.2 with
              | Some err =>
                  Ret (Err (ErrWrap (lit "failed to update article") err))
              | None => Ret (Ok saved.1)
              end
      end
  end.

Definition changeStatus (id authorID : N) (status : ArticleStatus)
  : Prog (Result Article) :=
  g <- call (ArticleGetByID id) ;;
  match g with
  | Err _ => Ret (Err (errors_New "article not found"))
  | Ok article =>
      if negb (AuthorID article =? authorID)
      then Ret (Err (errors_New
             "unauthorized: you can only modify your own articles"))
      else if decide (Status article = status) then Ret (Ok article)
      else
        let article := set_Status status article in
        article <-
          (if decide (status = StatusPublished)
           then match PublishedAt article with
                | None => now <- call TimeNow ;;
                          Ret (set_PublishedAt (Some now) article)
                | Some _ => Ret article
                end
           else Ret article) ;;
        saved <- call (ArticleUpdate article) ;;
        match saved.2 with
        | Some err =>
            Ret (Err (ErrWrap (lit "failed to update article status") err))
        | None => Ret (Ok saved.1)
        end
  end.

Definition Publish (id authorID : N) : Prog (Result Article) :=
  changeStatus id authorID StatusPublished.

Definition Unpublish (id authorID : N) : Prog (Result Article) :=
  changeStatus id authorID StatusDraft.

Definition Archive (id authorID : N) : Prog (Result Article) :=
  changeStatus id authorID StatusArchived.

End ArticleService.

(** ** Machine integers, durations and scores *)

(** The value of a 64-bit signed result. *)
Definition wrap64 (z : Z) : Z :=
  ((z + 2 ^ 63) mod 2 ^ 64 - 2 ^ 63)%Z.

(** The value of a 64-bit unsigned result. *)
Definition wrapU64 (n : N) : N := n mod 2 ^ 64.

Definition minDuration : Z := (- 2 ^ 63)%Z.
Definition maxDuration : Z := (2 ^ 63 - 1)%Z.

(** [t.Sub(u)]: the difference in nanoseconds, saturated to the range of
    [time.Duration]. *)
Definition Time_Sub (t u : Time) : Z :=
  let d := (t - u)%Z in
  if (d <? minDuration)%Z then minDuration
  else if (maxDuration <? d)%Z then maxDuration
  else d.

Definition nanosPerHour : Z := (3600 * 1000000000)%Z.

(** [float64]: sign, mantissa and exponent of a binary64 number, the
    zeros, the infinities and NaN. *)
Definition float64 : Type := spec_float.
Definition prec64 : Z := 53.
Definition emax64 : Z := 1024.

(** [float64(z)] of an integer, and of a counter: the nearest [float64]. *)
Definition float64_of_int (z : Z) : float64 :=
  binary_normalize prec64 emax64 z 0 false.
Definition float64_of_uint (n : N) : float64 := float64_of_int (Z.of_N n).

(** [x + y], [x * y], [x / y] and [x < y] on [float64]. *)
Definition fadd : float64 -> float64 -> float64 := SFadd prec64 emax64.
Definition fmul : float64 -> float64 -> float64 := SFmul prec64 emax64.
Definition fdiv : float64 -> float64 -> float64 := SFdiv prec64 emax64.
Definition fltb : float64 -> float64 -> bool := SFltb.

Declare Scope float64_scope.
Delimit Scope float64_scope with f64.
Infix "+" := fadd : float64_scope.
Infix "*" := fmul : float64_scope.
Infix "/" := fdiv : float64_scope.

(** [d.Hours()]:
    [hour := d / Hour; nsec := d % Hour;
     return float64(hour) + float64(nsec)/(60*60*1e9)] *)
Definition Duration_Hours (d : Z) : float64 :=
  (float64_of_int (Z.quot d nanosPerHour)
   + float64_of_int (Z.rem d nanosPerHour)
     / float64_of_int (60 * 60 * 1000000000))%f64.

(** The in-place ordering both ranking functions use:
    [for i := 0; i < len(s)-1; i++ { for j := i+1; j < len(s); j++
       { if s[i].score < s[j].score { s[i], s[j] = s[j], s[i] } } }]. *)
Definition swapIfLess {A} (score : A -> float64) (i j : nat) (s : list A)
  : list A :=
  match s !! i, s !! j with
  | Some a, Some b => if fltb (score a) (score b) then <[i := b]> (<[j := a]> s) else s
  | _, _ => s
  end.

Definition sortByScoreDesc {A} (score : A -> float64) (s : list A) : list A :=
  foldl (fun s i =>
           foldl (fun s j => swapIfLess score i j s) s
             (seq (i + 1) (length s - (i + 1))))
    s (seq 0 (length s - 1)).

(** [if len(s) > limit { s = s[:limit] }] *)
Definition truncateTo {A} (limit : Z) (s : list A) : list A :=
  if (limit <? Z.of_nat (length s))%Z then take (Z.to_nat limit) s else s.

(** ** internal/services/article_service.go: listing *)

(** [ArticleListFilters]; a field left at its zero value is a filter that
    is not given. *)
Record ArticleListFilters := mkArticleListFilters {
  f_Status : gostring;
  f_CategoryID : N;
  f_AuthorID : N;
  f_TagID : N
}.

(** [ArticleService.List]: the page and the limit are put in range and the
    filters that are given go into the map of the repository's [List]. *)
Definition ArticleService_List (page limit : Z) (filters : option ArticleListFilters)
  : Prog (Result (list Article * Z)) :=
  let page := if (page <? 1)%Z then 1%Z else page in
  let limit := if (limit <? 1)%Z || (100 <? limit)%Z then 10%Z else limit in
  let offset := wrap64 ((page - 1) * limit) in
  (* Convert filters to map *)
  let filterMap : gmap gostring FilterValue := ∅ in
  let filterMap :=
    match filters with
    | Some filters =>
        let filterMap :=
          if negb (bool_decide (f_Status filters = []))
          then <[lit "status" := FStatus (f_Status filters)]> filterMap
          else filterMap in
        let filterMap :=
          if 0 <? f_CategoryID filters
          then <[lit "category_id" := FUint (f_CategoryID filters)]> filterMap
          else filterMap in
        let filterMap :=
          if 0 <? f_AuthorID filters
          then <[lit "author_id" := FUint (f_AuthorID filters)]> filterMap
          else filterMap in
        if 0 <? f_TagID filters
        then <[lit "tag_id" := FUint (f_TagID filters)]> filterMap
        else filterMap
    | None => filterMap
    end in
  call (ArticleList offset limit filterMap).

(** ** internal/services/tag_service.go: the popular tags *)

Record TagWithStats := mkTagWithStats {
  ts_Tag : Tag;
  ts_ArticleCount : Z
}.

(** [if s[j].count < s[j+1].count { s[j], s[j+1] = s[j+1], s[j] }] *)
Definition swapAdjacent {A} (count : A -> Z) (j : nat) (s : list A) : list A :=
  match s !! j, s !! (j + 1)%nat with
  | Some a, Some b =>
      if (count a <? count b)%Z then <[j := b]> (<[(j + 1)%nat := a]> s) else s
  | _, _ => s
  end.

(** The bubble sort of [GetPopularTags]. *)
Definition bubbleSortDesc {A} (count : A -> Z) (s : list A) : list A :=
  foldl (fun s i =>
           foldl (fun s j => swapAdjacent count j s) s
             (seq 0 (length s - i - 1)))
    s (seq 0 (length s - 1)).

(** [TagService.GetPopularTags] over a tag repository given by its two
    methods [List] and [GetArticles] on a store [W]. *)
Section PopularTags.
Context {W : Type}
        (tagRepo_List : W -> Result (list Tag) * W)
        (tagRepo_GetArticles : N -> Z -> Z -> W -> Result (list Article * Z) * W).

Fixpoint countArticles (tags : list Tag) (tagsWithStats : list TagWithStats) (w : W)
  : Result (list TagWithStats) * W :=
  match tags with
  | [] => (Ok tagsWithStats, w)
  | tag :: tags =>
      let '(r, w) := tagRepo_GetArticles (Tag_ID tag) 0%Z 1%Z w in
      match r with
      | Err err =>
          (Err (ErrWrap (lit "failed to get article count for tag "
                         ++ itoa (Tag_ID tag)) err), w)
      | Ok (_, count) =>
          countArticles tags (tagsWithStats ++ [mkTagWithStats tag count]) w
      end
  end.

Definition TagService_GetPopularTags (limit : Z) (w : W)
  : Result (list TagWithStats) * W :=
  let limit := if (limit <? 1)%Z || (100 <? limit)%Z then 20%Z else limit in
  let '(r, w) := tagRepo_List w in
  match r with
  | Err err => (Err (ErrWrap (lit "failed to get tags") err), w)
  | Ok tags =>
      let '(r, w) := countArticles tags [] w in
      match r with
      | Err err => (Err err, w)
      | Ok tagsWithStats =>
          (Ok (truncateTo limit (bubbleSortDesc ts_ArticleCount tagsWithStats)), w)
      end
  end.

End PopularTags.

(** ** internal/services/statistics_service.go *)

Module StatisticsService.

Record PopularArticle := mkPopularArticle {
  ArticleID : N;
  Title : gostring;
  Slug : gostring;
  ViewCount : N;
  LikeCount : N;
  CommentCount : N;
  Score : float64;
  CreatedAt : Time
}.

Record TrendingArticle := mkTrendingArticle {
  t_ArticleID : N;
  t_Title : gostring;
  t_Slug : gostring;
  t_ViewCount : N;
  t_LikeCount : N;
  t_CommentCount : N;
  TrendingScore : float64;
  t_CreatedAt : Time
}.

Definition publishedOnly : gmap gostring FilterValue :=
  {[ lit "status" := FStatus StatusPublished ]}.

Definition GetPopularArticles (limit : Z)
  : Prog (Result (list PopularArticle)) :=
  let limit := if (limit <=? 0)%Z then 10%Z else limit in
  r <- call (ArticleList 0 (wrap64 (limit * 2)) publishedOnly) ;;
  match r with
  | Err err => Ret (Err (ErrWrap (lit "failed to get articles") err))
  | Ok (articles, _) =>
      let popularArticles :=
        map (fun article : Article =>
               let score :=
                 (float64_of_uint (models.ViewCount article)
                  + float64_of_uint (models.LikeCount article) * float64_of_int 3
                  + float64_of_uint (models.CommentCount article) * float64_of_int 5)%f64 in
               mkPopularArticle (models.ID article) (models.Title article)
                 (models.Slug article) (models.ViewCount article)
                 (models.LikeCount article) (models.CommentCount article)
                 score (models.CreatedAt article))
          articles in
      let popularArticles := sortByScoreDesc Score popularArticles in
      Ret (Ok (truncateTo limit popularArticles))
  end.

(** The [for _, article := range articles] loop of [GetTrendingArticles];
    the clock is read once for every article that passes the window test. *)
Fixpoint trendingLoop (articles : list Article) (days : Z)
    (cutoffDate : Time) (trendingArticles : list TrendingArticle)
  : Prog (list TrendingArticle) :=
  match articles with
  | [] => Ret trendingArticles
  | article :: rest =>
      match models.PublishedAt article with
      | Some publishedAt =>
          if Time_After publishedAt cutoffDate
          then
            now <- call TimeNow ;;
            let daysSincePublished :=
              (Duration_Hours (Time_Sub now publishedAt) / float64_of_int 24)%f64 in
            let timeDecay :=
              (float64_of_int 1
               / (float64_of_int 1 + daysSincePublished / float64_of_int days))%f64 in
            let baseScore :=
              ((float64_of_uint (models.ViewCount article)
                + float64_of_uint (models.LikeCount article) * float64_of_int 3
                + float64_of_uint (models.CommentCount article) * float64_of_int 5)
               * timeDecay)%f64 in
            trendingLoop rest days cutoffDate
              (trendingArticles ++
                 [mkTrendingArticle (models.ID article) (models.Title article)
                    (models.Slug article) (models.ViewCount article)
                    (models.LikeCount article) (models.CommentCount article)
                    baseScore (models.CreatedAt article)])
          else trendingLoop rest days cutoffDate trendingArticles
      | None => trendingLoop rest days cutoffDate trendingArticles
      end
  end.

Definition GetTrendingArticles (limit days : Z)
  : Prog (Result (list TrendingArticle)) :=
  let limit := if (limit <=? 0)%Z then 10%Z else limit in
  let days := if (days <=? 0)%Z then 7%Z else days in
  r <- call (ArticleList 0 (wrap64 (limit * 2)) publishedOnly) ;;
  match r with
  | Err err => Ret (Err (ErrWrap (lit "failed to get articles") err))
  | Ok (articles, _) =>
      now <- call TimeNow ;;
      let cutoffDate := Time_AddDays now (- days) in
      trendingArticles <- trendingLoop articles days cutoffDate [] ;;
      let trendingArticles := sortByScoreDesc TrendingScore trendingArticles in
      Ret (Ok (truncateTo limit trendingArticles))
  end.

End StatisticsService.

(** ** internal/services/statistics_service.go: the summary of an author *)

Record AuthorStats := mkAuthorStats {
  as_AuthorID : N;
  as_ArticleCount : N;
  as_TotalViews : N;
  as_TotalLikes : N;
  as_TotalComments : N
}.

(** [StatisticsService.GetAuthorSummaryStats] over an article repository
    given by its method [GetByAuthorID] on a store [W]. *)
Definition StatisticsService_GetAuthorSummaryStats {W}
    (articleRepo_GetByAuthorID : N -> Z -> Z -> W -> Result (list Article) * W)
    (authorID : N) (w : W) : Result AuthorStats * W :=
  let '(r, w) := articleRepo_GetByAuthorID authorID 1000%Z 0%Z w in
  match r with
  | Err err => (Err (ErrWrap (lit "failed to get author articles") err), w)
  | Ok articles =>
      (Ok (foldl (fun stats article =>
                    mkAuthorStats (as_AuthorID stats)
                      (wrapU64 (as_ArticleCount stats + 1))
                      (wrapU64 (as_TotalViews stats + ViewCount article))
                      (wrapU64 (as_TotalLikes stats + LikeCount article))
                      (wrapU64 (as_TotalComments stats + CommentCount article)))
             (mkAuthorStats authorID 0 0 0 0) articles), w)
  end.

(** ** internal/services/search_service.go *)

(** [regexp.ReplaceAllString(s, " ")] for a pattern [[class]+]: every
    maximal run of runes of the class becomes one space. *)
Fixpoint replaceClassRuns (class : rune -> bool) (inRun : bool) (s : gostring)
  : gostring :=
  match s with
  | [] => []
  | r :: t =>
      if class r
      then if inRun then replaceClassRuns class true t
           else space :: replaceClassRuns class true t
      else r :: replaceClassRuns class false t
  end.

Module SearchService.

Record SearchRequest := mkSearchRequest {
  Query : gostring;
  CategoryID : N;
  AuthorID : N;
  TagID : N;
  Status : gostring;
  DateFrom : Time;
  DateTo : Time;
  SearchMode : gostring
}.

Record SearchResponse := mkSearchResponse {
  Articles : list Article;
  Total : Z;
  Page : Z;
  Limit : Z;
  TotalPages : Z;
  r_Query : gostring;
  SearchTime : Z;
  Suggestions : list gostring
}.

Definition validateSearchRequest (req : option SearchRequest)
  : option error :=
  match req with
  | None => Some (errors_New "search request is required")
  | Some req =>
      if decide (strings.TrimSpace (Query req) = [])
      then Some (errors_New "search query is required")
      else if 255 <? len (Query req)
      then Some (errors_New "search query must be less than 255 characters")
      else if negb (bool_decide (Status req = []))
              && negb (existsb (fun status => bool_decide (Status req = status))
                         [lit "draft"; lit "published"; lit "archived"])
      then Some (errors_New "invalid status filter")
      else if negb (bool_decide (SearchMode req = []))
              && negb (bool_decide (SearchMode req = lit "natural"))
              && negb (bool_decide (SearchMode req = lit "boolean"))
      then Some (errors_New "search mode must be 'natural' or 'boolean'")
      else if negb (Time_IsZero (DateFrom req))
              && negb (Time_IsZero (DateTo req))
              && Time_After (DateFrom req) (DateTo req)
      then Some (errors_New "date_from must be before date_to")
      else None
  end.

(** The class [\s] of the regexp package: ASCII white space. *)
Definition perlSpace (r : rune) : bool :=
  (r =? 9) || (r =? 10) || (r =? 12) || (r =? 13) || (r =? 32).

(** The class [\w] of the regexp package: [[0-9A-Za-z_]]. *)
Definition perlWord (r : rune) : bool :=
  in_range 48 57 r || in_range 65 90 r || in_range 97 122 r || (r =? 95).

(** The punctuation the query keeps: hyphen, full stop, comma, exclamation
    and question mark, colon, semicolon, round and square brackets, and
    the double and the single quote. *)
Definition keptPunctuation : gostring := lit "-.,!?:;()[]'" ++ [doubleQuote].

(** The runes the second pattern of [sanitizeQuery] does not match: the
    classes [\w] and [\s] and the kept punctuation. *)
Definition allowed (r : rune) : bool :=
  perlWord r || perlSpace r || strings.inCutset keptPunctuation r.

Definition sanitizeQuery (query : gostring) : gostring :=
  let query := strings.TrimSpace query in
  let query := replaceClassRuns perlSpace false query in
  let query := replaceClassRuns (fun r => negb (allowed r)) false query in
  strings.TrimSpace query.

(** The cutset of [prepareBooleanQuery]: the characters [+ - < > ( ) ~ *]
    and the double quote. *)
Definition booleanOperators : gostring := lit "+-<>()~*" ++ [doubleQuote].

Definition prepareBooleanQuery (query : gostring) : gostring :=
  let words := strings.Fields query in
  match words with
  | [] => query
  | _ =>
      let booleanTerms :=
        foldl (fun booleanTerms word =>
                 let word := strings.Trim word booleanOperators in
                 if decide (word = []) then booleanTerms
                 else booleanTerms ++ [word])
          [] words in
      strings.Join booleanTerms (lit " ")
  end.

(** [words] without its element at index [i]. *)
Definition withoutIndex (i : nat) (words : list gostring) : list gostring :=
  take i words ++ drop (S i) words.

(** The query has passed [sanitizeQuery], so it is ASCII and the byte
    slices [firstWord[:len(firstWord)-1]] and [firstWord[1:]] are rune
    slices. *)
Definition generateSuggestions `{CaseTable} (query : gostring)
  : list gostring :=
  let words := strings.Fields (strings.ToLower query) in
  let suggestions :=
    match words with
    | [] => []
    | firstWord :: _ =>
        (if (1 <? length words)%nat
         then map (fun i => strings.Join (withoutIndex i words) (lit " "))
                (seq 0 (length words))
         else [])
        ++ (if 3 <? len firstWord
            then [take (length firstWord - 1) firstWord; drop 1 firstWord]
            else [])
    end in
  let uniqueSuggestions :=
    (foldl (fun '(seen, uniqueSuggestions) suggestion =>
              if negb (default false ((seen : gmap gostring bool) !! suggestion))
                 && negb (bool_decide (suggestion = strings.ToLower query))
              then (<[suggestion := true]> seen, uniqueSuggestions ++ [suggestion])
              else (seen, uniqueSuggestions))
       (∅, []) suggestions).2 in
  if (5 <? length uniqueSuggestions)%nat then take 5 uniqueSuggestions
  else uniqueSuggestions.

Definition Search `{CaseTable} (req : option SearchRequest) (page limit : Z)
  : Prog (Result SearchResponse) :=
  startTime <- call TimeNow ;;
  match validateSearchRequest req, req with
  | Some err, _ => Ret (Err err)
  | None, None => nilDereference
  | None, Some req =>
      let query := sanitizeQuery (Query req) in
      if decide (query = [])
      then Ret (Err (errors_New "search query cannot be empty after sanitization"))
      else
        let page := if (page <? 1)%Z then 1%Z else page in
        let limit := if (limit <? 1)%Z || (100 <? limit)%Z then 10%Z else limit in
        let offset := wrap64 ((page - 1) * limit) in
        let filters :=
          mkSearchFilters (Status req) (CategoryID req) (AuthorID req)
            (TagID req) (DateFrom req) (DateTo req) in
        found <-
          (if decide (SearchMode req = lit "boolean")
           then
             let booleanQuery := prepareBooleanQuery query in
             call (ArticleSearchWithBoolean booleanQuery offset limit filters)
           else call (ArticleAdvancedSearch query offset limit filters)) ;;
        match found with
        | Err err => Ret (Err (ErrWrap (lit "search failed") err))
        | Ok (articles, total) =>
            let totalPages := Z.quot (wrap64 (total + limit - 1)) limit in
            let suggestions :=
              if (total =? 0)%Z then generateSuggestions query else [] in
            now <- call TimeNow ;;
            let searchTime := Time_Sub now startTime in
            Ret (Ok (mkSearchResponse articles total page limit totalPages
                       (Query req) searchTime suggestions))
        end
  end.

End SearchService.

(** ** internal/services/category_service.go: the archive service *)

Module ArchiveService.

Record ArchiveEntry := mkArchiveEntry {
  e_Year : Z;
  Month : Z;
  MonthName : gostring;
  ArticleCount : Z
}.

Record ArchiveYear := mkArchiveYear {
  Year : Z;
  Months : list ArchiveEntry;
  Total : Z
}.

Record ArchiveResponse := mkArchiveResponse {
  Years : list ArchiveYear;
  r_Total : Z
}.

Definition getMonthName (month : Z) : gostring :=
  let months :=
    [EmptyString; "January"; "February"; "March"; "April"; "May"; "June";
     "July"; "August"; "September"; "October"; "November";
     "December"]%string in
  if (month <? 1)%Z || (12 <? month)%Z then lit "Unknown"
  else lit (nth (Z.to_nat month) months EmptyString).

Definition GetArchive : Prog (Result ArchiveResponse) :=
  r <- call ArticleGetArchive ;;
  match r with
  | Err err => Ret (Err (ErrWrap (lit "failed to get archive data") err))
  | Ok yearData =>
      let response :=
        foldl (fun response year =>
                 let archiveYear :=
                   foldl (fun archiveYear month =>
                            let entry :=
                              mkArchiveEntry (Year archiveYear) (md_month month)
                                (getMonthName (md_month month)) (md_count month) in
                            mkArchiveYear (Year archiveYear)
                              (Months archiveYear ++ [entry])
                              (wrap64 (Total archiveYear + ArticleCount entry)))
                     (mkArchiveYear (yd_year year) [] 0) (yd_months year) in
                 mkArchiveResponse (Years response ++ [archiveYear])
                   (wrap64 (r_Total response + Total archiveYear)))
          (mkArchiveResponse [] 0) yearData in
      Ret (Ok response)
  end.

(** The answer of [GetArchiveStatistics], a [map[string]interface{}] with
    the keys [total_articles], [total_years], [total_months] and, when
    there is one, [most_active_year] (year and count) and
    [most_active_month]. *)
Record ArchiveStatistics := mkArchiveStatistics {
  total_articles : Z;
  total_years : Z;
  total_months : Z;
  most_active_year : option (Z * Z);
  most_active_month : option ArchiveEntry
}.

(** [if best == nil || key(x) > key(best) { best = &x }] *)
Definition moreActive {A} (key : A -> Z) (best : option A) (x : A) : option A :=
  match best with
  | None => Some x
  | Some current => if (key current <? key x)%Z then Some x else Some current
  end.

Definition GetArchiveStatistics : Prog (Result ArchiveStatistics) :=
  r <- GetArchive ;;
  match r with
  | Err err => Ret (Err err)
  | Ok archive =>
      let totalMonths :=
        foldl (fun totalMonths year =>
                 wrap64 (totalMonths + Z.of_nat (length (Months year))))
          0%Z (Years archive) in
      let '(mostActiveYear, mostActiveMonth) :=
        foldl (fun '(mostActiveYear, mostActiveMonth) year =>
                 (moreActive Total mostActiveYear year,
                  foldl (moreActive ArticleCount) mostActiveMonth (Months year)))
          (None, None) (Years archive) in
      Ret (Ok (mkArchiveStatistics (r_Total archive)
                 (Z.of_nat (length (Years archive)))
                 totalMonths
                 ((fun year => (Year year, Total year)) <$> mostActiveYear)
                 mostActiveMonth))
  end.

End ArchiveService.

(** ** internal/models: the validation hooks *)

Module hooks.

(** [validateTitle] *)
Definition validateTitle (a : Article) : option error :=
  if negb (bool_decide (strings.TrimSpace (Title a) = Title a))
  then Some (errors_New "title cannot have leading or trailing spaces")
  else if existsb (fun r => (r =? 10) || (r =? 13)) (Title a)
  then Some (errors_New "title cannot contain line breaks")
  else None.

(** [validateContent] *)
Definition validateContent (a : Article) : option error :=
  if len (strings.TrimSpace (Content a)) =? 0
  then Some (errors_New "content cannot be empty or contain only whitespace")
  else None.

(** [validatePublishedStatus]; [now] is what [time.Now()] returns. *)
Definition validatePublishedStatus (now : Time) (a : Article)
  : Article * option error :=
  if decide (Status a = StatusPublished)
  then match PublishedAt a with
       | None => (set_PublishedAt (Some now) a, None)
       | Some _ => (a, None)
       end
  else (a, None).

(** [Article.Validate], run by [BeforeCreate] and [BeforeUpdate].
    [structError] is the verdict of the validator library on the struct
    tags. *)
Definition Article_Validate (structError : Article -> option error)
    (now : Time) (a : Article) : Article * option error :=
  match structError a with
  | Some err => (a, Some err)
  | None =>
      match validateTitle a with
      | Some err => (a, Some err)
      | None =>
          match validateContent a with
          | Some err => (a, Some err)
          | None => validatePublishedStatus now a
          end
      end
  end.

(** [Tag.validateName] *)
Definition validateName (t : Tag) : option error :=
  if negb (bool_decide (strings.TrimSpace (Tag_Name t) = Tag_Name t))
  then Some (errors_New "name cannot have leading or trailing spaces")
  else if existsb (fun r => (r =? 10) || (r =? 13)) (Tag_Name t)
  then Some (errors_New "name cannot contain line breaks")
  else if negb (forallb (fun char =>
                in_range 97 122 char || in_range 65 90 char
                || in_range 48 57 char || (char =? 45) || (char =? 95)
                || (char =? 32)) (Tag_Name t))
  then Some (errors_New
         "tag name can only contain letters, numbers, spaces, hyphens, and underscores")
  else None.

(** [Tag.Validate] *)
Definition Tag_Validate (structError : Tag -> option error) (t : Tag)
  : option error :=
  match structError t with
  | Some err => Some err
  | None => validateName t
  end.

End hooks.

(** ** internal/models/validation.go *)

Module validation.

(** [validateSlug]: the field is not empty and matches [^[a-z0-9-]+$]. *)
Definition validateSlug (slug : gostring) : bool :=
  if len slug =? 0 then false
  else forallb (fun r => in_range 97 122 r || in_range 48 57 r || (r =? 45)) slug.

End validation.

(** ** internal/database/gorm.go: the error helpers

    These functions slice and compare their strings byte by byte; [B] is
    the type of bytes. *)

Module database.

Section Bytes.
Context {B : Type} `{EqDecision B}.

(** [for i := 0; i <= len(s)-len(substr); i++
      { if s[i:i+len(substr)] == substr { return true } }; return false] *)
Definition containsAt (s substr : list B) : bool :=
  if (length s <? length substr)%nat then false
  else existsb (fun i => bool_decide (take (length substr) (drop i s) = substr))
         (seq 0 (length s - length substr + 1)).

Definition contains (s substr : list B) : bool :=
  (length substr <=? length s)%nat
  && (bool_decide (s = substr)
      || ((length substr <? length s)%nat
          && (bool_decide (take (length substr) s = substr)
              || bool_decide (drop (length s - length substr) s = substr)
              || containsAt s substr))).

End Bytes.

(** [IsDuplicateEntry]; [err] is [None] for a nil error and the text of
    [err.Error()] otherwise. *)
Definition IsDuplicateEntry (err : option gostring) : bool :=
  match err with
  | None => false
  | Some text =>
      contains text (lit "Duplicate entry") || contains text (lit "duplicate key")
  end.

End database.

(** ** The gorm-backed repositories over an in-memory store

    The tables of the relational store, its clock and the behaviour of the
    libraries the repositories rest on.  Every call of a repository method
    or of [time.Now] is one step of the store: step [n] reads the clock as
    [w_clock n] and fails with a store error when [w_faults n] holds.
    Strings compare exactly, as under a binary collation. *)

Record World := mkWorld {
  w_users : list User;
  w_categories : list Category;
  w_tags : list Tag;
  w_articles : gmap N Article;
  w_nextTagID : N;
  w_nextArticleID : N;
  w_calls : nat;
  w_clock : nat -> Time;
  w_faults : nat -> bool;
  (** the validator library on the struct tags *)
  w_articleStructError : Article -> option error;
  w_tagStructError : Tag -> option error;
  (** the full-text index: mode (boolean or natural), query, row *)
  w_fulltext : bool -> gostring -> Article -> bool;
  (** the order in which [range] visits the keys of a map *)
  w_rangeOrder : list Z -> list Z
}.

Module gorm.

Definition storeFailure : error := ErrStore (lit "driver: bad connection").
Definition duplicateEntry : error := ErrStore (lit "Duplicate entry").
Definition unknownColumn : error := ErrStore (lit "Unknown column").
Definition divideByZero {A} : Result A :=
  Err (ErrPanic (lit "integer divide by zero")).

Definition now (w : World) : Time := w_clock w (w_calls w).
Definition faulty (w : World) : bool := w_faults w (w_calls w).

(** The store after one more call. *)
Definition step (w : World) : World :=
  mkWorld (w_users w) (w_categories w) (w_tags w) (w_articles w)
    (w_nextTagID w) (w_nextArticleID w) (S (w_calls w)) (w_clock w)
    (w_faults w) (w_articleStructError w) (w_tagStructError w)
    (w_fulltext w) (w_rangeOrder w).

Definition with_tags (tags : list Tag) (next : N) (w : World) : World :=
  mkWorld (w_users w) (w_categories w) tags (w_articles w)
    next (w_nextArticleID w) (w_calls w) (w_clock w)
    (w_faults w) (w_articleStructError w) (w_tagStructError w)
    (w_fulltext w) (w_rangeOrder w).

Definition with_articles (articles : gmap N Article) (next : N) (w : World)
  : World :=
  mkWorld (w_users w) (w_categories w) (w_tags w) articles
    (w_nextTagID w) next (w_calls w) (w_clock w)
    (w_faults w) (w_articleStructError w) (w_tagStructError w)
    (w_fulltext w) (w_rangeOrder w).

(** Rows visible to queries: soft-deleted rows are filtered out. *)
Definition live (a : Article) : bool :=
  match DeletedAt a with None => true | Some _ => false end.

(** The rows of table [articles], newest first ([created_at DESC]; rows of
    equal creation time by descending key). *)
Definition newerb (a b : Article) : bool :=
  (CreatedAt b <? CreatedAt a)%Z
  || ((CreatedAt b =? CreatedAt a)%Z && (ID b <=? ID a)).

Definition rows (w : World) : list Article :=
  merge_sort (fun a b => Is_true (newerb a b))
    (filter (fun a => Is_true (live a)) (map snd (map_to_list (w_articles w)))).

Definition lookupFirst {A} (p : A -> bool) (l : list A) : Result A :=
  match List.find p l with
  | Some x => Ok x
  | None => Err ErrRecordNotFound
  end.

(** [First] behind a fault check. *)
Definition query {A} (w : World) (r : Result A) : Result A * World :=
  (if faulty w then Err storeFailure else r, step w).

Definition tagRepository_Create (tag : Tag) (w : World)
  : (Tag * option error) * World :=
  if faulty w then ((tag, Some storeFailure), step w)
  else
    match hooks.Tag_Validate (w_tagStructError w) tag with
    | Some err => ((tag, Some err), step w)
    | None =>
        if existsb (fun t => bool_decide (Tag_Name t = Tag_Name tag)
                             || bool_decide (Tag_Slug t = Tag_Slug tag))
             (w_tags w)
        then ((tag, Some duplicateEntry), step w)
        else
          let tag := mkTag (w_nextTagID w) (Tag_Name tag) (Tag_Slug tag) in
          ((tag, None),
           step (with_tags (w_tags w ++ [tag]) (w_nextTagID w + 1) w))
    end.

Definition slugTaken (a : Article) (w : World) : bool :=
  existsb (fun b => bool_decide (Slug b = Slug a) && negb (ID b =? ID a))
    (map snd (map_to_list (w_articles w))).

(** [Create]: the [BeforeCreate] hook, the unique index on [slug], then
    the insertion under a fresh key. *)
Definition articleRepository_Create (article : Article) (w : World)
  : (Article * option error) * World :=
  if faulty w then ((article, Some storeFailure), step w)
  else
    match hooks.Article_Validate (w_articleStructError w) (now w) article with
    | (article, Some err) => ((article, Some err), step w)
    | (article, None) =>
        let article :=
          set_CreatedAt (now w) (set_ID (w_nextArticleID w) article) in
        if slugTaken article w
        then ((article, Some duplicateEntry), step w)
        else
          ((article, None),
           step (with_articles (<[ID article := article]> (w_articles w))
                   (w_nextArticleID w + 1) w))
    end.

(** [Update], gorm's [Save]: the [BeforeUpdate] hook, the unique index,
    then all columns of the row with the record's key are written.  A
    record without a key is inserted. *)
Definition articleRepository_Update (article : Article) (w : World)
  : (Article * option error) * World :=
  if ID article =? 0 then articleRepository_Create article w
  else if faulty w then ((article, Some storeFailure), step w)
  else
    match hooks.Article_Validate (w_articleStructError w) (now w) article with
    | (article, Some err) => ((article, Some err), step w)
    | (article, None) =>
        if slugTaken article w
        then ((article, Some duplicateEntry), step w)
        else
          ((article, None),
           step (with_articles (<[ID article := article]> (w_articles w))
                   (w_nextArticleID w) w))
    end.

Definition articleRepository_GetByID (id : N) (w : World) : Result Article :=
  match w_articles w !! id with
  | Some a => if live a then Ok a else Err ErrRecordNotFound
  | None => Err ErrRecordNotFound
  end.

(** One condition [field = ?] of [DB.List]. *)
Definition filterHolds (field : gostring) (v : FilterValue) (a : Article)
  : option bool :=
  if decide (field = lit "status")
  then match v with
       | FStatus s => Some (bool_decide (Status a = s))
       | FUint _ => Some false
       end
  else if decide (field = lit "author_id")
  then match v with
       | FUint n => Some (AuthorID a =? n)
       | FStatus _ => Some false
       end
  else if decide (field = lit "category_id")
  then match v with
       | FUint n => Some (bool_decide (CategoryID a = Some n))
       | FStatus _ => Some false
       end
  else None.

(** [articleRepository.List] over [DB.List]: the page is computed from
    offset and limit, the limit is clamped to 1..100 (10 when below 1),
    and the rows that meet every filter are returned newest first. *)
Definition articleRepository_List (offset limit : Z)
    (filters : gmap gostring FilterValue) (w : World)
  : Result (list Article * Z) :=
  if (limit =? 0)%Z then divideByZero
  else
    let page := wrap64 (Z.quot offset limit + 1) in
    let page := if (page <? 1)%Z then 1%Z else page in
    let limit := if (limit <? 1)%Z then 10%Z
                 else if (100 <? limit)%Z then 100%Z else limit in
    let conditions := map_to_list filters in
    if existsb (fun '(field, v) =>
                  match filterHolds field v (mkArticle 0 [] [] [] [] 0 zeroUser
                          None None [] [] 0 0 0 None 0%Z None)
                  with None => true | Some _ => false end) conditions
    then Err unknownColumn
    else
      let matching :=
        filter (fun a => Is_true (forallb (fun '(field, v) =>
                   default false (filterHolds field v a)) conditions))
          (rows w) in
      let offset := wrap64 ((page - 1) * limit) in
      Ok (take (Z.to_nat limit) (drop (Z.to_nat offset) matching),
          Z.of_nat (length matching)).

(** [articleRepository.GetByAuthorID]: the body of [List] with the filters
    [author_id] and [status = published]; the total is dropped. *)
Definition articleRepository_GetByAuthorID (authorID : N) (limit offset : Z)
    (w : World) : Result (list Article) :=
  let filters : gmap gostring FilterValue :=
    <[lit "author_id" := FUint authorID]>
      (<[lit "status" := FStatus StatusPublished]> ∅) in
  match articleRepository_List offset limit filters w with
  | Ok (articles, _) => Ok articles
  | Err err => Err err
  end.

(** [GetByAuthorID] as a call to the store. *)
Definition getByAuthorID (authorID : N) (limit offset : Z) (w : World)
  : Result (list Article) * World :=
  query w (articleRepository_GetByAuthorID authorID limit offset w).
(** [AdvancedSearch] and [SearchWithBoolean]: the rows the full-text index
    matches, restricted by the search filters, one page of them. *)
Definition searchFilterHolds (f : SearchFilters) (a : Article) : bool :=
  (bool_decide (sf_Status f = []) || bool_decide (Status a = sf_Status f))
  && ((sf_CategoryID f =? 0) || bool_decide (CategoryID a = Some (sf_CategoryID f)))
  && ((sf_AuthorID f =? 0) || (AuthorID a =? sf_AuthorID f))
  && ((sf_TagID f =? 0) || existsb (fun t => Tag_ID t =? sf_TagID f) (Tags a))
  && (Time_IsZero (sf_DateFrom f) || (sf_DateFrom f <=? CreatedAt a)%Z)
  && (Time_IsZero (sf_DateTo f) || (CreatedAt a <=? sf_DateTo f)%Z).

Definition articleRepository_search (booleanMode : bool) (query : gostring)
    (offset limit : Z) (filters : SearchFilters) (w : World)
  : Result (list Article * Z) :=
  if (limit =? 0)%Z then divideByZero
  else
    let matching :=
      filter (fun a => Is_true
                ((bool_decide (query = []) || w_fulltext w booleanMode query a)
                 && searchFilterHolds filters a))
        (rows w) in
    Ok (take (Z.to_nat limit) (drop (Z.to_nat offset) matching),
        Z.of_nat (length matching)).

(** *** The archive query *)

(** Days since the epoch to the civil year and month (proleptic
    Gregorian calendar), for SQL's [YEAR] and [MONTH]. *)
Definition civilYearMonth (t : Time) : Z * Z :=
  let z := (t / nanosPerDay + 719468)%Z in
  let era := (z / 146097)%Z in
  let doe := (z - era * 146097)%Z in
  let yoe := ((doe - doe / 1460 + doe / 36524 - doe / 146096) / 365)%Z in
  let doy := (doe - (365 * yoe + yoe / 4 - yoe / 100))%Z in
  let mp := ((5 * doy + 2) / 153)%Z in
  let m := (if mp <? 10 then mp + 3 else mp - 9)%Z in
  ((if m <=? 2 then yoe + era * 400 + 1 else yoe + era * 400)%Z, m).

(** Midnight of a civil date, the inverse reading. *)
Definition dateUTC (y m d : Z) : Time :=
  let y' := (if m <=? 2 then y - 1 else y)%Z in
  let era := (y' / 400)%Z in
  let yoe := (y' - era * 400)%Z in
  let doy := ((153 * (if 2 <? m then m - 3 else m + 9) + 2) / 5 + d - 1)%Z in
  let doe := (yoe * 365 + yoe / 4 - yoe / 100 + doy)%Z in
  ((era * 146097 + doe - 719468) * nanosPerDay)%Z.

Record ArchiveRow := mkArchiveRow { Year : Z; Month : Z; Count : Z }.

Definition laterPeriod (a b : ArchiveRow) : bool :=
  (Year b <? Year a)%Z || ((Year b =? Year a)%Z && (Month b <=? Month a)%Z).

(** [SELECT YEAR(published_at), MONTH(published_at), COUNT( * ) FROM articles
     WHERE status = 'published' AND published_at IS NOT NULL
       AND deleted_at IS NULL
     GROUP BY YEAR(published_at), MONTH(published_at)
     ORDER BY year DESC, month DESC] *)
Definition archiveQuery (w : World) : list ArchiveRow :=
  let periods :=
    omap (fun a : Article =>
            if bool_decide (Status a = lit "published") && live a
            then civilYearMonth <$> PublishedAt a
            else None)
      (map snd (map_to_list (w_articles w))) in
  let groups : gmap (Z * Z) Z :=
    foldl (fun groups period =>
             <[period := (default 0 (groups !! period) + 1)%Z]> groups)
      ∅ periods in
  merge_sort (fun a b => Is_true (laterPeriod a b))
    (map (fun '((y, m), n) => mkArchiveRow y m n) (map_to_list groups)).

(** The reshaping part of [articleRepository.GetArchive]: [results] are the
    scanned rows, [rangeOrder] the order in which the [range] over
    [yearMap] visits the keys. *)
Definition reshapeArchive (rangeOrder : list Z -> list Z)
    (results : list ArchiveRow) : list YearData :=
  let yearMap : gmap Z (list MonthData) :=
    foldl (fun yearMap result =>
             let months := default [] (yearMap !! Year result) in
             let monthData := mkMonthData (Month result) (Count result) in
             <[Year result := months ++ [monthData]]> yearMap)
      ∅ results in
  omap (fun year => mkYearData year <$> yearMap !! year)
    (rangeOrder (map fst (map_to_list yearMap))).

Definition articleRepository_GetArchive (w : World) : Result (list YearData) :=
  Ok (reshapeArchive (w_rangeOrder w) (archiveQuery w)).

(** *** The handler *)

Definition handle : Handler World :=
  fun X (e : Event X) (w : World) =>
    match e in Event X return X * World with
    | TimeNow => (now w, step w)
    | UserGetByID id =>
        query w (lookupFirst (fun u => User_ID u =? id) (w_users w))
    | CategoryGetByID id =>
        query w (lookupFirst (fun c => Category_ID c =? id) (w_categories w))
    | TagGetByName name =>
        query w (lookupFirst (fun t => bool_decide (Tag_Name t = name)) (w_tags w))
    | TagGetBySlug slug =>
        query w (lookupFirst (fun t => bool_decide (Tag_Slug t = slug)) (w_tags w))
    | TagCreate tag => tagRepository_Create tag w
    | ArticleCreate article => articleRepository_Create article w
    | ArticleGetByID id => query w (articleRepository_GetByID id w)
    | ArticleGetBySlug slug =>
        query w (lookupFirst (fun a => bool_decide (Slug a = slug)) (rows w))
    | ArticleList offset limit filters =>
        query w (articleRepository_List offset limit filters w)
    | ArticleUpdate article => articleRepository_Update article w
    | ArticleAdvancedSearch q offset limit filters =>
        query w (articleRepository_search false q offset limit filters w)
    | ArticleSearchWithBoolean q offset limit filters =>
        query w (articleRepository_search true q offset limit filters w)
    | ArticleGetArchive => query w (articleRepository_GetArchive w)
    end.

(** A store with the given tables, a clock that advances one second per
    call from [start], no faults, a validator that accepts everything, a
    full-text index that matches every row and a [range] that visits keys
    in the given order. *)
Definition quiet (users : list User) (categories : list Category)
    (tags : list Tag) (articles : list Article) (start : Time)
    (rangeOrder : list Z -> list Z) : World :=
  mkWorld users categories tags
    (list_to_map (map (fun a => (ID a, a)) articles))
    (1 + foldr N.max 0 (map Tag_ID tags))
    (1 + foldr N.max 0 (map ID articles))
    0 (fun n => (start + Z.of_nat n * 1000000000)%Z) (fun _ => false)
    (fun _ => None) (fun _ => None) (fun _ _ _ => true) rangeOrder.

End gorm.

(** ** internal/repositories/mocks

    The test doubles of the repository interfaces: every method answers as
    it has been told to, whatever happened before.  The state counts the
    calls, so that the clock can be told to advance. *)

Module mocks.

Record Expectations := mkExpectations {
  onTimeNow : nat -> Time;
  onUserGetByID : N -> Result User;
  onCategoryGetByID : N -> Result Category;
  onTagGetByName : gostring -> Result Tag;
  onTagGetBySlug : gostring -> Result Tag;
  onTagCreate : Tag -> option error;
  onArticleCreate : Article -> option error;
  onArticleGetByID : N -> Result Article;
  onArticleGetBySlug : gostring -> Result Article;
  onArticleList : Z -> Z -> gmap gostring FilterValue -> Result (list Article * Z);
  onArticleUpdate : Article -> option error;
  onArticleAdvancedSearch :
    gostring -> Z -> Z -> SearchFilters -> Result (list Article * Z);
  onArticleSearchWithBoolean :
    gostring -> Z -> Z -> SearchFilters -> Result (list Article * Z);
  onArticleGetArchive : Result (list YearData)
}.

Definition handle (m : Expectations) : Handler nat :=
  fun X (e : Event X) (n : nat) =>
    match e in Event X return X * nat with
    | TimeNow => (onTimeNow m n, S n)
    | UserGetByID id => (onUserGetByID m id, S n)
    | CategoryGetByID id => (onCategoryGetByID m id, S n)
    | TagGetByName name => (onTagGetByName m name, S n)
    | TagGetBySlug slug => (onTagGetBySlug m slug, S n)
    | TagCreate tag => ((tag, onTagCreate m tag), S n)
    | ArticleCreate article => ((article, onArticleCreate m article), S n)
    | ArticleGetByID id => (onArticleGetByID m id, S n)
    | ArticleGetBySlug slug => (onArticleGetBySlug m slug, S n)
    | ArticleList offset limit filters => (onArticleList m offset limit filters, S n)
    | ArticleUpdate article => ((article, onArticleUpdate m article), S n)
    | ArticleAdvancedSearch q offset limit filters =>
        (onArticleAdvancedSearch m q offset limit filters, S n)
    | ArticleSearchWithBoolean q offset limit filters =>
        (onArticleSearchWithBoolean m q offset limit filters, S n)
    | ArticleGetArchive => (onArticleGetArchive m, S n)
    end.

(** Nothing is stored and every write succeeds. *)
Definition blank : Expectations :=
  mkExpectations (fun n => Z.of_nat n)
    (fun _ => Err ErrRecordNotFound) (fun _ => Err ErrRecordNotFound)
    (fun _ => Err ErrRecordNotFound) (fun _ => Err ErrRecordNotFound)
    (fun _ => None) (fun _ => None)
    (fun _ => Err ErrRecordNotFound) (fun _ => Err ErrRecordNotFound)
    (fun _ _ _ => Ok ([], 0%Z)) (fun _ => None)
    (fun _ _ _ _ => Ok ([], 0%Z)) (fun _ _ _ _ => Ok ([], 0%Z)) (Ok []).

End mocks.

(** ** Vocabulary of the properties *)

(** The alphabet [[a-z0-9-]] of a slug. *)
Definition slugChar (r : rune) : bool := utils.isSlugAlnum r || (r =? hyphen).

(** No two hyphens in a row. *)
Fixpoint noDoubleHyphen (s : gostring) : Prop :=
  match s with
  | [] => True
  | a :: t => (a = hyphen -> head t <> Some hyphen) /\ noDoubleHyphen t
  end.

(** The slug before the length limit is applied. *)
Definition trimmed `{CaseTable} (text : gostring) : gostring :=
  strings.Trim (utils.replaceRuns false (strings.ToLower text)) (lit "-").

(** [base-k], as [fmt.Sprintf("%s-%d", base, k)] writes it. *)
Definition numbered (base : gostring) (k : N) : gostring :=
  base ++ lit "-" ++ itoa k.

(** The slug the loop of [generateUniqueSlug] tries in round [j]. *)
Definition candidate (base : gostring) (j : N) : gostring :=
  if j =? 0 then base else numbered base j.

(** The slugs [base], [base-1], ..., [base-n]. *)
Definition collides (base : gostring) (n : N) (s : gostring) : Prop :=
  s = base \/ exists k, 1 <= k <= n /\ s = numbered base k.

(** The existence check [getBySlug] of a repository reports exactly the
    slugs in [taken] as present, in every state [I] allows. *)
Definition reportsTaken {W T} (h : Handler W) (I : W -> Prop)
    (getBySlug : gostring -> Event (Result T)) (taken : gostring -> Prop)
  : Prop :=
  forall w s, I w ->
    I (h _ (getBySlug s) w).2
    /\ (taken s -> exists t, (h _ (getBySlug s) w).1 = Ok t)
    /\ (~ taken s -> (h _ (getBySlug s) w).1 = Err ErrRecordNotFound).

(** A tag repository hands out tags under the name it was asked for. *)
Definition nameFaithful {W} (h : Handler W) : Prop :=
  (forall w name t, (h _ (TagGetByName name) w).1 = Ok t -> Tag_Name t = name)
  /\ (forall w tag, Tag_Name (h _ (TagCreate tag) w).1.1 = Tag_Name tag).

(** The names [ProcessTagNames] resolves, in the order it meets them: the
    trimmed, non-empty names not yet in [processed]. *)
Fixpoint freshNames (tagNames : list gostring) (processed : gmap gostring bool)
  : list gostring :=
  match tagNames with
  | [] => []
  | raw :: rest =>
      let name := strings.TrimSpace raw in
      if decide (name = []) then freshNames rest processed
      else if default false (processed !! name) then freshNames rest processed
      else name :: freshNames rest (<[name := true]> processed)
  end.

(** The real number a finite [float64] stands for. *)
Definition float64_value (f : float64) : option Q :=
  match f with
  | S754_zero _ => Some 0%Q
  | S754_finite s m e => Some (inject_Z (cond_Zopp s (Zpos m)) * Qpower 2 e)%Q
  | S754_infinity _ | S754_nan => None
  end.

(** [f] is finite and stands for exactly [q]. *)
Definition denotes (f : float64) (q : Q) : Prop :=
  match float64_value f with
  | Some v => (v == q)%Q
  | None => False
  end.

(** [f] is a number, and not below zero. *)
Definition notNegative (f : float64) : Prop :=
  match f with
  | S754_nan => False
  | S754_zero _ => True
  | S754_infinity s | S754_finite s _ _ => s = false
  end.

(** [x <= y] on [float64]; false when either is NaN. *)
Definition fleb : float64 -> float64 -> bool := SFleb.

(** The [float64] of [n * 2 ^ c], for an integer [n] of at most 53
    significant bits, or [2 ^ 53]: the mantissa is [n] shifted to 53 bits. *)
Definition canonScaled (s : bool) (n c : Z) : float64 :=
  let t := (Z.log2 n + 1 - 53)%Z in
  S754_finite s (Z.to_pos (Z.shiftl n (- t))) (t + c).

Definition canon (s : bool) (n : Z) : float64 := canonScaled s n 0.

(** 0.5 *)
Definition half : float64 := S754_finite false (2 ^ 52) (-53).

(** The weighted sum of the counters: views x 1 + likes x 3 + comments x 5. *)
Definition weighted (views likes comments : N) : Z :=
  (Z.of_N views * 1 + Z.of_N likes * 3 + Z.of_N comments * 5)%Z.

(** A trending entry [t] stems from one of [articles]: an article published
    strictly after [cutoff], whose counters it copies.  If that article is
    exactly [days] days old at the reading [now] of the handler's clock at
    which it is scored, and its weighted sum is at most [2 ^ 53], the score
    is exactly half the weighted sum. *)
Definition scoredFrom {W} (h : Handler W) (articles : list Article) (days : Z)
    (cutoff : Time) (t : StatisticsService.TrendingArticle) : Prop :=
  exists (a : Article) (p now : Time),
    In a articles
    /\ PublishedAt a = Some p
    /\ (cutoff < p)%Z
    /\ (exists w', now = (h _ TimeNow w').1)
    /\ StatisticsService.t_ArticleID t = ID a
    /\ StatisticsService.t_ViewCount t = ViewCount a
    /\ StatisticsService.t_LikeCount t = LikeCount a
    /\ StatisticsService.t_CommentCount t = CommentCount a
    /\ (now = (p + days * nanosPerDay)%Z ->
        (weighted (ViewCount a) (LikeCount a) (CommentCount a) <= 2 ^ 53)%Z ->
        denotes (StatisticsService.TrendingScore t)
          (inject_Z (weighted (ViewCount a) (LikeCount a) (CommentCount a)) / 2)).

(** ASCII punctuation: the printable characters that are neither letters,
    digits nor the space. *)
Definition isPunctuation (r : rune) : bool :=
  in_range 33 47 r || in_range 58 64 r || in_range 91 96 r || in_range 123 126 r.

(** *** The article store under the operations of the article service *)

Inductive Op : Type :=
| OpCreate (authorID : N) (req : option ArticleService.CreateArticleRequest)
| OpUpdate (id authorID : N) (req : option ArticleService.UpdateArticleRequest)
| OpPublish (id authorID : N)
| OpUnpublish (id authorID : N)
| OpArchive (id authorID : N).

Definition perform `{CaseTable} (op : Op) : Prog (Result Article) :=
  match op with
  | OpCreate authorID req => ArticleService.Create authorID req
  | OpUpdate id authorID req => ArticleService.Update id authorID req
  | OpPublish id authorID => ArticleService.Publish id authorID
  | OpUnpublish id authorID => ArticleService.Unpublish id authorID
  | OpArchive id authorID => ArticleService.Archive id authorID
  end.

(** The store after a sequence of operations. *)
Definition performAll `{CaseTable} (ops : list Op) (w : World) : World :=
  foldl (fun w op => state_of gorm.handle (perform op) w) w ops.

(** Rows sit under their own key and below the next key to be issued. *)
Definition wellKeyed (w : World) : Prop :=
  forall k a, w_articles w !! k = Some a -> ID a = k /\ k < w_nextArticleID w.

(** Every published row carries a publication time. *)
Definition publishedStamped (w : World) : Prop :=
  forall k a, w_articles w !! k = Some a ->
    Status a = StatusPublished -> PublishedAt a <> None.

(** What an operation may do to a stored article [a0], leaving [a]: the key
    stays, a publication time once set stays as it is, and one that was
    not set is set only if the article is left in status published. *)
Definition keepsStamp (a0 a : Article) : Prop :=
  ID a = ID a0
  /\ (forall t, PublishedAt a0 = Some t -> PublishedAt a = Some t)
  /\ (PublishedAt a0 = None -> PublishedAt a <> None -> Status a = StatusPublished).

(** Every row of [w] is still there in [w'], changed at most as
    [keepsStamp] allows. *)
Definition evolved (w w' : World) : Prop :=
  forall k a, w_articles w !! k = Some a ->
    exists a', w_articles w' !! k = Some a' /\ keepsStamp a a'.

(** *** Programs by the writes they make to the article table *)

Definition isArticleWrite {X} (e : Event X) : bool :=
  match e with
  | ArticleCreate _ | ArticleUpdate _ => true
  | _ => false
  end.

(** [quiet Q p]: [p] never writes to the article table, and whatever it
    returns satisfies [Q]. *)
Inductive quiet {R} (Q : R -> Prop) : Prog R -> Prop :=
| quiet_Ret (r : R) : Q r -> quiet Q (Ret r)
| quiet_Call {X} (e : Event X) (k : X -> Prog R) :
    isArticleWrite e = false -> (forall x, quiet Q (k x)) -> quiet Q (Call e k).

(** Where an operation stands: it has not touched the article table, it
    has read the row [a0] it is about to change, or it has written. *)
Inductive Mode : Type :=
| Fresh
| Target (a0 : Article)
| Done.

(** [safe mode p]: [p] writes to the article table at most by inserting
    rows and by one update of the row it has read, and that update respects
    [keepsStamp]. *)
Inductive safe {R} : Mode -> Prog R -> Prop :=
| safe_Ret mode (r : R) : safe mode (Ret r)
| safe_read mode {X} (e : Event X) (k : X -> Prog R) :
    isArticleWrite e = false -> (forall x, safe mode (k x)) -> safe mode (Call e k)
| safe_get (id : N) (k : Result Article -> Prog R) :
    (forall a0, safe (Target a0) (k (Ok a0))) ->
    (forall err, safe Fresh (k (Err err))) ->
    safe Fresh (Call (ArticleGetByID id) k)
| safe_create mode (a : Article) (k : Article * option error -> Prog R) :
    (forall x, safe Done (k x)) -> safe mode (Call (ArticleCreate a) k)
| safe_update (a0 a : Article) (k : Article * option error -> Prog R) :
    keepsStamp a0 a -> (forall x, safe Done (k x)) ->
    safe (Target a0) (Call (ArticleUpdate a) k).

(** [okAnd J r]: a successful result satisfies [J]. *)
Definition okAnd {A} (J : A -> Prop) (r : Result A) : Prop :=
  match r with
  | Ok a => J a
  | Err _ => True
  end.

(** The record an update is building still has the key and the publication
    time of the row [a0] that was read. *)
Definition sameStamp (a0 : Article) (st : Article * bool) : Prop :=
  ID st.1 = ID a0 /\ PublishedAt st.1 = PublishedAt a0.

(** The article table relative to the table [w0] the operation started
    from, by mode. *)
Definition untouched (w0 w1 : World) : Prop :=
  w_articles w1 = w_articles w0 /\ w_nextArticleID w1 = w_nextArticleID w0.

Definition settled (w0 w1 : World) : Prop :=
  wellKeyed w1 /\ (publishedStamped w0 -> publishedStamped w1) /\ evolved w0 w1.

Definition holds (mode : Mode) (w0 w1 : World) : Prop :=
  match mode with
  | Fresh => untouched w0 w1
  | Target a0 => untouched w0 w1 /\ w_articles w0 !! ID a0 = Some a0
  | Done => settled w0 w1
  end.

(** A term of the query that [prepareBooleanQuery] rebuilds from [words]:
    one of the words with the operator characters taken off its two ends,
    not empty, free of white space. *)
Definition booleanTerm (words : list gostring) (term : gostring) : Prop :=
  term <> []
  /\ (exists word,
        In word words /\ term = strings.Trim word SearchService.booleanOperators)
  /\ (forall r, head term = Some r ->
                strings.inCutset SearchService.booleanOperators r = false)
  /\ (forall r, last term = Some r ->
                strings.inCutset SearchService.booleanOperators r = false)
  /\ Forall (fun r => unicode_IsSpace r = false) term.

(** In [s] the element at [p] scores at least as high as every later
    element before position [k]. *)
Definition scoresAbove {A} (score : A -> float64) (s : list A) (p k : nat)
  : Prop :=
  forall q a b, (p < q < k)%nat -> s !! p = Some a -> s !! q = Some b ->
    fleb (score b) (score a) = true.

(** The inner loop of [sortByScoreDesc] for one [i], over the positions
    [js]. *)
Definition sortInner {A} (score : A -> float64) (i : nat) (s : list A) (js : list nat)
  : list A :=
  foldl (fun s j => swapIfLess score i j s) s js.

(** *** The tag table *)

(** The tag table of [w1] is that of [w0]. *)
Definition sameTags (w0 w1 : World) : Prop :=
  w_tags w1 = w_tags w0 /\ w_nextTagID w1 = w_nextTagID w0.

(** *** The summary of an author *)

(** The published articles of an author that queries see, newest first. *)
Definition publishedBy (authorID : N) (w : World) : list Article :=
  filter (fun a => AuthorID a = authorID /\ Status a = StatusPublished)
    (gorm.rows w).

(** The sum of a list of counters. *)
Definition sumN (l : list N) : N := foldr N.add 0 l.

(** *** The bubble sort *)

(** In [s] the element at [k] counts at most as much as every element
    before it. *)
Definition sinksTo {A} (count : A -> Z) (s : list A) (k : nat) : Prop :=
  forall p a b, (p < k)%nat -> s !! p = Some a -> s !! k = Some b ->
    (count b <= count a)%Z.

(** From position [n] on, every element of [s] counts at most as much as
    every element before it. *)
Definition settledFrom {A} (count : A -> Z) (s : list A) (n : nat) : Prop :=
  forall p q a b, (p < q)%nat -> (n <= q)%nat ->
    s !! p = Some a -> s !! q = Some b -> (count b <= count a)%Z.

(** One pass of the bubble sort, over the positions [js]. *)
Definition bubblePass {A} (count : A -> Z) (s : list A) (js : list nat) : list A :=
  foldl (fun s j => swapAdjacent count j s) s js.

(** *** The archive *)

(** The period, year and month, under which the archive query counts an
    article: that of its publication time, if the article is published and
    not deleted. *)
Definition archivePeriod (a : Article) : option (Z * Z) :=
  if bool_decide (Status a = lit "published") && gorm.live a
  then gorm.civilYearMonth <$> PublishedAt a
  else None.

(** The number of stored articles the archive counts under [period]. *)
Definition archivedIn (w : World) (period : Z * Z) : nat :=
  length (filter (fun a => archivePeriod a = Some period)
            (map snd (map_to_list (w_articles w)))).

(** The sum of a list of counts. *)
Definition sumZ (counts : list Z) : Z := foldr Z.add 0%Z counts.

(** The archive entry [GetArchive] makes of a month of [year], and the
    archive year it makes of a year of the repository's answer. *)
Definition archiveEntryOf (year : Z) (month : MonthData)
  : ArchiveService.ArchiveEntry :=
  ArchiveService.mkArchiveEntry year (md_month month)
    (ArchiveService.getMonthName (md_month month)) (md_count month).

Definition archiveYearOf (year : YearData) : ArchiveService.ArchiveYear :=
  ArchiveService.mkArchiveYear (yd_year year)
    (map (archiveEntryOf (yd_year year)) (yd_months year))
    (wrap64 (sumZ (map md_count (yd_months year)))).

(** One more article under [period] in the tallyPeriod of the query. *)
Definition tallyPeriod (groups : gmap (Z * Z) Z) (period : Z * Z) : gmap (Z * Z) Z :=
  <[period := (default 0 (groups !! period) + 1)%Z]> groups.

(** A group of the tallyPeriod as a row of the result, and the period of a row. *)
Definition archiveRowOf (g : Z * Z * Z) : gorm.ArchiveRow :=
  let '((y, m), n) := g in gorm.mkArchiveRow y m n.

Definition periodOfRow (r : gorm.ArchiveRow) : Z * Z := (gorm.Year r, gorm.Month r).

(** The month datum [GetArchive] of the repository makes of a row, and the
    step of its loop that files a row under its year. *)
Definition monthDataOf (r : gorm.ArchiveRow) : MonthData :=
  mkMonthData (gorm.Month r) (gorm.Count r).

Definition fileUnderYear (yearMap : gmap Z (list MonthData)) (result : gorm.ArchiveRow)
  : gmap Z (list MonthData) :=
  <[gorm.Year result :=
      default [] (yearMap !! gorm.Year result) ++ [monthDataOf result]]> yearMap.

(** *** Listings and insertions *)

(** An article meets the filters of a listing: every filter that is given
    (a status that is not empty, an identifier that is not zero) holds of
    it.  The tag filter is left aside. *)
Definition meetsFilters (filters : option ArticleListFilters) (a : Article)
  : bool :=
  match filters with
  | None => true
  | Some f =>
      (bool_decide (f_Status f = []) || bool_decide (Status a = f_Status f))
      && ((f_CategoryID f =? 0)
          || bool_decide (CategoryID a = Some (f_CategoryID f)))
      && ((f_AuthorID f =? 0) || (AuthorID a =? f_AuthorID f))
  end.

(** The filter map of [List] without a tag filter. *)
Definition filterMapOf (f : ArticleListFilters) : gmap gostring FilterValue :=
  let filterMap : gmap gostring FilterValue := ∅ in
  let filterMap :=
    if negb (bool_decide (f_Status f = []))
    then <[lit "status" := FStatus (f_Status f)]> filterMap
    else filterMap in
  let filterMap :=
    if 0 <? f_CategoryID f
    then <[lit "category_id" := FUint (f_CategoryID f)]> filterMap
    else filterMap in
  if 0 <? f_AuthorID f
  then <[lit "author_id" := FUint (f_AuthorID f)]> filterMap
  else filterMap.

(** [inserts P p]: [p] reads, and then either returns an error or ends with
    the insertion of an article that satisfies [P], whose outcome it
    returns. *)
Inductive inserts (P : Article -> Prop) : Prog (Result Article) -> Prop :=
| inserts_Err (err : error) : inserts P (Ret (Err err))
| inserts_read {X} (e : Event X) (k : X -> Prog (Result Article)) :
    isArticleWrite e = false -> (forall x, inserts P (k x)) -> inserts P (Call e k)
| inserts_Create (a : Article) (k : Article * option error -> Prog (Result Article)) :
    P a ->
    (forall created, k created = Ret (match created.2 with
                                      | Some err => Err (ErrWrap (lit "failed to create article") err)
                                      | None => Ok created.1
                                      end)) ->
    inserts P (Call (ArticleCreate a) k).

(** The months of an archive, in the order of the answer. *)
Definition monthsOf (archive : ArchiveService.ArchiveResponse)
  : list ArchiveService.ArchiveEntry :=
  concat (ArchiveService.Months <$> ArchiveService.Years archive).

(** [x] is the first of [l] with the highest [key]. *)
Definition firstHighest {A} (key : A -> Z) (x : A) (l : list A) : Prop :=
  exists before after,
    l = before ++ x :: after
    /\ (forall y, In y before -> (key y < key x)%Z)
    /\ (forall y, In y after -> (key y <= key x)%Z).

(** ** Sample data *)

Module sample.

Definition author : User := mkUser 1 (lit "ada").

(** An article of [author] with the given key, status, publication time
    and counters. *)
Definition article (id : N) (status : ArticleStatus)
    (publishedAt : option Time) (views likes comments : N) : Article :=
  mkArticle id (lit "Post " ++ itoa id) (lit "post-" ++ itoa id)
    (lit "Text") [] 1 author None None [] status views likes comments
    publishedAt (gorm.dateUTC 2022 1 1) None.

Definition newYear2024 : Time := gorm.dateUTC 2024 1 1.

(** Keys in ascending order: one of the orders a [range] may take. *)
Definition ascending (keys : list Z) : list Z := merge_sort Z.le keys.

(** Two articles of January 2023 and one of February 2023. *)
Definition oneYear (rangeOrder : list Z -> list Z) : World :=
  gorm.quiet [author] [] []
    [article 1 StatusPublished (Some (gorm.dateUTC 2023 1 5)) 0 0 0;
     article 2 StatusPublished (Some (gorm.dateUTC 2023 1 20)) 0 0 0;
     article 3 StatusPublished (Some (gorm.dateUTC 2023 2 1)) 0 0 0]
    newYear2024 rangeOrder.

(** One article of December 2022 and one of January 2023. *)
Definition twoYears (rangeOrder : list Z -> list Z) : World :=
  gorm.quiet [author] [] []
    [article 1 StatusPublished (Some (gorm.dateUTC 2022 12 31)) 0 0 0;
     article 2 StatusPublished (Some (gorm.dateUTC 2023 1 1)) 0 0 0]
    newYear2024 rangeOrder.

(** A draft, a published and an archived article. *)
Definition draft : Article := article 1 StatusDraft None 0 0 0.
Definition published : Article :=
  article 2 StatusPublished (Some (gorm.dateUTC 2023 6 1)) 10 2 1.
Definition archived : Article :=
  article 3 StatusArchived (Some (gorm.dateUTC 2023 3 1)) 0 0 4.

Definition blog : World :=
  gorm.quiet [author] [] [] [draft; published; archived] newYear2024
    (fun keys => keys).

(** A repository double whose tag table holds the slugs [base],
    [base-1], ..., [base-n]. *)
Definition takenSlug (base : gostring) (n : nat) (s : gostring) : bool :=
  bool_decide (s = base)
  || existsb (fun k => bool_decide (s = numbered base (N.of_nat k))) (seq 1 n).

Definition withTagSlugs (base : gostring) (n : nat) : mocks.Expectations :=
  mocks.mkExpectations (fun n => Z.of_nat n)
    (fun _ => Err ErrRecordNotFound) (fun _ => Err ErrRecordNotFound)
    (fun _ => Err ErrRecordNotFound)
    (fun s => if takenSlug base n s then Ok (mkTag 1 s s)
              else Err ErrRecordNotFound)
    (fun _ => None) (fun _ => None)
    (fun _ => Err ErrRecordNotFound) (fun _ => Err ErrRecordNotFound)
    (fun _ _ _ => Ok ([], 0%Z)) (fun _ => None)
    (fun _ _ _ _ => Ok ([], 0%Z)) (fun _ _ _ _ => Ok ([], 0%Z)) (Ok []).

(** A repository double that lists the given articles and whose clock
    reads [clock n] at the [n]-th call. *)
Definition listing (articles : list Article) (clock : nat -> Time)
  : mocks.Expectations :=
  mocks.mkExpectations clock
    (fun _ => Err ErrRecordNotFound) (fun _ => Err ErrRecordNotFound)
    (fun _ => Err ErrRecordNotFound) (fun _ => Err ErrRecordNotFound)
    (fun _ => None) (fun _ => None)
    (fun _ => Err ErrRecordNotFound) (fun _ => Err ErrRecordNotFound)
    (fun _ _ _ => Ok (articles, Z.of_nat (length articles))) (fun _ => None)
    (fun _ _ _ _ => Ok ([], 0%Z)) (fun _ _ _ _ => Ok ([], 0%Z)) (Ok []).

(** A clock that stands still at [newYear2024], and one that advances one
    second per call. *)
Definition frozenClock (n : nat) : Time := newYear2024.
Definition tickingClock (n : nat) : Time :=
  (newYear2024 + Z.of_nat n * 1000000000)%Z.

(** An article with counters 10, 2, 1 published exactly seven days before
    the given instant. *)
Definition weekOld (t : Time) : Article :=
  article 1 StatusPublished (Some (Time_AddDays t (-7))) 10 2 1.

(** An article with the given counters published exactly [days] days
    before the given instant. *)
Definition publishedBefore (days : Z) (t : Time) (views likes comments : N)
  : Article :=
  article 1 StatusPublished (Some (Time_AddDays t (- days))) views likes comments.

(** Publishing and archiving the draft, withdrawing the published
    article, and creating a published article. *)
Definition operations : list Op :=
  [OpPublish 1 1; OpArchive 1 1; OpUnpublish 2 1;
   OpCreate 1 (Some (ArticleService.mkCreateArticleRequest (lit "Hello World")
                       (lit "text") [] None (Some [lit "go"; lit "Go "])
                       (lit "published")))].

Definition search (query mode : gostring) : SearchService.SearchRequest :=
  SearchService.mkSearchRequest query 0 0 0 [] zeroTime zeroTime mode.

(** A tag repository with fixed article counts, its store the number of
    calls made; a tag without a count is one whose articles cannot be
    read. *)
Definition tagRepo_List (table : list (Tag * option Z)) (w : nat)
  : Result (list Tag) * nat :=
  (Ok (fst <$> table), S w).

Definition tagRepo_GetArticles (table : list (Tag * option Z))
    (tagID : N) (offset limit : Z) (w : nat)
  : Result (list Article * Z) * nat :=
  (match List.find (fun row => Tag_ID row.1 =? tagID) table with
   | Some (_, Some count) => Ok ([], count)
   | Some (_, None) => Err gorm.storeFailure
   | None => Ok ([], 0%Z)
   end, S w).

Definition tagTable : list (Tag * option Z) :=
  [(mkTag 1 (lit "go") (lit "go"), Some 2%Z);
   (mkTag 2 (lit "rocq") (lit "rocq"), Some 5%Z);
   (mkTag 3 (lit "web") (lit "web"), Some 2%Z)].

Definition brokenTagTable : list (Tag * option Z) :=
  tagTable ++ [(mkTag 4 (lit "lost") (lit "lost"), None)].

(** A store whose only article, with slug [post-1], is deleted. *)
Definition deletedPost : Article :=
  mkArticle 1 (lit "Post 1") (lit "post-1") (lit "Text") [] 1 sample.author
    None None [] StatusPublished 0 0 0 (Some (gorm.dateUTC 2023 6 1))
    (gorm.dateUTC 2022 1 1) (Some (gorm.dateUTC 2023 7 1)).

Definition afterDelete : World :=
  gorm.quiet [sample.author] [] [] [deletedPost] sample.newYear2024
    (fun keys => keys).

End sample.

(* ===================================================================== *)
(** * Theorems *)
(* ===================================================================== *)

(** ** Facts about the string helpers *)

Section ListHelpers.
Context {A : Type} (p : A -> bool).

Lemma dropWhile_split (l : list A) :
  exists pre, l = pre ++ dropWhile p l /\ Forall (fun x => p x = true) pre.
Proof.
  induction l as [|x t [pre [E F]]]; simpl.
  - exists []. split; [reflexivity | constructor].
  - destruct (p x) eqn:Px.
    + exists (x :: pre). split; [simpl; congruence | constructor; assumption].
    + exists []. split; [reflexivity | constructor].
Qed.

Lemma dropWhile_head (l : list A) x :
  head (dropWhile p l) = Some x -> p x = false.
Proof.
  induction l as [|y t IH]; simpl; [discriminate|].
  destruct (p y) eqn:Py; [exact IH|].
  simpl. intros [= <-]. exact Py.
Qed.

Lemma dropWhile_all (l : list A) :
  Forall (fun x => p x = true) l -> dropWhile p l = [].
Proof.
  induction 1 as [|x t Px _ IH]; simpl; [reflexivity|].
  rewrite Px. exact IH.
Qed.

Lemma dropWhileEnd_split (l : list A) :
  exists suf, l = dropWhileEnd p l ++ suf.
Proof.
  unfold dropWhileEnd.
  destruct (dropWhile_split (reverse l)) as [pre [E _]].
  exists (reverse pre).
  rewrite <- reverse_app, <- E. symmetry. apply reverse_involutive.
Qed.

Lemma dropWhileEnd_last (l : list A) x :
  last (dropWhileEnd p l) = Some x -> p x = false.
Proof.
  unfold dropWhileEnd. rewrite last_reverse. apply dropWhile_head.
Qed.

Lemma dropWhileEnd_head (l : list A) x :
  head (dropWhileEnd p l) = Some x -> head l = Some x.
Proof.
  destruct (dropWhileEnd_split l) as [suf E]. intros H.
  rewrite E. apply head_Some in H as [l' ->]. reflexivity.
Qed.

(** Trimming at both ends leaves a contiguous piece of the list. *)
Lemma trim_both_split (l : list A) :
  exists pre suf, l = pre ++ dropWhileEnd p (dropWhile p l) ++ suf.
Proof.
  destruct (dropWhile_split l) as [pre [E _]].
  destruct (dropWhileEnd_split (dropWhile p l)) as [suf E'].
  exists pre, suf. rewrite <- E'. exact E.
Qed.

End ListHelpers.

(** ** The slug generator *)

Module SlugFacts.
Import utils.

Lemma hyphen_not_alnum : isSlugAlnum hyphen = false.
Proof. reflexivity. Qed.

Lemma inCutset_hyphen r : strings.inCutset (lit "-") r = (r =? hyphen).
Proof. unfold strings.inCutset, rune_eqb. simpl. apply orb_false_r. Qed.

Lemma replaceRuns_chars b s : Forall (fun r => slugChar r = true) (replaceRuns b s).
Proof.
  revert b. induction s as [|r t IH]; intros b; simpl; [constructor|].
  destruct (isSlugAlnum r) eqn:E.
  - constructor; [unfold slugChar; rewrite E; reflexivity | apply IH].
  - destruct b; [apply IH|]. constructor; [reflexivity | apply IH].
Qed.

Lemma replaceRuns_head_in_run s : head (replaceRuns true s) <> Some hyphen.
Proof.
  induction s as [|r t IH]; simpl; [discriminate|].
  destruct (isSlugAlnum r) eqn:E; [|exact IH].
  simpl. intros [= ->]. rewrite hyphen_not_alnum in E. discriminate.
Qed.

Lemma replaceRuns_noDouble b s : noDoubleHyphen (replaceRuns b s).
Proof.
  revert b. induction s as [|r t IH]; intros b; simpl; [exact I|].
  destruct (isSlugAlnum r) eqn:E.
  - simpl. split; [|apply IH].
    intros ->. rewrite hyphen_not_alnum in E. discriminate.
  - destruct b; [apply IH|]. simpl. split; [|apply IH].
    intros _. apply replaceRuns_head_in_run.
Qed.

Lemma noDoubleHyphen_app_r l1 l2 : noDoubleHyphen (l1 ++ l2) -> noDoubleHyphen l2.
Proof. induction l1 as [|a t IH]; simpl; [tauto|]. intros [_ H]. auto. Qed.

Lemma noDoubleHyphen_app_l l1 l2 : noDoubleHyphen (l1 ++ l2) -> noDoubleHyphen l1.
Proof.
  induction l1 as [|a t IH]; simpl; [tauto|]. intros [H1 H2].
  split; [|auto]. intros Ha Hh. apply (H1 Ha).
  destruct t; [discriminate|exact Hh].
Qed.

(** In index form: a hyphen is never followed by a hyphen. *)
Lemma noDoubleHyphen_lookup s i :
  noDoubleHyphen s -> s !! i = Some hyphen -> s !! (S i) <> Some hyphen.
Proof.
  revert i. induction s as [|a t IH]; intros i H Hi; [discriminate|].
  destruct H as [H1 H2]. destruct i as [|i]; simpl in *.
  - injection Hi as ->. rewrite <- head_lookup. auto.
  - apply IH; assumption.
Qed.

Lemma ascii_len (s : gostring) :
  Forall (fun r => slugChar r = true) s -> len s = N.of_nat (length s).
Proof.
  induction 1 as [|r t Hr _ IH]; [reflexivity|].
  unfold len in *. simpl fold_right. rewrite IH.
  assert (utf8_RuneLen r = 1) as ->; [|simpl length; lia].
  unfold utf8_RuneLen, slugChar, isSlugAlnum, in_range, hyphen in *.
  destruct (N.ltb_spec r 128); [reflexivity|].
  apply orb_true_iff in Hr as [Hr| Hr];
    [apply orb_true_iff in Hr as [Hr|Hr]; apply andb_true_iff in Hr as [_ Hr];
     apply N.leb_le in Hr | apply N.eqb_eq in Hr]; lia.
Qed.

Lemma HasSuffix_hyphen (s : gostring) :
  strings.HasSuffix s (lit "-") = true <-> last s = Some hyphen.
Proof.
  unfold strings.HasSuffix. rewrite <- head_reverse.
  change (reverse (lit "-")) with [hyphen].
  destruct (reverse s) as [|c cs]; [split; discriminate|].
  assert (strings.HasPrefix cs [] = true) as E by (destruct cs; reflexivity).
  cbn [strings.HasPrefix head]. rewrite E, andb_true_r.
  unfold rune_eqb. rewrite N.eqb_eq.
  split; [intros <-; reflexivity | intros [= ->]; reflexivity].
Qed.

Section WithTable.
Context `{CaseTable}.

Lemma trimmed_piece text :
  exists pre suf,
    replaceRuns false (strings.ToLower text) = pre ++ trimmed text ++ suf.
Proof. apply trim_both_split. Qed.

Lemma trimmed_chars text : Forall (fun r => slugChar r = true) (trimmed text).
Proof.
  destruct (trimmed_piece text) as (pre & suf & E).
  pose proof (replaceRuns_chars false (strings.ToLower text)) as F.
  rewrite E in F. apply Forall_app in F as [_ F].
  apply Forall_app in F as [F _]. exact F.
Qed.

Lemma trimmed_noDouble text : noDoubleHyphen (trimmed text).
Proof.
  destruct (trimmed_piece text) as (pre & suf & E).
  pose proof (replaceRuns_noDouble false (strings.ToLower text)) as F.
  rewrite E in F. apply noDoubleHyphen_app_r in F.
  apply noDoubleHyphen_app_l in F. exact F.
Qed.

Lemma trimmed_head text : head (trimmed text) <> Some hyphen.
Proof.
  intros Hh. apply dropWhileEnd_head, dropWhile_head in Hh.
  rewrite inCutset_hyphen in Hh. discriminate.
Qed.

Lemma trimmed_last text : last (trimmed text) <> Some hyphen.
Proof.
  intros Hh. apply dropWhileEnd_last in Hh.
  rewrite inCutset_hyphen in Hh. discriminate.
Qed.

Lemma GenerateSlug_unfold text :
  GenerateSlug text =
    if (100 <? len (trimmed text))
    then strings.TrimSuffix (take 100 (trimmed text)) (lit "-")
    else trimmed text.
Proof. reflexivity. Qed.

Lemma toLowerRune_space r :
  unicode_IsSpace r = true -> isSlugAlnum (strings.toLowerRune r) = false.
Proof.
  intros Hs. unfold strings.toLowerRune.
  destruct (N.leb_spec r 127) as [Hle|Hgt].
  - assert (in_range 65 90 r = false) as ->.
    { unfold unicode_IsSpace, in_range in *.
      repeat (apply orb_true_iff in Hs as [Hs|Hs]);
        repeat match goal with
               | H : _ && _ = true |- _ => apply andb_true_iff in H as [? ?]
               | H : (_ <=? _) = true |- _ => apply N.leb_le in H
               | H : (_ =? _) = true |- _ => apply N.eqb_eq in H
               end;
        apply andb_false_iff; rewrite !N.leb_gt; lia. }
    unfold unicode_IsSpace, isSlugAlnum, in_range in *.
    repeat (apply orb_true_iff in Hs as [Hs|Hs]);
      repeat match goal with
             | H : _ && _ = true |- _ => apply andb_true_iff in H as [? ?]
             | H : (_ <=? _) = true |- _ => apply N.leb_le in H
             | H : (_ =? _) = true |- _ => apply N.eqb_eq in H
             end;
      apply orb_false_iff; split; apply andb_false_iff; rewrite !N.leb_gt; lia.
  - rewrite (lowerSpecial_space r Hs).
    unfold isSlugAlnum, in_range.
    apply orb_false_iff; split; apply andb_false_iff; rewrite !N.leb_gt; lia.
Qed.

Lemma replaceRuns_no_alnum b s :
  Forall (fun r => isSlugAlnum r = false) s ->
  Forall (fun r => r = hyphen) (replaceRuns b s).
Proof.
  intros F. revert b. induction F as [|r t Hr _ IH]; intros b; simpl;
    [constructor|].
  rewrite Hr. destruct b; [apply IH|]. constructor; [reflexivity|apply IH].
Qed.

Lemma trimmed_space text :
  Forall (fun r => unicode_IsSpace r = true) text -> trimmed text = [].
Proof.
  intros F. unfold trimmed, strings.Trim.
  rewrite dropWhile_all; [reflexivity|].
  eapply Forall_impl; [apply replaceRuns_no_alnum|].
  - unfold strings.ToLower. apply Forall_map.
    eapply Forall_impl; [exact F|]. intros r Hr. simpl.
    apply toLowerRune_space; assumption.
  - intros r ->. reflexivity.
Qed.

End WithTable.

End SlugFacts.

(** C2.  For every input text, [GenerateSlug] returns a string over
    [[a-z0-9-]] that neither starts nor ends with a hyphen and is at most 100
    bytes long; being a function it is pure and total, and on empty or
    white-space-only input it returns the empty string. *)
Theorem GenerateSlug_wellformed `{CaseTable} (text : gostring) :
  Forall (fun r => slugChar r = true) (utils.GenerateSlug text)
  /\ head (utils.GenerateSlug text) <> Some hyphen
  /\ last (utils.GenerateSlug text) <> Some hyphen
  /\ len (utils.GenerateSlug text) <= 100
  /\ (Forall (fun r => unicode_IsSpace r = true) text ->
      utils.GenerateSlug text = []).
Proof.
  pose proof (SlugFacts.trimmed_chars text) as Hc.
  pose proof (SlugFacts.trimmed_noDouble text) as Hn.
  pose proof (SlugFacts.trimmed_head text) as Hh.
  pose proof (SlugFacts.trimmed_last text) as Hl.
  pose proof (SlugFacts.trimmed_space text) as Hs.
  rewrite SlugFacts.GenerateSlug_unfold.
  set (t := trimmed text) in *.
  rewrite (SlugFacts.ascii_len t Hc).
  destruct (N.ltb_spec 100 (N.of_nat (length t))) as [Hlong|Hshort].
  - assert (length t > 100)%nat as Hlen by lia.
    assert (length (take 100 t) = 100%nat) as Hu by (rewrite length_take; lia).
    unfold strings.TrimSuffix.
    destruct (strings.HasSuffix (take 100 t) (lit "-")) eqn:Esuf.
    + apply SlugFacts.HasSuffix_hyphen in Esuf.
      rewrite last_lookup, Hu, lookup_take_lt in Esuf by lia. simpl in Esuf.
      rewrite Hu. change (length (lit "-")) with 1%nat.
      rewrite take_take. change (Init.Nat.min (100 - 1) 100) with 99%nat.
      assert (Forall (fun r => slugChar r = true) (take 99 t)) as Hc'
        by (apply Forall_take; exact Hc).
      repeat split.
      * exact Hc'.
      * rewrite head_lookup, lookup_take_lt, <- head_lookup by lia. exact Hh.
      * rewrite last_lookup, length_take, lookup_take_lt by lia.
        replace (Init.Nat.pred (Init.Nat.min 99 (length t))) with 98%nat by lia.
        intros H98. exact (SlugFacts.noDoubleHyphen_lookup t 98 Hn H98 Esuf).
      * rewrite (SlugFacts.ascii_len _ Hc'), length_take. lia.
      * intros F. rewrite (Hs F) in Hlen. simpl in Hlen. lia.
    + assert (Forall (fun r => slugChar r = true) (take 100 t)) as Hc'
        by (apply Forall_take; exact Hc).
      repeat split.
      * exact Hc'.
      * rewrite head_lookup, lookup_take_lt, <- head_lookup by lia. exact Hh.
      * intros Hlast. apply SlugFacts.HasSuffix_hyphen in Hlast. congruence.
      * rewrite (SlugFacts.ascii_len _ Hc'), Hu. lia.
      * intros F. rewrite (Hs F) in Hlen. simpl in Hlen. lia.
  - repeat split; try assumption.
    rewrite (SlugFacts.ascii_len t Hc). exact Hshort.
Qed.

Example GenerateSlug_hello :
  @utils.GenerateSlug asciiCaseTable (lit "  Hello,  World! ") = lit "hello-world".
Proof. reflexivity. Qed.

(** ** Running programs *)

Lemma run_bind {W A B} (h : Handler W) (m : Prog A) (f : A -> Prog B) (w : W) :
  run h (bind m f) w =
    let '(a, w1, c1) := run h m w in
    let '(b, w2, c2) := run h (f a) w1 in
    (b, w2, c1 ++ c2).
Proof.
  revert w. induction m as [a | X e k IH]; intros w; simpl.
  - destruct (run h (f a) w) as [[b w2] c2]. reflexivity.
  - destruct (h X e w) as [x w1]. rewrite IH.
    destruct (run h (k x) w1) as [[a w2] c1].
    destruct (run h (f a) w2) as [[b w3] c2]. reflexivity.
Qed.

Lemma run_call {W X} (h : Handler W) (e : Event X) (w : W) :
  run h (call e) w = ((h _ e w).1, (h _ e w).2, [Called e]).
Proof. simpl. destruct (h X e w). reflexivity. Qed.

Lemma run_call_bind {W X B} (h : Handler W) (e : Event X) (f : X -> Prog B) (w : W) :
  run h (bind (call e) f) w =
    let '(b, w2, c2) := run h (f (h _ e w).1) (h _ e w).2 in
    (b, w2, Called e :: c2).
Proof.
  rewrite run_bind, run_call.
  destruct (run h (f (h X e w).1) (h X e w).2) as [[b w2] c2]. reflexivity.
Qed.

(** ** Repeating a status change *)

Lemma changeStatus_same_status {W} (h : Handler W) (w w1 : W)
    (id authorID : N) (status : ArticleStatus) (article : Article) :
  h _ (ArticleGetByID id) w = (Ok article, w1) ->
  AuthorID article = authorID ->
  Status article = status ->
  run h (ArticleService.changeStatus id authorID status) w
  = (Ok article, w1, [Called (ArticleGetByID id)]).
Proof.
  intros Hget Hauthor Hstatus. unfold ArticleService.changeStatus.
  rewrite run_call_bind, Hget. simpl.
  rewrite Hauthor, N.eqb_refl. simpl.
  destruct (decide (Status article = status)) as [_|Hne]; [reflexivity|].
  contradiction.
Qed.

Lemma changeStatus_same_status_reads {W} (h : Handler W) (w w1 : W)
    (id caller : N) (status : ArticleStatus) (article : Article) :
  h _ (ArticleGetByID id) w = (Ok article, w1) ->
  Status article = status ->
  calls_of h (ArticleService.changeStatus id caller status) w
  = [Called (ArticleGetByID id)]
  /\ state_of h (ArticleService.changeStatus id caller status) w = w1.
Proof.
  intros Hget Hstatus. unfold calls_of, state_of, ArticleService.changeStatus.
  rewrite run_call_bind, Hget. simpl.
  destruct (AuthorID article =? caller); simpl; [|split; reflexivity].
  destruct (decide (Status article = status)) as [_|Hne]; [split; reflexivity|].
  contradiction.
Qed.

(** C10.  When the stored article already has the requested status,
    [changeStatus] - and with it [Publish], [Unpublish] and [Archive] -
    returns to its author the article as it was read and makes no call
    besides that read: no repository update is invoked, so repeating a
    status change writes nothing.  Whoever the caller is, the read is the
    only call and the store is left as the read left it.  This holds over
    every implementation of the repositories. *)
Theorem status_change_idempotent {W} (h : Handler W) (w w1 : W)
    (id : N) (article : Article) :
  h _ (ArticleGetByID id) w = (Ok article, w1) ->
  run h (ArticleService.changeStatus id (AuthorID article) (Status article)) w
  = (Ok article, w1, [Called (ArticleGetByID id)])
  /\ (Status article = StatusPublished ->
      run h (ArticleService.Publish id (AuthorID article)) w
      = (Ok article, w1, [Called (ArticleGetByID id)]))
  /\ (Status article = StatusDraft ->
      run h (ArticleService.Unpublish id (AuthorID article)) w
      = (Ok article, w1, [Called (ArticleGetByID id)]))
  /\ (Status article = StatusArchived ->
      run h (ArticleService.Archive id (AuthorID article)) w
      = (Ok article, w1, [Called (ArticleGetByID id)]))
  /\ (forall caller,
        calls_of h (ArticleService.changeStatus id caller (Status article)) w
        = [Called (ArticleGetByID id)]
        /\ state_of h (ArticleService.changeStatus id caller (Status article)) w
           = w1).
Proof.
  intros Hget.
  repeat split; intros;
    solve [ eapply changeStatus_same_status; eauto
          | eapply changeStatus_same_status_reads; eauto ].
Qed.

(** ** Query sanitization *)

Module SearchFacts.
Import SearchService.

Lemma replaceClassRuns_runes (class : rune -> bool) (inRun : bool) (s : gostring) :
  Forall (fun r => r = space \/ (class r = false /\ In r s))
    (replaceClassRuns class inRun s).
Proof.
  revert inRun. induction s as [|r t IH]; intros inRun; simpl; [constructor|].
  assert (forall b, Forall (fun r0 => r0 = space \/ class r0 = false /\ (r = r0 \/ In r0 t))
                      (replaceClassRuns class b t)) as IH'.
  { intros b. eapply Forall_impl; [apply IH|]. simpl. intros x [->|[? ?]]; auto. }
  destruct (class r) eqn:Ec.
  - destruct inRun; [apply IH'|]. constructor; [left; reflexivity | apply IH'].
  - constructor; [right; auto | apply IH'].
Qed.

Lemma perlSpace_IsSpace r : perlSpace r = true -> unicode_IsSpace r = true.
Proof.
  unfold perlSpace, unicode_IsSpace, in_range. intros Hs.
  repeat (apply orb_true_iff in Hs as [Hs|Hs]); apply N.eqb_eq in Hs; subst;
    reflexivity.
Qed.

Lemma Forall_dropWhile {A} (P : A -> Prop) (p : A -> bool) (l : list A) :
  Forall P l -> Forall P (dropWhile p l).
Proof.
  intros F. destruct (dropWhile_split p l) as [pre [E _]].
  rewrite E in F. apply Forall_app in F as [_ F]. exact F.
Qed.

Lemma Forall_TrimSpace (P : rune -> Prop) (s : gostring) :
  Forall P s -> Forall P (strings.TrimSpace s).
Proof.
  intros F. unfold strings.TrimSpace.
  destruct (trim_both_split unicode_IsSpace s) as (pre & suf & E).
  rewrite E in F. apply Forall_app in F as [_ F].
  apply Forall_app in F as [F _]. exact F.
Qed.

Lemma TrimSpace_all_space (s : gostring) :
  Forall (fun r => unicode_IsSpace r = true) s -> strings.TrimSpace s = [].
Proof.
  intros F. unfold strings.TrimSpace. rewrite dropWhile_all; [reflexivity|exact F].
Qed.

(** A query without any word character or kept punctuation mark is
    sanitized to the empty string. *)
Lemma sanitizeQuery_empty (query : gostring) :
  Forall (fun r => perlWord r = false
                   /\ strings.inCutset keptPunctuation r = false) query ->
  sanitizeQuery query = [].
Proof.
  intros F. unfold sanitizeQuery. apply TrimSpace_all_space.
  apply List.Forall_forall. intros r Hr.
  pose proof (replaceClassRuns_runes (fun r => negb (allowed r)) false
                (replaceClassRuns perlSpace false (strings.TrimSpace query))) as F3.
  rewrite List.Forall_forall in F3. destruct (F3 r Hr) as [->|[Hallowed Hin]];
    [reflexivity|].
  apply negb_false_iff in Hallowed.
  pose proof (replaceClassRuns_runes perlSpace false (strings.TrimSpace query)) as F2.
  rewrite List.Forall_forall in F2. destruct (F2 r Hin) as [->|[Hns Hin1]];
    [reflexivity|].
  apply Forall_TrimSpace in F. rewrite List.Forall_forall in F.
  destruct (F r Hin1) as [Hw Hp].
  unfold allowed in Hallowed. rewrite Hw, Hp, Hns in Hallowed. discriminate.
Qed.

End SearchFacts.

(** C7, as amended.  A query made only of characters that the sanitizer
    does not keep - no ASCII letter, digit or underscore and none of the
    kept punctuation marks - is sanitized to the empty string, and [Search]
    answers with a validation error after reading the clock only: the
    text-search engine is not called. *)
Theorem Search_rejects_unsearchable `{CaseTable} {W} (h : Handler W) (w : W)
    (req : SearchService.SearchRequest) (page limit : Z) :
  Forall (fun r => SearchService.perlWord r = false
                   /\ strings.inCutset SearchService.keptPunctuation r = false)
    (SearchService.Query req) ->
  SearchService.sanitizeQuery (SearchService.Query req) = []
  /\ (exists err,
        result_of h (SearchService.Search (Some req) page limit) w = Err err
        /\ (SearchService.validateSearchRequest (Some req) = Some err
            \/ err = errors_New "search query cannot be empty after sanitization"))
  /\ calls_of h (SearchService.Search (Some req) page limit) w = [Called TimeNow].
Proof.
  intros F. pose proof (SearchFacts.sanitizeQuery_empty _ F) as Hs.
  split; [exact Hs|].
  unfold result_of, calls_of, SearchService.Search.
  rewrite run_call_bind.
  destruct (SearchService.validateSearchRequest (Some req)) as [err|] eqn:Ev.
  - simpl. split; [exists err; auto | reflexivity].
  - rewrite Hs. simpl. split; [eexists; split; [reflexivity | right; reflexivity]
                              | reflexivity].
Qed.

(** C8: the code at the failing input.  The sanitized query [foo-bar]
    submitted in boolean mode reaches the full-text engine unchanged: the
    hyphen, one of the operator characters, sits inside the token, and
    [strings.Trim] removes operator characters only at the ends of a
    token. *)
Theorem prepareBooleanQuery_keeps_inner_operators :
  let req := SearchService.mkSearchRequest (lit "foo-bar") 0 0 0 [] zeroTime
               zeroTime (lit "boolean") in
  SearchService.sanitizeQuery (lit "foo-bar") = lit "foo-bar"
  /\ SearchService.prepareBooleanQuery (lit "foo-bar") = lit "foo-bar"
  /\ strings.inCutset SearchService.booleanOperators hyphen = true
  /\ In hyphen (SearchService.prepareBooleanQuery (lit "foo-bar"))
  /\ calls_of (mocks.handle mocks.blank)
       (@SearchService.Search asciiCaseTable (Some req) 1 10) 0%nat
     = [Called TimeNow;
        Called (ArticleSearchWithBoolean (lit "foo-bar") 0 10
                  (mkSearchFilters [] 0 0 0 zeroTime zeroTime));
        Called TimeNow].
Proof.
  repeat split; try reflexivity.
  vm_compute. tauto.
Qed.

(** ** Arithmetic on [float64] *)

Module Float64Facts.
Local Open Scope Z_scope.

Lemma digits2_size (p : positive) : digits2_pos p = Pos.size p.
Proof. induction p; simpl; congruence. Qed.

Lemma size_log2 (p : positive) : Zpos (Pos.size p) = Z.log2 (Zpos p) + 1.
Proof.
  symmetry. apply Z.add_move_r. apply Z.log2_unique; [lia|].
  replace (Z.succ (Z.pos (Pos.size p) - 1)) with (Z.pos (Pos.size p)) by lia.
  assert (Z.pos p < 2 ^ Z.pos (Pos.size p)) as Hgt.
  { change 2 with (Z.pos 2). rewrite <- Pos2Z.inj_pow.
    apply Pos2Z.pos_lt_pos, Pos.size_gt. }
  assert (2 ^ Z.pos (Pos.size p) <= Z.pos p~0) as Hle.
  { change 2 with (Z.pos 2). rewrite <- Pos2Z.inj_pow.
    apply Pos2Z.pos_le_pos, Pos.size_le. }
  assert (2 ^ Z.pos (Pos.size p) = 2 * 2 ^ (Z.pos (Pos.size p) - 1)) as E2.
  { rewrite <- Z.pow_succ_r by lia. f_equal. lia. }
  split; lia.
Qed.

Lemma digits_log2 (p : positive) : Zpos (digits2_pos p) = Z.log2 (Zpos p) + 1.
Proof. rewrite digits2_size. apply size_log2. Qed.

Lemma iter_pos_nat {A} (f : A -> A) (p : positive) :
  forall x, SpecFloat.iter_pos f p x = Nat.iter (Pos.to_nat p) f x.
Proof.
  induction p as [p IH|p IH|]; intros x; cbn [SpecFloat.iter_pos].
  - rewrite !IH, Pos2Nat.inj_xI.
    replace (S (2 * Pos.to_nat p)) with (Pos.to_nat p + Pos.to_nat p + 1)%nat by lia.
    rewrite !Nat.iter_add. reflexivity.
  - rewrite !IH, Pos2Nat.inj_xO.
    replace (2 * Pos.to_nat p)%nat with (Pos.to_nat p + Pos.to_nat p)%nat by lia.
    rewrite Nat.iter_add. reflexivity.
  - reflexivity.
Qed.

Lemma shr_exact (k : nat) :
  forall m, 0 <= m ->
    Nat.iter k shr_1 (Build_shr_record (m * 2 ^ Z.of_nat k) false false)
    = Build_shr_record m false false.
Proof.
  induction k as [|k IH]; intros m Hm.
  - simpl. rewrite Z.mul_1_r. reflexivity.
  - rewrite Nat2Z.inj_succ, Z.pow_succ_r by lia.
    replace (m * (2 * 2 ^ Z.of_nat k)) with (2 * m * 2 ^ Z.of_nat k) by ring.
    simpl. rewrite IH by lia.
    destruct m as [|p|p]; [reflexivity | reflexivity | lia].
Qed.

Lemma shr_nonneg (k : nat) (mrs : shr_record) :
  0 <= shr_m mrs -> 0 <= shr_m (Nat.iter k shr_1 mrs).
Proof.
  intros Hm. induction k as [|k IH]; [exact Hm|].
  simpl. destruct (Nat.iter k shr_1 mrs) as [m r s]. simpl in *.
  destruct m as [|[p|p|]|p]; simpl; lia.
Qed.

Lemma fexp64 (z : Z) : fexp prec64 emax64 z = Z.max (z - 53) (-1074).
Proof. reflexivity. Qed.

(** The canonical mantissa of an integer of at most 53 bits, or [2 ^ 53]. *)
Lemma canon_mantissa (n : Z) :
  0 < n <= 2 ^ 53 ->
  let t := Z.log2 n + 1 - 53 in
  let m := Z.shiftl n (- t) in
  0 < m /\ Z.log2 m = 52 /\ -52 <= t <= 1
  /\ (forall e, e <= t -> e <= 0 -> n * 2 ^ (- e) = m * 2 ^ (t - e)).
Proof.
  intros Hn t m.
  assert (0 <= Z.log2 n) as Hlog by apply Z.log2_nonneg.
  destruct (Z.eq_dec n (2 ^ 53)) as [->|Hne].
  - change (Z.log2 (2 ^ 53)) with 53 in *. subst t m. cbn [Z.add Z.sub Z.opp Z.pos_sub Z.succ_double Z.pred_double Pos.pred_double].
    change (Z.shiftl (2 ^ 53) (- (53 + 1 - 53))) with (2 ^ 52).
    change (Z.log2 (2 ^ 52)) with 52.
    split; [lia|]. split; [reflexivity|]. split; [lia|].
    intros e He He0.
    replace (2 ^ 53) with (2 ^ 52 * 2 ^ 1) by reflexivity.
    rewrite <- Z.mul_assoc, <- Z.pow_add_r by lia. do 2 f_equal; lia.
  - assert (Z.log2 n < 53) as Hlt by (apply Z.log2_lt_pow2; lia).
    assert (t <= 0) as Ht by (subst t; lia).
    assert (m = n * 2 ^ (- t)) as Em by (subst m; apply Z.shiftl_mul_pow2; lia).
    split; [rewrite Em; apply Z.mul_pos_pos; [lia | apply Z.pow_pos_nonneg; lia]|].
    split; [rewrite Em, Z.log2_mul_pow2 by lia; subst t; lia|].
    split; [subst t; lia|].
    intros e He He0. rewrite Em, <- Z.mul_assoc, <- Z.pow_add_r by lia.
    do 2 f_equal; lia.
Qed.

Lemma shr_shift (M : positive) (m e t : Z) :
  0 < m -> e <= t -> Zpos M = m * 2 ^ (t - e) ->
  shr (Build_shr_record (Zpos M) false false) e (t - e)
  = (Build_shr_record m false false, t).
Proof.
  intros Hm He EM. unfold shr.
  destruct (t - e) as [|p|p] eqn:Ek; [| |lia].
  - rewrite Z.pow_0_r, Z.mul_1_r in EM. rewrite EM. do 2 f_equal. lia.
  - rewrite iter_pos_nat. rewrite EM, <- (positive_nat_Z p), shr_exact by lia.
    f_equal. lia.
Qed.

(** Rounding a mantissa that stands for [n * 2 ^ c], with [n] an integer
    of at most 53 bits, or [2 ^ 53], is exact. *)
Lemma round_aux_scaled (s : bool) (M : positive) (e n c : Z) :
  0 < n <= 2 ^ 53 -> e <= c -> Zpos M = n * 2 ^ (c - e) ->
  e <= Z.log2 n + 1 - 53 + c ->
  -1074 <= Z.log2 n + 1 - 53 + c <= 971 ->
  binary_round_aux prec64 emax64 s (Zpos M) e loc_Exact = canonScaled s n c.
Proof.
  intros Hn He0 EM He Hc.
  destruct (canon_mantissa n Hn) as (Hm & Hlog & Ht & Hshift).
  set (t := Z.log2 n + 1 - 53) in *. set (m := Z.shiftl n (- t)) in *.
  assert (Zpos (digits2_pos M) + e = Z.log2 n + 1 + c) as Hd.
  { rewrite digits_log2, EM, Z.log2_mul_pow2 by lia. lia. }
  unfold binary_round_aux, shr_fexp. cbn [Zdigits2 shr_record_of_loc].
  rewrite Hd, fexp64.
  replace (Z.max (Z.log2 n + 1 + c - 53) (-1074)) with (t + c) by (subst t; lia).
  rewrite (shr_shift M m e (t + c) Hm He).
  2:{ rewrite EM. replace (c - e) with (- (e - c)) by lia.
      rewrite (Hshift (e - c)) by lia. do 2 f_equal; lia. }
  cbn [shr_m loc_of_shr_record round_nearest_even].
  destruct m as [|q|q] eqn:Eq; [lia| |lia].
  cbn [Zdigits2 shr_record_of_loc]. rewrite digits_log2, Hlog, fexp64.
  replace (Z.max (52 + 1 + (t + c) - 53) (-1074) - (t + c)) with 0 by lia.
  cbn [shr shr_m].
  assert ((t + c <=? emax64 - prec64) = true) as ->
    by (apply Z.leb_le; unfold emax64, prec64; lia).
  unfold canonScaled. fold t. fold m. rewrite Eq. reflexivity.
Qed.

Lemma round_aux_int (s : bool) (M : positive) (e n : Z) :
  0 < n <= 2 ^ 53 -> e <= 0 -> Zpos M = n * 2 ^ (- e) ->
  e <= Z.log2 n + 1 - 53 ->
  binary_round_aux prec64 emax64 s (Zpos M) e loc_Exact = canon s n.
Proof.
  intros Hn He0 EM He.
  assert (0 <= Z.log2 n) as Hlog by apply Z.log2_nonneg.
  assert (Z.log2 n <= 53) as Hle.
  { destruct (Z.eq_dec n (2 ^ 53)) as [->|Hne]; [reflexivity|].
    assert (Z.log2 n < 53) by (apply Z.log2_lt_pow2; lia). lia. }
  apply round_aux_scaled; [exact Hn | exact He0 | rewrite Z.sub_0_l; exact EM | lia | lia].
Qed.

Lemma iter_xO (m d : positive) : Zpos (Pos.iter xO m d) = Zpos m * 2 ^ Zpos d.
Proof.
  induction d as [|d IH] using Pos.peano_ind.
  - simpl. lia.
  - rewrite Pos.iter_succ, Pos2Z.inj_xO, IH, Pos2Z.inj_succ, Z.pow_succ_r by lia.
    ring.
Qed.

Lemma shl_align_spec (m : positive) (e e' : Z) :
  let '(m', e'') := shl_align m e e' in
  e'' = Z.min e e' /\ Zpos m' = Zpos m * 2 ^ (e - e'').
Proof.
  unfold shl_align. destruct (e' - e) as [|p|p] eqn:E.
  - split; [lia|]. replace (e - e) with 0 by lia. lia.
  - split; [lia|]. replace (e - e) with 0 by lia. lia.
  - split; [lia|]. rewrite iter_xO. do 2 f_equal. lia.
Qed.

Lemma round_int (s : bool) (M : positive) (e n : Z) :
  0 < n <= 2 ^ 53 -> e <= 0 -> Zpos M = n * 2 ^ (- e) ->
  binary_round prec64 emax64 s M e = canon s n.
Proof.
  intros Hn He0 EM.
  assert (0 <= Z.log2 n) as Hlog by apply Z.log2_nonneg.
  assert (Zpos (digits2_pos M) + e = Z.log2 n + 1) as Hd.
  { rewrite digits_log2, EM, Z.log2_mul_pow2 by lia. lia. }
  unfold binary_round. rewrite Hd, fexp64.
  replace (Z.max (Z.log2 n + 1 - 53) (-1074)) with (Z.log2 n + 1 - 53) by lia.
  pose proof (shl_align_spec M e (Z.log2 n + 1 - 53)) as Hal.
  destruct (shl_align M e (Z.log2 n + 1 - 53)) as [M' e'].
  destruct Hal as [-> EM'].
  apply round_aux_int; [exact Hn | lia | | lia].
  rewrite EM', EM, <- Z.mul_assoc, <- Z.pow_add_r by lia. do 2 f_equal; lia.
Qed.

Lemma of_int_0 : float64_of_int 0 = S754_zero false.
Proof. reflexivity. Qed.

Lemma of_int_canon (n : Z) : 0 < n <= 2 ^ 53 -> float64_of_int n = canon false n.
Proof.
  intros Hn. destruct n as [|p|p]; [lia| |lia].
  unfold float64_of_int, binary_normalize.
  apply round_int; [exact Hn | lia | simpl; lia].
Qed.

(** The mantissa and the exponent of [canon], for an integer below
    [2 ^ 53]. *)
Lemma canon_below (s : bool) (n : Z) :
  0 < n < 2 ^ 53 ->
  exists m t, canon s n = S754_finite s m t
    /\ t = Z.log2 n - 52 /\ -52 <= t <= 0 /\ Zpos m = n * 2 ^ (- t)
    /\ Z.log2 (Zpos m) = 52.
Proof.
  intros Hn. unfold canon, canonScaled.
  assert (0 <= Z.log2 n) as Hlog by apply Z.log2_nonneg.
  assert (Z.log2 n < 53) as Hlt by (apply Z.log2_lt_pow2; lia).
  assert (Z.pos (Z.to_pos (Z.shiftl n (- (Z.log2 n + 1 - 53))))
          = n * 2 ^ (- (Z.log2 n - 52))) as Em.
  { rewrite Z.shiftl_mul_pow2 by lia. rewrite Z2Pos.id.
    - do 2 f_equal; lia.
    - apply Z.mul_pos_pos; [lia | apply Z.pow_pos_nonneg; lia]. }
  eexists _, _. split; [reflexivity|]. split; [lia|]. split; [lia|].
  split; [rewrite Em; do 2 f_equal; lia|].
  rewrite Em, Z.log2_mul_pow2 by lia. lia.
Qed.

(** Sums of non-negative integers up to [2 ^ 53] are exact. *)
Lemma fadd_int (a b : Z) :
  0 <= a -> 0 <= b -> a + b <= 2 ^ 53 ->
  fadd (float64_of_int a) (float64_of_int b) = float64_of_int (a + b).
Proof.
  intros Ha Hb Hab.
  destruct (Z.eq_dec a 0) as [->|Ha0]; destruct (Z.eq_dec b 0) as [->|Hb0];
    [reflexivity
    |rewrite Z.add_0_l, (of_int_canon b) by lia; reflexivity
    |rewrite Z.add_0_r, (of_int_canon a) by lia; reflexivity|].
  rewrite !of_int_canon by lia.
  destruct (canon_below false a) as (ma & ta & -> & _ & Hta & Ema & _); [lia|].
  destruct (canon_below false b) as (mb & tb & -> & _ & Htb & Emb & _); [lia|].
  unfold fadd, SFadd.
  pose proof (shl_align_spec ma ta (Z.min ta tb)) as Hal.
  pose proof (shl_align_spec mb tb (Z.min ta tb)) as Hbl.
  destruct (shl_align ma ta (Z.min ta tb)) as [ma' ea'].
  destruct (shl_align mb tb (Z.min ta tb)) as [mb' eb'].
  destruct Hal as [-> Ema']. destruct Hbl as [-> Emb'].
  cbn [fst cond_Zopp Z.add binary_normalize].
  apply round_int; [lia | lia |].
  rewrite Pos2Z.inj_add, Ema', Emb', Ema, Emb.
  rewrite <- !Z.mul_assoc, <- !Z.pow_add_r by lia.
  replace (- ta + (ta - Z.min ta (Z.min ta tb))) with (- Z.min ta tb) by lia.
  replace (- tb + (tb - Z.min tb (Z.min ta tb))) with (- Z.min ta tb) by lia.
  ring.
Qed.

(** Products of non-negative integers up to [2 ^ 53] are exact. *)
Lemma fmul_int (a b : Z) :
  0 <= a < 2 ^ 53 -> 0 <= b < 2 ^ 53 -> a * b <= 2 ^ 53 ->
  fmul (float64_of_int a) (float64_of_int b) = float64_of_int (a * b).
Proof.
  intros Ha Hb Hab.
  destruct (Z.eq_dec a 0) as [->|Ha0]; destruct (Z.eq_dec b 0) as [->|Hb0];
    [reflexivity
    |rewrite Z.mul_0_l, (of_int_canon b) by lia; reflexivity
    |rewrite Z.mul_0_r, (of_int_canon a) by lia; reflexivity|].
  assert (0 < a * b) as Hpos by (apply Z.mul_pos_pos; lia).
  rewrite !of_int_canon by lia.
  destruct (canon_below false a) as (ma & ta & -> & Eta & Hta & Ema & _); [lia|].
  destruct (canon_below false b) as (mb & tb & -> & Etb & Htb & Emb & _); [lia|].
  unfold fmul, SFmul. cbn [xorb].
  pose proof (Z.log2_mul_below a b ltac:(lia) ltac:(lia)) as Hlog.
  apply round_aux_int; [lia | lia | | lia].
  rewrite Pos2Z.inj_mul, Ema, Emb.
  replace (- (ta + tb)) with (- ta + - tb) by lia.
  rewrite Z.pow_add_r by lia. ring.
Qed.

(** An exact quotient of integers below [2 ^ 53] is computed exactly. *)
Lemma fdiv_int (a b : Z) :
  0 < a -> 0 < b -> a * b < 2 ^ 53 ->
  fdiv (float64_of_int (a * b)) (float64_of_int b) = float64_of_int a.
Proof.
  intros Ha Hb Hab.
  assert (0 < a * b) as Hpos by (apply Z.mul_pos_pos; lia).
  assert (a < 2 ^ 53 /\ b < 2 ^ 53) as [Ha' Hb'] by (split; nia).
  rewrite !of_int_canon by lia.
  destruct (canon_below false (a * b)) as (m1 & e1 & -> & Ee1 & He1 & Em1 & Hl1); [lia|].
  destruct (canon_below false b) as (m2 & e2 & -> & Ee2 & He2 & Em2 & Hl2); [lia|].
  pose proof (Z.log2_mul_above a b ltac:(lia) ltac:(lia)) as Habove.
  pose proof (Z.log2_mul_below a b ltac:(lia) ltac:(lia)) as Hbelow.
  assert (0 <= Z.log2 a < 53) as Hla
    by (split; [apply Z.log2_nonneg | apply Z.log2_lt_pow2; lia]).
  assert (0 <= Z.log2 b) as Hlb by apply Z.log2_nonneg.
  unfold fdiv, SFdiv, SFdiv_core_binary. cbn [xorb Zdigits2].
  rewrite !digits_log2, Hl1, Hl2, fexp64.
  replace (Z.min (Z.max (52 + 1 + e1 - (52 + 1 + e2) - 53) (-1074)) (e1 - e2))
    with (e1 - e2 - 53) by lia.
  replace (e1 - e2 - (e1 - e2 - 53)) with 53 by lia.
  set (q := a * 2 ^ (53 - (e1 - e2))).
  assert (0 < q) as Hq by (apply Z.mul_pos_pos; [lia | apply Z.pow_pos_nonneg; lia]).
  assert (Z.shiftl (Z.pos m1) 53 = q * Z.pos m2) as Eq.
  { rewrite Z.shiftl_mul_pow2 by lia. rewrite Em1, Em2. unfold q.
    replace (a * b * 2 ^ (- e1) * 2 ^ 53) with (a * b * (2 ^ (- e1) * 2 ^ 53)) by ring.
    replace (a * 2 ^ (53 - (e1 - e2)) * (b * 2 ^ (- e2)))
      with (a * b * (2 ^ (53 - (e1 - e2)) * 2 ^ (- e2))) by ring.
    rewrite <- !Z.pow_add_r by lia. do 2 f_equal; lia. }
  assert (Z.div_eucl (Z.shiftl (Z.pos m1) 53) (Z.pos m2) = (q, 0)) as Ediv.
  { pose proof (Z.div_mul q (Z.pos m2) ltac:(lia)) as Hdiv.
    pose proof (Z.mod_mul q (Z.pos m2) ltac:(lia)) as Hmod.
    rewrite <- Eq in Hdiv, Hmod. unfold Z.div, Z.modulo in Hdiv, Hmod.
    destruct (Z.div_eucl _ _) as [q' r']. congruence. }
  rewrite Ediv.
  assert (new_location (Z.pos m2) 0 = loc_Exact) as ->
    by (unfold new_location; destruct (Z.even _); reflexivity).
  destruct q as [|qp|qp] eqn:Eqp; [lia| |lia].
  apply round_aux_int; [lia | lia | | lia].
  rewrite <- Eqp. unfold q. do 2 f_equal; lia.
Qed.

(** Halving an integer up to [2 ^ 53] is exact. *)
Lemma fmul_half (n : Z) :
  0 < n <= 2 ^ 53 ->
  fmul (float64_of_int n) half = canonScaled false n (-1).
Proof.
  intros Hn. rewrite of_int_canon by lia.
  destruct (canon_mantissa n Hn) as (Hm & Hlog & Ht & Hshift).
  unfold canon, canonScaled, half, fmul, SFmul. cbn [xorb].
  set (t := Z.log2 n + 1 - 53) in *. set (m := Z.shiftl n (- t)) in *.
  apply round_aux_scaled; [exact Hn | lia | | lia | lia].
  rewrite Pos2Z.inj_mul, Z2Pos.id by lia.
  replace (-1 - (t + 0 + -53)) with (- (t - 52)) by lia.
  rewrite (Hshift (t - 52)) by lia.
  replace (t - (t - 52)) with 52 by lia. reflexivity.
Qed.

(** *** The value *)

Lemma two_nonzero : ~ (2 == 0)%Q.
Proof. discriminate. Qed.

Lemma denotes_canonScaled (n c : Z) :
  0 < n <= 2 ^ 53 ->
  denotes (canonScaled false n c) (inject_Z n * Qpower 2 c)%Q.
Proof.
  intros Hn. destruct (canon_mantissa n Hn) as (Hm & Hlog & Ht & Hshift).
  unfold denotes, canonScaled, float64_value. cbn [cond_Zopp].
  set (t := Z.log2 n + 1 - 53) in *. set (m := Z.shiftl n (- t)) in *.
  rewrite Z2Pos.id by exact Hm.
  specialize (Hshift (-52) ltac:(lia) ltac:(lia)).
  replace (- -52) with 52 in Hshift by lia.
  replace (t - -52) with (t + 52) in Hshift by lia.
  assert (inject_Z n * 2 ^ 52 == inject_Z m * 2 ^ (t + 52))%Q as Hq.
  { change 2%Q with (inject_Z 2). rewrite <- !Zpower_Qpower by lia.
    rewrite <- !inject_Z_mult, Hshift. reflexivity. }
  replace (t + c) with ((t + 52) + (c - 52)) by lia.
  rewrite Qpower_plus by exact two_nonzero.
  rewrite Qmult_assoc, <- Hq, <- Qmult_assoc, <- Qpower_plus by exact two_nonzero.
  replace (52 + (c - 52)) with c by lia. reflexivity.
Qed.

Lemma denotes_of_int (n : Z) :
  0 <= n <= 2 ^ 53 -> denotes (float64_of_int n) (inject_Z n).
Proof.
  intros Hn. destruct (Z.eq_dec n 0) as [->|Hne]; [reflexivity|].
  rewrite of_int_canon by lia.
  pose proof (denotes_canonScaled n 0 ltac:(lia)) as H.
  unfold denotes in *. fold (canon false n) in H.
  destruct (float64_value (canon false n)); [|exact H].
  rewrite H. simpl. ring.
Qed.

Lemma denotes_half (n : Z) :
  0 < n <= 2 ^ 53 -> denotes (canonScaled false n (-1)) (inject_Z n / 2)%Q.
Proof.
  intros Hn. pose proof (denotes_canonScaled n (-1) Hn) as H.
  unfold denotes in *.
  destruct (float64_value (canonScaled false n (-1))); [|exact H].
  rewrite H. reflexivity.
Qed.

(** *** Numbers that are not negative *)

Lemma round_aux_notNegative (m e : Z) (l : location) :
  0 <= m -> notNegative (binary_round_aux prec64 emax64 false m e l).
Proof.
  intros Hm. unfold binary_round_aux, shr_fexp.
  assert (forall mrs e n, 0 <= shr_m mrs -> 0 <= shr_m (shr mrs e n).1) as Hshr.
  { intros mrs e0 n H. unfold shr. destruct n as [|p|p]; [exact H| |exact H].
    cbn [fst]. rewrite iter_pos_nat. apply shr_nonneg, H. }
  assert (forall m l, shr_m (shr_record_of_loc m l) = m) as Hrec
    by (intros m0 [|[]]; reflexivity).
  match goal with
  | |- context [shr ?mrs ?e0 ?n] =>
      pose proof (Hshr mrs e0 n) as H1; destruct (shr mrs e0 n) as [mrs' e']
  end.
  rewrite Hrec in H1. specialize (H1 Hm). cbn [fst] in H1.
  assert (0 <= round_nearest_even (shr_m mrs') (loc_of_shr_record mrs')) as H2.
  { unfold round_nearest_even.
    destruct (loc_of_shr_record mrs') as [|[]]; try destruct (Z.even _); lia. }
  match goal with
  | |- context [shr ?mrs ?e0 ?n] =>
      pose proof (Hshr mrs e0 n) as H3; destruct (shr mrs e0 n) as [mrs'' e'']
  end.
  rewrite Hrec in H3. specialize (H3 H2). cbn [fst] in H3.
  destruct (shr_m mrs'') as [|p|p]; [exact I| |lia].
  destruct (e'' <=? emax64 - prec64); reflexivity.
Qed.

Lemma of_int_notNegative (n : Z) : 0 <= n -> notNegative (float64_of_int n).
Proof.
  intros Hn. destruct n as [|p|p]; [exact I| |lia].
  unfold float64_of_int, binary_normalize, binary_round.
  destruct (shl_align _ _ _) as [m e]. apply round_aux_notNegative. lia.
Qed.

Lemma of_uint_notNegative (n : N) : notNegative (float64_of_uint n).
Proof. apply of_int_notNegative. lia. Qed.

Lemma fadd_notNegative (x y : float64) :
  notNegative x -> notNegative y -> notNegative (fadd x y).
Proof.
  destruct x as [sx|sx| |sx mx ex], y as [sy|sy| |sy my ey]; simpl;
    try tauto; try (intros -> ->; exact I); try (intros; subst; reflexivity).
  - destruct sx, sy; intros; exact I.
  - intros -> ->. unfold fadd, SFadd. cbn [cond_Zopp].
    match goal with
    | |- context [Z.add (Z.pos ?a) (Z.pos ?b)] =>
        change (Z.add (Z.pos a) (Z.pos b)) with (Z.pos (a + b));
        generalize (a + b)%positive
    end.
    intros p. cbn [binary_normalize]. unfold binary_round.
    destruct (shl_align p _ _) as [m e].
    apply round_aux_notNegative. lia.
Qed.

Lemma fmul_notNegative (x : float64) (m : positive) (e : Z) :
  notNegative x -> notNegative (fmul x (S754_finite false m e)).
Proof.
  destruct x as [sx|sx| |sx mx ex]; simpl; try tauto.
  - intros ->. reflexivity.
  - intros ->. unfold fmul, SFmul. cbn [xorb]. apply round_aux_notNegative. lia.
Qed.

Lemma notNegative_number (f : float64) : notNegative f -> f <> S754_nan.
Proof. intros H ->. exact H. Qed.

(** *** The order *)

Lemma compare_swap (x y : float64) (c : comparison) :
  SFcompare x y = Some c -> SFcompare y x = Some (CompOpp c).
Proof.
  destruct x as [sx|sx| |sx mx ex], y as [sy|sy| |sy my ey]; simpl;
    try discriminate;
    try (destruct sx; intros [= <-]; reflexivity);
    try (destruct sy; intros [= <-]; reflexivity);
    try (intros [= <-]; reflexivity).
  - destruct sx, sy; intros [= <-]; reflexivity.
  - change (Pos.compare_cont Eq my mx) with (Pos.compare my mx).
    change (Pos.compare_cont Eq mx my) with (Pos.compare mx my).
    destruct sx, sy; intros [= <-]; try reflexivity;
      destruct (Z.compare_spec ex ey), (Z.compare_spec ey ex); try lia;
      try reflexivity;
      destruct (Pos.compare_spec mx my), (Pos.compare_spec my mx); try lia;
      reflexivity.
Qed.

Lemma compare_number (x y : float64) :
  x <> S754_nan -> y <> S754_nan -> exists c, SFcompare x y = Some c.
Proof.
  destruct x as [sx|sx| |sx mx ex], y as [sy|sy| |sy my ey]; simpl;
    intros Hx Hy; try congruence; eexists; reflexivity.
Qed.

Lemma fltb_false (x y : float64) :
  x <> S754_nan -> y <> S754_nan -> fltb x y = false -> fleb y x = true.
Proof.
  intros Hx Hy. unfold fltb, fleb, SFltb, SFleb.
  destruct (compare_number x y Hx Hy) as [c Ec].
  rewrite Ec, (compare_swap x y c Ec). destruct c; simpl; congruence.
Qed.

Lemma fltb_true (x y : float64) : fltb x y = true -> fleb x y = true.
Proof.
  unfold fltb, fleb, SFltb, SFleb. destruct (SFcompare x y) as [[]|]; congruence.
Qed.

Lemma fleb_trans (x y z : float64) :
  fleb x y = true -> fleb y z = true -> fleb x z = true.
Proof.
  unfold fleb, SFleb.
  destruct x as [sx|sx| |sx mx ex], y as [sy|sy| |sy my ey],
           z as [sz|sz| |sz mz ez]; simpl; try discriminate; try reflexivity;
    try destruct sx; try destruct sy; try destruct sz;
    try discriminate; try reflexivity;
    repeat match goal with
      | |- context [Pos.compare_cont Eq ?a ?b] =>
          change (Pos.compare_cont Eq a b) with (Pos.compare a b)
      end;
    destruct (Z.compare_spec ex ey), (Z.compare_spec ey ez),
             (Z.compare_spec ex ez); try lia; try discriminate; try reflexivity;
    destruct (Pos.compare_spec mx my), (Pos.compare_spec my mz),
             (Pos.compare_spec mx mz); simpl; try lia; try discriminate;
    try reflexivity.
Qed.

Lemma fleb_number (x y : float64) :
  fleb x y = true -> x <> S754_nan /\ y <> S754_nan.
Proof.
  unfold fleb, SFleb.
  destruct x as [sx|sx| |sx mx ex], y as [sy|sy| |sy my ey]; simpl;
    try discriminate; intros _; split; discriminate.
Qed.

End Float64Facts.

(** ** Ranking *)

Module RankingFacts.
Import Float64Facts.

Lemma foldl_invariant {A B} (P : A -> Prop) (f : A -> B -> A) (l : list B) (a : A) :
  (forall a b, P a -> P (f a b)) -> P a -> P (foldl f a l).
Proof. intros Hf. revert a. induction l as [|b l IH]; simpl; auto. Qed.

Section Sorting.
Context {A : Type} (score : A -> float64) (P : A -> Prop).

Lemma swapIfLess_Forall (i j : nat) (s : list A) :
  Forall P s -> Forall P (swapIfLess score i j s).
Proof.
  intros F. unfold swapIfLess.
  destruct (s !! i) as [a|] eqn:Ei; [|exact F].
  destruct (s !! j) as [b|] eqn:Ej; [|exact F].
  destruct (fltb (score a) (score b)); [|exact F].
  apply Forall_insert; [apply Forall_insert; [exact F|]|].
  - exact (Forall_lookup_1 _ _ _ _ F Ei).
  - exact (Forall_lookup_1 _ _ _ _ F Ej).
Qed.

Lemma sortByScoreDesc_Forall (s : list A) :
  Forall P s -> Forall P (sortByScoreDesc score s).
Proof.
  intros F. unfold sortByScoreDesc.
  apply (foldl_invariant (Forall P)); [|exact F].
  intros s' i F'. apply (foldl_invariant (Forall P)); [|exact F'].
  intros s'' j F''. apply swapIfLess_Forall. exact F''.
Qed.

Lemma truncateTo_Forall (limit : Z) (s : list A) :
  Forall P s -> Forall P (truncateTo limit s).
Proof.
  intros F. unfold truncateTo.
  destruct (limit <? Z.of_nat (length s))%Z; [apply Forall_take|]; exact F.
Qed.

End Sorting.

(** The weighted sum of counters is computed exactly as long as it is at
    most [2 ^ 53]. *)
Lemma weighted_exact (views likes comments : N) :
  (weighted views likes comments <= 2 ^ 53)%Z ->
  (float64_of_uint views + float64_of_uint likes * float64_of_int 3
   + float64_of_uint comments * float64_of_int 5)%f64
  = float64_of_int (weighted views likes comments).
Proof.
  unfold weighted, float64_of_uint. intros Hw.
  rewrite (fmul_int (Z.of_N likes) 3), (fmul_int (Z.of_N comments) 5) by lia.
  rewrite !fadd_int by lia. f_equal. lia.
Qed.

(** The duration between a publication and the instant [days] days
    later is not saturated, and counts as exactly [24 * days] hours. *)
Lemma hours_of_days (days : Z) (p : Time) :
  (0 < days <= 106751)%Z ->
  Duration_Hours (Time_Sub (p + days * nanosPerDay)%Z p)
  = float64_of_int (days * 24).
Proof.
  intros Hd. unfold Time_Sub.
  replace (p + days * nanosPerDay - p)%Z with (days * nanosPerDay)%Z by lia.
  assert (minDuration <= days * nanosPerDay <= maxDuration)%Z as [Hlo Hhi].
  { unfold minDuration, maxDuration, nanosPerDay.
    change (2 ^ 63)%Z with 9223372036854775808%Z. lia. }
  apply Z.ltb_ge in Hlo. apply Z.ltb_ge in Hhi. rewrite Hlo, Hhi.
  unfold Duration_Hours.
  replace (days * nanosPerDay)%Z with (days * 24 * nanosPerHour)%Z
    by (unfold nanosPerDay, nanosPerHour; lia).
  rewrite Z.quot_mul, Z.rem_mul by (unfold nanosPerHour; lia).
  change (float64_of_int 0 / float64_of_int (60 * 60 * 1000000000))%f64
    with (float64_of_int 0).
  rewrite (fadd_int (days * 24) 0) by lia. f_equal. lia.
Qed.

(** At that instant the decay is exactly one half. *)
Lemma half_decay (days : Z) (p : Time) :
  (0 < days <= 106751)%Z ->
  (float64_of_int 1
   / (float64_of_int 1
      + Duration_Hours (Time_Sub (p + days * nanosPerDay)%Z p) / float64_of_int 24
        / float64_of_int days))%f64
  = half.
Proof.
  intros Hd. rewrite (hours_of_days days p Hd).
  rewrite (fdiv_int days 24) by lia.
  replace (float64_of_int days / float64_of_int days)%f64 with (float64_of_int 1)
    by (symmetry; rewrite <- (Z.mul_1_l days) at 1; apply fdiv_int; lia).
  reflexivity.
Qed.

(** The score of an article that is exactly [days] days old when it is
    scored. *)
Lemma score_at_window_age (views likes comments : N) (days : Z) (p : Time) :
  (0 < days <= 106751)%Z ->
  (weighted views likes comments <= 2 ^ 53)%Z ->
  denotes
    ((float64_of_uint views + float64_of_uint likes * float64_of_int 3
      + float64_of_uint comments * float64_of_int 5)
     * (float64_of_int 1
        / (float64_of_int 1
           + Duration_Hours (Time_Sub (p + days * nanosPerDay)%Z p)
             / float64_of_int 24 / float64_of_int days)))%f64
    (inject_Z (weighted views likes comments) / 2).
Proof.
  intros Hd Hw. rewrite (half_decay days p Hd), (weighted_exact _ _ _ Hw).
  assert (0 <= weighted views likes comments)%Z as H0 by (unfold weighted; lia).
  destruct (Z.eq_dec (weighted views likes comments) 0%Z) as [->|Hne];
    [reflexivity|].
  rewrite fmul_half by lia. apply denotes_half. lia.
Qed.

End RankingFacts.

(** C5, as amended.  Every entry [GetPopularArticles] returns whose
    weighted sum views x 1 + likes x 3 + comments x 5 is at most [2 ^ 53]
    carries exactly that sum as its score, whatever the repository behind
    it; above [2 ^ 53] the [float64] score is rounded.  With views 10,
    likes 2, comments 1 the score is 21, with views 0, likes 0, comments 4
    it is 20, and of two such articles the first is ranked above the second
    in whichever order the repository lists them. *)
Theorem popularity_score {W} (h : Handler W) (w : W) (limit : Z) :
  let limit' := if (limit <=? 0)%Z then 10%Z else limit in
  (forall ps,
     result_of h (StatisticsService.GetPopularArticles limit) w = Ok ps ->
     Forall (fun p =>
               (weighted (StatisticsService.ViewCount p)
                  (StatisticsService.LikeCount p)
                  (StatisticsService.CommentCount p) <= 2 ^ 53)%Z ->
               denotes (StatisticsService.Score p)
                 (inject_Z (weighted (StatisticsService.ViewCount p)
                              (StatisticsService.LikeCount p)
                              (StatisticsService.CommentCount p)))) ps)
  /\ weighted 10 2 1 = 21%Z
  /\ weighted 0 0 4 = 20%Z
  /\ denotes (float64_of_int 21) 21 /\ denotes (float64_of_int 20) 20
  /\ (forall (a b : Article) total w1,
        (ViewCount a, LikeCount a, CommentCount a) = (10, 2, 1) ->
        (ViewCount b, LikeCount b, CommentCount b) = (0, 0, 4) ->
        h _ (ArticleList 0 (wrap64 (limit' * 2)) StatisticsService.publishedOnly) w
          = (Ok ([a; b], total), w1)
        \/ h _ (ArticleList 0 (wrap64 (limit' * 2)) StatisticsService.publishedOnly) w
          = (Ok ([b; a], total), w1) ->
        result_of h (StatisticsService.GetPopularArticles limit) w
        = Ok (truncateTo limit'
                [StatisticsService.mkPopularArticle (ID a) (Title a) (Slug a)
                   10 2 1 (float64_of_int 21) (CreatedAt a);
                 StatisticsService.mkPopularArticle (ID b) (Title b) (Slug b)
                   0 0 4 (float64_of_int 20) (CreatedAt b)])).
Proof.
  intros limit'. repeat split; try reflexivity.
  - intros ps. unfold result_of, StatisticsService.GetPopularArticles.
    fold limit'. rewrite run_call_bind.
    destruct (h _ _ w).1 as [[articles total]|err]; cbn [run fst snd];
      [|discriminate].
    intros [= <-].
    apply RankingFacts.truncateTo_Forall, RankingFacts.sortByScoreDesc_Forall.
    apply Forall_map, Forall_forall. intros article _.
    cbn [StatisticsService.Score StatisticsService.ViewCount
         StatisticsService.LikeCount StatisticsService.CommentCount].
    intros Hw.
    refine (eq_ind_r (fun f => denotes f _) _ (RankingFacts.weighted_exact _ _ _ Hw)).
    apply Float64Facts.denotes_of_int. unfold weighted in *. lia.
  - intros a b total w1 [= Va La Ca] [= Vb Lb Cb] Hlist.
    unfold result_of, StatisticsService.GetPopularArticles.
    fold limit'. rewrite run_call_bind.
    destruct Hlist as [-> | ->]; cbn [fst snd map run];
      rewrite Va, La, Ca, Vb, Lb, Cb; reflexivity.
Qed.

Lemma result_of_bind {W A B} (h : Handler W) (m : Prog A) (f : A -> Prog B) (w : W) :
  result_of h (bind m f) w = result_of h (f (result_of h m w)) (state_of h m w).
Proof.
  unfold result_of, state_of. rewrite run_bind.
  destruct (run h m w) as [[a w1] c1]. simpl.
  destruct (run h (f a) w1) as [[b w2] c2]. reflexivity.
Qed.

Lemma state_of_bind {W A B} (h : Handler W) (m : Prog A) (f : A -> Prog B) (w : W) :
  state_of h (bind m f) w = state_of h (f (result_of h m w)) (state_of h m w).
Proof.
  unfold result_of, state_of. rewrite run_bind.
  destruct (run h m w) as [[a w1] c1]. simpl.
  destruct (run h (f a) w1) as [[b w2] c2]. reflexivity.
Qed.

Lemma calls_of_bind {W A B} (h : Handler W) (m : Prog A) (f : A -> Prog B) (w : W) :
  calls_of h (bind m f) w
  = calls_of h m w ++ calls_of h (f (result_of h m w)) (state_of h m w).
Proof.
  unfold result_of, state_of, calls_of. rewrite run_bind.
  destruct (run h m w) as [[a w1] c1]. simpl.
  destruct (run h (f a) w1) as [[b w2] c2]. reflexivity.
Qed.

Lemma result_of_call {W X} (h : Handler W) (e : Event X) (w : W) :
  result_of h (call e) w = (h _ e w).1.
Proof. unfold result_of. rewrite run_call. reflexivity. Qed.

Lemma state_of_call {W X} (h : Handler W) (e : Event X) (w : W) :
  state_of h (call e) w = (h _ e w).2.
Proof. unfold state_of. rewrite run_call. reflexivity. Qed.

Lemma result_of_Call {W X R} (h : Handler W) (e : Event X) (k : X -> Prog R) (w : W) :
  result_of h (Call e k) w = result_of h (k (h _ e w).1) (h _ e w).2.
Proof.
  unfold result_of. simpl. destruct (h X e w) as [x w1]. simpl.
  destruct (run h (k x) w1) as [[r w2] c]. reflexivity.
Qed.

Lemma state_of_Call {W X R} (h : Handler W) (e : Event X) (k : X -> Prog R) (w : W) :
  state_of h (Call e k) w = state_of h (k (h _ e w).1) (h _ e w).2.
Proof.
  unfold state_of. simpl. destruct (h X e w) as [x w1]. simpl.
  destruct (run h (k x) w1) as [[r w2] c]. reflexivity.
Qed.

Lemma calls_of_Call {W X R} (h : Handler W) (e : Event X) (k : X -> Prog R) (w : W) :
  calls_of h (Call e k) w = Called e :: calls_of h (k (h _ e w).1) (h _ e w).2.
Proof.
  unfold calls_of. simpl. destruct (h X e w) as [x w1]. simpl.
  destruct (run h (k x) w1) as [[r w2] c]. reflexivity.
Qed.

Lemma trendingLoop_scored {W} (h : Handler W) (all articles : list Article)
    (days : Z) (cutoff : Time) (acc : list StatisticsService.TrendingArticle) (w : W) :
  (0 < days <= 106751)%Z ->
  (forall a, In a articles -> In a all) ->
  Forall (scoredFrom h all days cutoff) acc ->
  Forall (scoredFrom h all days cutoff)
    (result_of h (StatisticsService.trendingLoop articles days cutoff acc) w).
Proof.
  intros Hd. revert acc w.
  induction articles as [|article rest IH]; intros acc w Hsub Hacc; [exact Hacc|].
  assert (forall a, In a rest -> In a all) as Hrest by (intros; apply Hsub; right; auto).
  simpl. destruct (PublishedAt article) as [publishedAt|] eqn:Ep; [|apply IH; auto].
  destruct (Time_After publishedAt cutoff) eqn:Eafter; [|apply IH; auto].
  rewrite result_of_Call.
  apply IH; [exact Hrest|].
  apply Forall_app. split; [exact Hacc|]. constructor; [|constructor].
  exists article, publishedAt, (h _ TimeNow w).1.
  cbn [StatisticsService.t_ArticleID StatisticsService.t_ViewCount
       StatisticsService.t_LikeCount StatisticsService.t_CommentCount
       StatisticsService.TrendingScore].
  repeat split.
  - apply Hsub. left. reflexivity.
  - exact Ep.
  - apply Z.ltb_lt. exact Eafter.
  - exists w. reflexivity.
  - intros -> Hw. exact (RankingFacts.score_at_window_age _ _ _ days publishedAt Hd Hw).
Qed.


(** ** Unique slugs *)

Module UniqueSlugFacts.

Lemma lit_inj (s1 s2 : string) : lit s1 = lit s2 -> s1 = s2.
Proof.
  unfold lit. intros E.
  assert (list_ascii_of_string s1 = list_ascii_of_string s2) as E'.
  { revert E. generalize (list_ascii_of_string s1) (list_ascii_of_string s2).
    induction l as [|a l IH]; intros [|b l']; simpl; try discriminate; [reflexivity|].
    intros [= Hab Hl]. f_equal; [|apply IH; exact Hl].
    rewrite <- (ascii_N_embedding a), <- (ascii_N_embedding b). congruence. }
  rewrite <- (string_of_list_ascii_of_string s1),
          <- (string_of_list_ascii_of_string s2). congruence.
Qed.

Lemma itoa_inj (n m : N) : itoa n = itoa m -> n = m.
Proof.
  unfold itoa. intros E. apply lit_inj in E.
  assert (Some (N.to_uint n) = Some (N.to_uint m)) as [= E'].
  { rewrite <- !NilEmpty.usu. congruence. }
  rewrite <- (DecimalN.Unsigned.of_to n), <- (DecimalN.Unsigned.of_to m).
  congruence.
Qed.

Lemma numbered_inj (base : gostring) (k1 k2 : N) :
  numbered base k1 = numbered base k2 -> k1 = k2.
Proof.
  unfold numbered. intros E. apply app_inv_head in E.
  apply app_inv_head in E. apply itoa_inj. exact E.
Qed.

Lemma numbered_not_base (base : gostring) (k : N) : numbered base k <> base.
Proof.
  unfold numbered. intros E. apply (f_equal length) in E.
  rewrite !length_app in E. simpl in E. lia.
Qed.

Lemma next_is_free (base : gostring) (n : N) :
  ~ collides base n (numbered base (n + 1)).
Proof.
  intros [E|(k & Hk & E)].
  - exact (numbered_not_base _ _ E).
  - apply numbered_inj in E. lia.
Qed.

Section Loop.
Context {W T : Type} (h : Handler W) (I : W -> Prop)
        (getBySlug : gostring -> Event (Result T))
        (base : gostring) (n : N).
Hypothesis Hreports : reportsTaken h I getBySlug (collides base n).

Lemma candidate_collides j : j <= n -> collides base n (candidate base j).
Proof.
  intros Hj. unfold candidate. destruct (N.eqb_spec j 0) as [->|Hne].
  - left. reflexivity.
  - right. exists j. split; [lia|reflexivity].
Qed.

Lemma loop_finds_next :
  n <= 998 ->
  forall (d : nat) (j : N) (w : W),
    N.of_nat d + j = n + 1 -> I w ->
    result_of h
      (uniqueSlugLoop getBySlug (1000 - N.to_nat j) base (candidate base j) (j + 1)) w
    = Ok (numbered base (n + 1)).
Proof.
  intros Hn. induction d as [|d IH]; intros j w Hj Hw.
  - assert (j = n + 1) as -> by lia.
    destruct (1000 - N.to_nat (n + 1))%nat as [|fuel] eqn:Ef; [lia|].
    simpl. rewrite result_of_Call.
    destruct (Hreports w (candidate base (n + 1)) Hw) as (_ & _ & Hfree).
    unfold candidate in *.
    destruct (N.eqb_spec (n + 1) 0) as [E0|_]; [lia|].
    rewrite (Hfree (next_is_free base n)). reflexivity.
  - destruct (1000 - N.to_nat j)%nat as [|fuel] eqn:Ef; [lia|].
    simpl. rewrite result_of_Call.
    destruct (Hreports w (candidate base j) Hw) as (Hw' & Htaken & _).
    destruct (Htaken (candidate_collides j ltac:(lia))) as [t ->].
    assert ((1000 <? j + 1 + 1) = false) as -> by (apply N.ltb_ge; lia).
    specialize (IH (j + 1) _ ltac:(lia) Hw').
    replace (1000 - N.to_nat (j + 1))%nat with fuel in IH by lia.
    unfold candidate in IH at 1.
    destruct (N.eqb_spec (j + 1) 0) as [E0|_]; [lia|].
    exact IH.
Qed.

Lemma loop_gives_up :
  999 <= n ->
  forall (d : nat) (j : N) (w : W),
    N.of_nat d + j = 999 -> I w ->
    result_of h
      (uniqueSlugLoop getBySlug (1000 - N.to_nat j) base (candidate base j) (j + 1)) w
    = Err (errors_New "unable to generate unique slug").
Proof.
  intros Hn. induction d as [|d IH]; intros j w Hj Hw.
  - assert (j = 999) as -> by lia.
    simpl. rewrite result_of_Call.
    destruct (Hreports w (candidate base 999) Hw) as (_ & Htaken & _).
    destruct (Htaken (candidate_collides 999 Hn)) as [t ->]. reflexivity.
  - destruct (1000 - N.to_nat j)%nat as [|fuel] eqn:Ef; [lia|].
    simpl. rewrite result_of_Call.
    destruct (Hreports w (candidate base j) Hw) as (Hw' & Htaken & _).
    destruct (Htaken (candidate_collides j ltac:(lia))) as [t ->].
    assert ((1000 <? j + 1 + 1) = false) as -> by (apply N.ltb_ge; lia).
    specialize (IH (j + 1) _ ltac:(lia) Hw').
    replace (1000 - N.to_nat (j + 1))%nat with fuel in IH by lia.
    unfold candidate in IH at 1.
    destruct (N.eqb_spec (j + 1) 0) as [E0|_]; [lia|].
    exact IH.
Qed.

End Loop.

End UniqueSlugFacts.

(** C3, as amended.  When the slugs [base], [base-1], ..., [base-N] and no
    others are reported as taken, unique-slug generation - of the tag
    service and of the article service alike - returns [base-(N+1)] as long
    as [N <= 998]; from [N = 999] on it gives up with the error
    [unable to generate unique slug], the counter having passed 1000. *)
Theorem generateUniqueSlug_next_free `{CaseTable} {W} (h : Handler W)
    (I : W -> Prop) (w : W) (text : gostring) (n : N) :
  utils.GenerateSlug text <> [] ->
  I w ->
  (reportsTaken h I TagGetBySlug (collides (utils.GenerateSlug text) n) ->
   result_of h (TagService.generateUniqueSlug text) w
   = if n <=? 998 then Ok (numbered (utils.GenerateSlug text) (n + 1))
     else Err (errors_New "unable to generate unique slug"))
  /\ (reportsTaken h I ArticleGetBySlug (collides (utils.GenerateSlug text) n) ->
      result_of h (ArticleService.generateUniqueSlug text) w
      = if n <=? 998 then Ok (numbered (utils.GenerateSlug text) (n + 1))
        else Err (errors_New "unable to generate unique slug")).
Proof.
  intros Hbase Hw.
  unfold TagService.generateUniqueSlug, ArticleService.generateUniqueSlug.
  destruct (decide (utils.GenerateSlug text = [])) as [E|_]; [contradiction|].
  split; intros Hreports; destruct (N.leb_spec n 998) as [Hn|Hn].
  - exact (UniqueSlugFacts.loop_finds_next h I TagGetBySlug _ n Hreports Hn
             (N.to_nat (n + 1)) 0 w ltac:(lia) Hw).
  - exact (UniqueSlugFacts.loop_gives_up h I TagGetBySlug _ n Hreports
             ltac:(lia) 999 0 w ltac:(lia) Hw).
  - exact (UniqueSlugFacts.loop_finds_next h I ArticleGetBySlug _ n Hreports Hn
             (N.to_nat (n + 1)) 0 w ltac:(lia) Hw).
  - exact (UniqueSlugFacts.loop_gives_up h I ArticleGetBySlug _ n Hreports
             ltac:(lia) 999 0 w ltac:(lia) Hw).
Qed.

(** ** Tag resolution *)

Module TagFacts.

Section Trimming.
Context {A : Type} (p : A -> bool).

Lemma dropWhile_id (l : list A) :
  (forall x, head l = Some x -> p x = false) -> dropWhile p l = l.
Proof.
  destruct l as [|x t]; [reflexivity|]. simpl. intros Hx.
  rewrite (Hx x eq_refl). reflexivity.
Qed.

Lemma dropWhileEnd_id (l : list A) :
  (forall x, last l = Some x -> p x = false) -> dropWhileEnd p l = l.
Proof.
  intros Hx. unfold dropWhileEnd. rewrite dropWhile_id.
  - apply reverse_involutive.
  - intros x. rewrite head_reverse. apply Hx.
Qed.

Lemma trim_both_idempotent (l : list A) :
  let t := dropWhileEnd p (dropWhile p l) in
  dropWhileEnd p (dropWhile p t) = t.
Proof.
  intros t. rewrite (dropWhile_id t).
  - apply dropWhileEnd_id. intros x. apply dropWhileEnd_last.
  - intros x Hx. apply dropWhileEnd_head in Hx.
    exact (dropWhile_head p l x Hx).
Qed.

End Trimming.

Lemma TrimSpace_idempotent (s : gostring) :
  strings.TrimSpace (strings.TrimSpace s) = strings.TrimSpace s.
Proof. apply trim_both_idempotent. Qed.

Section Resolver.
Context `{CaseTable} {W : Type} (h : Handler W).
Hypothesis Hfaithful : nameFaithful h.

Lemma Create_name (name : gostring) (w : W) (tag : Tag) :
  result_of h (TagService.Create (Some (TagService.mkCreateTagRequest name))) w
  = Ok tag ->
  Tag_Name tag = strings.TrimSpace name.
Proof.
  destruct Hfaithful as [_ Hcreate].
  unfold TagService.Create.
  destruct (TagService.validateCreateRequest _); [discriminate|].
  simpl. rewrite result_of_Call.
  destruct (h _ (TagGetByName _) w).1 as [t|err]; [discriminate|].
  destruct (isRecordNotFound err); simpl; [|discriminate].
  rewrite result_of_bind.
  destruct (result_of h (TagService.generateUniqueSlug _) _) as [slug|err'];
    [|discriminate].
  rewrite result_of_Call.
  match goal with
  | |- context [h _ (TagCreate ?t) ?w'] =>
      pose proof (Hcreate w' t) as Hn;
      destruct (h _ (TagCreate t) w') as [[created [err'|]] w'']
  end; simpl in *; [discriminate|].
  intros [= <-]. exact Hn.
Qed.

Lemma FindOrCreateByName_name (name : gostring) (w : W) (tag : Tag) :
  result_of h (TagService.FindOrCreateByName name) w = Ok tag ->
  Tag_Name tag = strings.TrimSpace name.
Proof.
  pose proof Hfaithful as [Hget _].
  unfold TagService.FindOrCreateByName.
  destruct (decide (strings.TrimSpace name = [])); [discriminate|].
  rewrite result_of_bind, result_of_call, state_of_call.
  destruct (h _ (TagGetByName _) w).1 as [t|err] eqn:Eget.
  - intros [= <-]. exact (Hget _ _ _ Eget).
  - destruct (isRecordNotFound err); simpl; [|discriminate].
    intros Hc. apply Create_name in Hc.
    rewrite TrimSpace_idempotent in Hc. exact Hc.
Qed.

Lemma processLoop_names (tagNames : list gostring) :
  forall (tags : list Tag) (processed : gmap gostring bool) (w : W)
         (result : list Tag),
    result_of h (TagService.processLoop tagNames tags processed) w = Ok result ->
    map Tag_Name result = map Tag_Name tags ++ freshNames tagNames processed.
Proof.
  induction tagNames as [|raw rest IH]; intros tags processed w result; simpl.
  - intros [= <-]. rewrite app_nil_r. reflexivity.
  - destruct (decide (strings.TrimSpace raw = [])); [apply IH|].
    destruct (default false (processed !! strings.TrimSpace raw));
      [apply IH|].
    rewrite result_of_bind.
    destruct (result_of h (TagService.FindOrCreateByName _) w) as [tag|err] eqn:Efind;
      [|discriminate].
    intros Hrest. apply IH in Hrest. rewrite Hrest, map_app. simpl.
    apply FindOrCreateByName_name in Efind.
    rewrite TrimSpace_idempotent in Efind. rewrite Efind, <- app_assoc.
    reflexivity.
Qed.

End Resolver.

Lemma freshNames_unprocessed (tagNames : list gostring) :
  forall (processed : gmap gostring bool) (name : gostring),
    In name (freshNames tagNames processed) ->
    default false (processed !! name) = false.
Proof.
  induction tagNames as [|raw rest IH]; intros processed name; simpl; [tauto|].
  destruct (decide (strings.TrimSpace raw = [])); [apply IH|].
  destruct (default false (processed !! strings.TrimSpace raw)) eqn:Eseen;
    [apply IH|].
  intros [<-|Hin]; [exact Eseen|].
  apply IH in Hin.
  destruct (decide (strings.TrimSpace raw = name)) as [<-|Hne].
  - rewrite lookup_insert_eq in Hin. discriminate.
  - rewrite lookup_insert_ne in Hin by exact Hne. exact Hin.
Qed.

Lemma freshNames_NoDup (tagNames : list gostring) :
  forall processed : gmap gostring bool,
    List.NoDup (freshNames tagNames processed).
Proof.
  induction tagNames as [|raw rest IH]; intros processed; simpl;
    [constructor|].
  destruct (decide (strings.TrimSpace raw = [])); [apply IH|].
  destruct (default false (processed !! strings.TrimSpace raw)); [apply IH|].
  constructor; [|apply IH].
  intros Hin. apply freshNames_unprocessed in Hin.
  rewrite lookup_insert_eq in Hin. discriminate.
Qed.

Lemma freshNames_complete (tagNames : list gostring) :
  forall (processed : gmap gostring bool) (raw : gostring),
    In raw tagNames ->
    strings.TrimSpace raw <> [] ->
    default false (processed !! strings.TrimSpace raw) = false ->
    In (strings.TrimSpace raw) (freshNames tagNames processed).
Proof.
  induction tagNames as [|first rest IH]; intros processed raw; simpl; [tauto|].
  intros [->|Hin] Hne Hseen.
  - destruct (decide (strings.TrimSpace raw = [])); [contradiction|].
    rewrite Hseen. left. reflexivity.
  - destruct (decide (strings.TrimSpace first = [])); [apply IH; auto|].
    destruct (default false (processed !! strings.TrimSpace first)) eqn:Efirst;
      [apply IH; auto|].
    destruct (decide (strings.TrimSpace first = strings.TrimSpace raw)) as [E|Hdiff].
    + left. exact E.
    + right. apply IH; auto. rewrite lookup_insert_ne by exact Hdiff. exact Hseen.
Qed.

Lemma one_of_NoDup (name : gostring) (tags : list Tag) :
  List.NoDup (map Tag_Name tags) ->
  In name (map Tag_Name tags) ->
  length (filter (fun t => Tag_Name t = name) tags) = 1%nat.
Proof.
  induction tags as [|t rest IH]; simpl; [tauto|].
  intros Hnd Hin. apply List.NoDup_cons_iff in Hnd as [Hnotin Hnd].
  rewrite filter_cons. destruct (decide (Tag_Name t = name)) as [E|Hne].
  - simpl. f_equal. rewrite E in Hnotin.
    assert (filter (fun t => Tag_Name t = name) rest = []) as ->; [|reflexivity].
    clear -Hnotin. induction rest as [|u rest IH]; [reflexivity|].
    rewrite filter_cons. destruct (decide (Tag_Name u = name)) as [E|_].
    + exfalso. apply Hnotin. left. exact E.
    + apply IH. intros Hin. apply Hnotin. right. exact Hin.
  - apply IH; [exact Hnd|]. destruct Hin as [E|Hin]; [contradiction|exact Hin].
Qed.

(** The gorm-backed tag repository is faithful to names. *)
Lemma gorm_nameFaithful : nameFaithful gorm.handle.
Proof.
  split.
  - intros w name t. simpl. unfold gorm.query, gorm.lookupFirst. simpl.
    destruct (gorm.faulty w); [discriminate|].
    destruct (List.find _ (w_tags w)) as [t'|] eqn:Efind; [|discriminate].
    intros [= <-]. apply List.find_some in Efind as [_ Eb].
    apply bool_decide_eq_true in Eb. exact Eb.
  - intros w tag. simpl. unfold gorm.tagRepository_Create.
    destruct (gorm.faulty w); [reflexivity|].
    destruct (hooks.Tag_Validate _ tag); [reflexivity|].
    destruct (existsb _ (w_tags w)); reflexivity.
Qed.

End TagFacts.

(** C9.  When a batch passed to [ProcessTagNames] holds the same name at
    two places - the same after trimming white space, compared exactly -
    and the batch is resolved, the returned list holds exactly one tag of
    that name.  The repository is taken to hand out tags under the name it
    was asked for, as the gorm-backed one does. *)
Theorem ProcessTagNames_one_tag_per_name `{CaseTable} {W} (h : Handler W) (w : W)
    (tagNames : list gostring) (tags : list Tag)
    (i j : nat) (first second : gostring) :
  nameFaithful h ->
  result_of h (TagService.ProcessTagNames tagNames) w = Ok tags ->
  i <> j ->
  tagNames !! i = Some first ->
  tagNames !! j = Some second ->
  strings.TrimSpace first = strings.TrimSpace second ->
  strings.TrimSpace first <> [] ->
  length (filter (fun t => Tag_Name t = strings.TrimSpace first) tags) = 1%nat.
Proof.
  intros Hfaithful Hrun _ Hi _ _ Hne.
  apply (TagFacts.processLoop_names h Hfaithful) in Hrun. simpl in Hrun.
  apply TagFacts.one_of_NoDup.
  - rewrite Hrun. apply TagFacts.freshNames_NoDup.
  - rewrite Hrun. apply TagFacts.freshNames_complete; [|exact Hne|reflexivity].
    apply list_elem_of_In. eapply list_elem_of_lookup_2. exact Hi.
Qed.

Lemma takenSlug_collides (base : gostring) (n : nat) (s : gostring) :
  sample.takenSlug base n s = true <-> collides base (N.of_nat n) s.
Proof.
  unfold sample.takenSlug, collides.
  rewrite orb_true_iff, bool_decide_eq_true, existsb_exists.
  split; (intros [E|E]; [left; exact E | right]).
  - destruct E as (k & Hk & E). apply in_seq in Hk.
    apply bool_decide_eq_true in E. exists (N.of_nat k). split; [lia|exact E].
  - destruct E as (k & Hk & E). exists (N.to_nat k). split.
    + apply in_seq. lia.
    + apply bool_decide_eq_true. rewrite N2Nat.id. exact E.
Qed.

Lemma withTagSlugs_reports (base : gostring) (n : nat) :
  reportsTaken (mocks.handle (sample.withTagSlugs base n)) (fun _ => True)
    TagGetBySlug (collides base (N.of_nat n)).
Proof.
  intros w s _. simpl. split; [exact I|].
  pose proof (takenSlug_collides base n s) as Hiff.
  destruct (sample.takenSlug base n s).
  - split; [eauto|]. intros Hfree. exfalso. apply Hfree, Hiff. reflexivity.
  - split; [|reflexivity]. intros Htaken. apply Hiff in Htaken. discriminate.
Qed.

(** C3 as stated fails at [N = 999]: with [a], [a-1], ..., [a-999] taken,
    and reported as such, the tag service does not return [a-1000]. *)
Lemma generateUniqueSlug_gives_up_at_999 :
  reportsTaken (mocks.handle (sample.withTagSlugs (lit "a") 999)) (fun _ => True)
    TagGetBySlug (collides (lit "a") 999)
  /\ result_of (mocks.handle (sample.withTagSlugs (lit "a") 999))
       (@TagService.generateUniqueSlug asciiCaseTable (lit "a")) 0%nat
     = Err (errors_New "unable to generate unique slug")
  /\ result_of (mocks.handle (sample.withTagSlugs (lit "a") 999))
       (@TagService.generateUniqueSlug asciiCaseTable (lit "a")) 0%nat
     <> Ok (numbered (lit "a") (999 + 1)).
Proof.
  pose proof (withTagSlugs_reports (lit "a") 999) as Hreports.
  change (N.of_nat 999) with 999 in Hreports.
  assert (result_of (mocks.handle (sample.withTagSlugs (lit "a") 999))
            (@TagService.generateUniqueSlug asciiCaseTable (lit "a")) 0%nat
          = Err (errors_New "unable to generate unique slug")) as E.
  { exact (UniqueSlugFacts.loop_gives_up _ _ TagGetBySlug (lit "a") 999 Hreports
             ltac:(lia) 999 0 0%nat ltac:(lia) I). }
  split; [exact Hreports|]. split; [exact E|]. rewrite E. discriminate.
Qed.

Lemma generateUniqueSlug_next_free_witness :
  @utils.GenerateSlug asciiCaseTable (lit "Go!") <> []
  /\ reportsTaken (mocks.handle (sample.withTagSlugs (lit "go") 2)) (fun _ => True)
       TagGetBySlug (collides (lit "go") 2)
  /\ result_of (mocks.handle (sample.withTagSlugs (lit "go") 2))
       (@TagService.generateUniqueSlug asciiCaseTable (lit "Go!")) 0%nat
     = Ok (lit "go-3").
Proof.
  split; [discriminate|].
  split; [exact (withTagSlugs_reports (lit "go") 2)|].
  exact (proj1 (@generateUniqueSlug_next_free asciiCaseTable nat
                  (mocks.handle (sample.withTagSlugs (lit "go") 2))
                  (fun _ => True) 0%nat (lit "Go!") 2
                  ltac:(discriminate) I)
           (withTagSlugs_reports (lit "go") 2)).
Defined.

(** The loop model never runs out of its budget: [generateUniqueSlug]
    returns a slug or one of the program's own errors. *)
Lemma uniqueSlugLoop_total {W T} (h : Handler W)
    (getBySlug : gostring -> Event (Result T)) (base : gostring) :
  forall (fuel : nat) (slug : gostring) (counter : N) (w : W),
    (N.to_nat counter + fuel = 1001)%nat -> (1 <= fuel)%nat ->
    result_of h (uniqueSlugLoop getBySlug fuel base slug counter) w <> Err ErrFuel.
Proof.
  induction fuel as [|fuel IH]; intros slug counter w Hsum Hfuel; [lia|].
  simpl. rewrite result_of_Call.
  destruct (h _ (getBySlug slug) w).1 as [t|err].
  - destruct (N.ltb_spec 1000 (counter + 1)); [discriminate|].
    apply IH; lia.
  - destruct (isRecordNotFound err); discriminate.
Qed.

Lemma generateUniqueSlug_total `{CaseTable} {W} (h : Handler W) (w : W)
    (text : gostring) :
  result_of h (TagService.generateUniqueSlug text) w <> Err ErrFuel
  /\ result_of h (ArticleService.generateUniqueSlug text) w <> Err ErrFuel.
Proof.
  unfold TagService.generateUniqueSlug, ArticleService.generateUniqueSlug.
  destruct (decide (utils.GenerateSlug text = [])); [split; discriminate|].
  split; apply uniqueSlugLoop_total; lia.
Qed.

(** ** Witnesses and counterexamples on the sample data *)

Lemma status_change_idempotent_witness :
  gorm.handle _ (ArticleGetByID 2) sample.blog
  = (Ok sample.published, gorm.step sample.blog)
  /\ AuthorID sample.published = 1
  /\ run gorm.handle (ArticleService.Publish 2 1) sample.blog
     = (Ok sample.published, gorm.step sample.blog, [Called (ArticleGetByID 2)]).
Proof.
  split; [reflexivity|]. split; [reflexivity|].
  exact (proj1 (proj2 (status_change_idempotent gorm.handle sample.blog
                         (gorm.step sample.blog) 2 sample.published
                         eq_refl)) eq_refl).
Defined.

(** C7 as stated fails on kept punctuation: the query [!!!] consists of
    punctuation only, is left as it is by the sanitizer, and is handed to
    the text-search engine. *)
Lemma Search_delegates_kept_punctuation :
  forallb isPunctuation (lit "!!!") = true
  /\ SearchService.sanitizeQuery (lit "!!!") = lit "!!!"
  /\ (exists response,
        result_of (mocks.handle mocks.blank)
          (@SearchService.Search asciiCaseTable
             (Some (sample.search (lit "!!!") [])) 1 10) 0%nat
        = Ok response)
  /\ calls_of (mocks.handle mocks.blank)
       (@SearchService.Search asciiCaseTable
          (Some (sample.search (lit "!!!") [])) 1 10) 0%nat
     = [Called TimeNow;
        Called (ArticleAdvancedSearch (lit "!!!") 0 10
                  (mkSearchFilters [] 0 0 0 zeroTime zeroTime));
        Called TimeNow].
Proof.
  split; [reflexivity|]. split; [reflexivity|].
  split; [eexists; vm_compute; reflexivity | reflexivity].
Qed.

Lemma Search_rejects_unsearchable_witness :
  Forall (fun r => SearchService.perlWord r = false
                   /\ strings.inCutset SearchService.keptPunctuation r = false)
    (lit "@#$ %^&*")
  /\ SearchService.sanitizeQuery (lit "@#$ %^&*") = []
  /\ calls_of (mocks.handle mocks.blank)
       (@SearchService.Search asciiCaseTable
          (Some (sample.search (lit "@#$ %^&*") [])) 1 10) 0%nat
     = [Called TimeNow].
Proof.
  assert (Forall (fun r => SearchService.perlWord r = false
                   /\ strings.inCutset SearchService.keptPunctuation r = false)
            (lit "@#$ %^&*")) as F.
  { repeat (constructor; [split; reflexivity|]). constructor. }
  split; [exact F|].
  pose proof (@Search_rejects_unsearchable asciiCaseTable nat
                (mocks.handle mocks.blank) 0%nat
                (sample.search (lit "@#$ %^&*") []) 1 10 F) as (Hs & _ & Hcalls).
  split; [exact Hs | exact Hcalls].
Defined.



(** C5 as stated fails for large counters: the score of an article with
    [2 ^ 53 + 1] views, no likes and no comments is [2 ^ 53], one less than
    its weighted sum. *)
Lemma popularity_score_rounds_large_counters :
  exists p,
    result_of
      (mocks.handle
         (sample.listing [sample.article 1 StatusPublished None (2 ^ 53 + 1) 0 0]
            sample.frozenClock))
      (StatisticsService.GetPopularArticles 10) 0%nat
    = Ok [p]
    /\ weighted (StatisticsService.ViewCount p) (StatisticsService.LikeCount p)
         (StatisticsService.CommentCount p) = (2 ^ 53 + 1)%Z
    /\ denotes (StatisticsService.Score p) (inject_Z (2 ^ 53))
    /\ ~ denotes (StatisticsService.Score p)
           (inject_Z (weighted (StatisticsService.ViewCount p)
                        (StatisticsService.LikeCount p)
                        (StatisticsService.CommentCount p))).
Proof.
  eexists. split; [vm_compute; reflexivity|].
  split; [reflexivity|]. split; [vm_compute; reflexivity|].
  intros H. vm_compute in H. discriminate H.
Qed.

Lemma popularity_score_witness :
  result_of (mocks.handle (sample.listing [sample.archived; sample.published]
                             sample.frozenClock))
    (StatisticsService.GetPopularArticles 10) 0%nat
  = Ok [StatisticsService.mkPopularArticle 2 (lit "Post 2") (lit "post-2") 10 2 1
          (float64_of_int 21) (gorm.dateUTC 2022 1 1);
        StatisticsService.mkPopularArticle 3 (lit "Post 3") (lit "post-3") 0 0 4
          (float64_of_int 20) (gorm.dateUTC 2022 1 1)].
Proof.
  exact (proj2 (proj2 (proj2 (proj2 (proj2
           (popularity_score
              (mocks.handle (sample.listing [sample.archived; sample.published]
                               sample.frozenClock)) 0%nat 10)))))
           sample.published sample.archived 2%Z 1%nat eq_refl eq_refl
           (or_intror eq_refl)).
Defined.

Lemma ProcessTagNames_one_tag_per_name_witness :
  nameFaithful gorm.handle
  /\ result_of gorm.handle
       (@TagService.ProcessTagNames asciiCaseTable
          [lit "go"; lit "rust"; lit " go "]) sample.blog
     = Ok [mkTag 1 (lit "go") (lit "go"); mkTag 2 (lit "rust") (lit "rust")]
  /\ length (filter (fun t => Tag_Name t = strings.TrimSpace (lit "go"))
               [mkTag 1 (lit "go") (lit "go"); mkTag 2 (lit "rust") (lit "rust")])
     = 1%nat.
Proof.
  split; [exact TagFacts.gorm_nameFaithful|].
  split; [vm_compute; reflexivity|].
  exact (@ProcessTagNames_one_tag_per_name asciiCaseTable World gorm.handle
           sample.blog [lit "go"; lit "rust"; lit " go "] _ 0 2
           (lit "go") (lit " go ") TagFacts.gorm_nameFaithful
           ltac:(vm_compute; reflexivity) ltac:(lia) eq_refl eq_refl eq_refl
           ltac:(discriminate)).
Defined.

(** ** The archive *)

Lemma ascending_Permutation (keys : list Z) : Permutation (sample.ascending keys) keys.
Proof. apply merge_sort_Permutation. Qed.

(** C6: the code at the failing input.  With one article of December 2022
    and one of January 2023 the query returns its rows newest first, but
    the years of the answer come in the order in which [range] visits the
    keys of [yearMap]; Go leaves that order open, and when it is the
    ascending one the archive lists 2022 before 2023. *)
Theorem GetArchive_years_follow_range_order :
  (forall keys, Permutation (sample.ascending keys) keys)
  /\ gorm.archiveQuery (sample.twoYears sample.ascending)
     = [gorm.mkArchiveRow 2023 1 1; gorm.mkArchiveRow 2022 12 1]
  /\ result_of gorm.handle ArchiveService.GetArchive
       (sample.twoYears sample.ascending)
     = Ok (ArchiveService.mkArchiveResponse
             [ArchiveService.mkArchiveYear 2022
                [ArchiveService.mkArchiveEntry 2022 12 (lit "December") 1] 1;
              ArchiveService.mkArchiveYear 2023
                [ArchiveService.mkArchiveEntry 2023 1 (lit "January") 1] 1]
             2).
Proof.
  split; [exact ascending_Permutation|].
  split; vm_compute; reflexivity.
Qed.

(** Within one year the order of the query is kept: the archive of two
    articles of January 2023 and one of February 2023 is the same for every
    order [range] may take. *)
Lemma GetArchive_single_year (rangeOrder : list Z -> list Z) :
  (forall keys, Permutation (rangeOrder keys) keys) ->
  result_of gorm.handle ArchiveService.GetArchive (sample.oneYear rangeOrder)
  = Ok (ArchiveService.mkArchiveResponse
          [ArchiveService.mkArchiveYear 2023
             [ArchiveService.mkArchiveEntry 2023 2 (lit "February") 1;
              ArchiveService.mkArchiveEntry 2023 1 (lit "January") 2] 3]
          3).
Proof.
  intros Hperm.
  unfold ArchiveService.GetArchive.
  rewrite result_of_bind, result_of_call. simpl.
  unfold gorm.query, gorm.articleRepository_GetArchive.
  change (gorm.faulty (sample.oneYear rangeOrder)) with false. simpl.
  unfold gorm.reshapeArchive.
  change (w_rangeOrder (sample.oneYear rangeOrder)) with rangeOrder.
  set (ym := foldl _ _ (gorm.archiveQuery (sample.oneYear rangeOrder))).
  assert (map fst (map_to_list ym) = [2023%Z]) as Hkeys by (vm_compute; reflexivity).
  rewrite Hkeys.
  assert (rangeOrder [2023%Z] = [2023%Z]) as ->.
  { apply Permutation_singleton_r. apply Hperm. }
  vm_compute. reflexivity.
Qed.

(** ** The publication time under the operations of the article service *)

Module StoreFacts.

Lemma keepsStamp_refl (a : Article) : keepsStamp a a.
Proof. repeat split; auto. intros Hnone Hne. contradiction. Qed.

Lemma untouched_settled (w0 w1 : World) :
  wellKeyed w0 -> untouched w0 w1 -> settled w0 w1.
Proof.
  intros Hk [Ha Hn]. unfold settled, wellKeyed, publishedStamped, evolved.
  rewrite Ha, Hn. repeat split.
  - apply (Hk k a H).
  - apply (Hk k a H).
  - auto.
  - intros k a Hka. exists a. split; [exact Hka | apply keepsStamp_refl].
Qed.

Lemma settled_step (w0 w1 : World) : settled w0 w1 -> settled w0 (gorm.step w1).
Proof. intros H. exact H. Qed.

Lemma read_untouched {X} (e : Event X) (w : World) :
  isArticleWrite e = false ->
  w_articles (gorm.handle _ e w).2 = w_articles w
  /\ w_nextArticleID (gorm.handle _ e w).2 = w_nextArticleID w.
Proof.
  destruct e; try discriminate; intros _; simpl; try (split; reflexivity).
  unfold gorm.tagRepository_Create.
  destruct (gorm.faulty w); [split; reflexivity|].
  destruct (hooks.Tag_Validate _ tag); [split; reflexivity|].
  destruct (existsb _ (w_tags w)); split; reflexivity.
Qed.

Lemma Validate_ok (structError : Article -> option error) (now : Time)
    (a a' : Article) :
  hooks.Article_Validate structError now a = (a', None) ->
  ID a' = ID a
  /\ Status a' = Status a
  /\ (Status a' = StatusPublished -> PublishedAt a' <> None)
  /\ (forall t, PublishedAt a = Some t -> PublishedAt a' = Some t)
  /\ (PublishedAt a = None -> PublishedAt a' <> None -> Status a = StatusPublished).
Proof.
  unfold hooks.Article_Validate, hooks.validatePublishedStatus.
  destruct (structError a); [discriminate|].
  destruct (hooks.validateTitle a); [discriminate|].
  destruct (hooks.validateContent a); [discriminate|].
  destruct (decide (Status a = StatusPublished)) as [Hp|Hp].
  - destruct (PublishedAt a) as [t|] eqn:Ep; intros [= <-]; simpl;
      repeat split; auto; try congruence.
  - intros [= <-]. repeat split; auto; try congruence.
Qed.

(** Inserting a validated record under the next key. *)
Lemma insert_settled (w0 w1 : World) (a : Article) :
  settled w0 w1 ->
  ID a = w_nextArticleID w1 ->
  (Status a = StatusPublished -> PublishedAt a <> None) ->
  settled w0 (gorm.step (gorm.with_articles (<[ID a := a]> (w_articles w1))
                           (w_nextArticleID w1 + 1) w1)).
Proof.
  intros (Hk & Hs & He) Hid Hstamp.
  unfold settled, wellKeyed, publishedStamped, evolved. simpl.
  repeat split.
  - destruct (decide (ID a = k)) as [<-|Hne].
    + rewrite lookup_insert_eq in H. congruence.
    + rewrite lookup_insert_ne in H by exact Hne. apply (Hk k a0 H).
  - destruct (decide (ID a = k)) as [<-|Hne].
    + lia.
    + rewrite lookup_insert_ne in H by exact Hne.
      destruct (Hk k a0 H) as [_ Hlt]. lia.
  - intros Hs0 k b Hkb. destruct (decide (ID a = k)) as [<-|Hne].
    + rewrite lookup_insert_eq in Hkb. injection Hkb as <-. exact Hstamp.
    + rewrite lookup_insert_ne in Hkb by exact Hne. apply (Hs Hs0 k b Hkb).
  - intros k b Hkb. destruct (He k b Hkb) as (b' & Hb' & Hkeep).
    exists b'. split; [|exact Hkeep].
    rewrite lookup_insert_ne; [exact Hb'|].
    destruct (Hk k b' Hb') as [_ Hlt]. lia.
Qed.

Lemma create_settled (w0 w1 : World) (a : Article) :
  settled w0 w1 -> settled w0 (gorm.articleRepository_Create a w1).2.
Proof.
  intros Hs. unfold gorm.articleRepository_Create.
  destruct (gorm.faulty w1); [exact Hs|].
  destruct (hooks.Article_Validate _ _ a) as [a' [err|]] eqn:Ev; [exact Hs|].
  destruct (gorm.slugTaken _ w1); [exact Hs|].
  apply Validate_ok in Ev as (_ & _ & Hstamp & _).
  simpl. apply insert_settled; [exact Hs | reflexivity | exact Hstamp].
Qed.

Lemma update_settled (w0 w1 : World) (a0 a : Article) :
  wellKeyed w0 ->
  untouched w0 w1 ->
  w_articles w0 !! ID a0 = Some a0 ->
  keepsStamp a0 a ->
  settled w0 (gorm.articleRepository_Update a w1).2.
Proof.
  intros Hk Hu Ha0 (Hid & Hkeep & Hset).
  pose proof (untouched_settled w0 w1 Hk Hu) as Hs.
  unfold gorm.articleRepository_Update.
  destruct (ID a =? 0); [apply create_settled; exact Hs|].
  destruct (gorm.faulty w1); [exact Hs|].
  destruct (hooks.Article_Validate _ _ a) as [a' [err|]] eqn:Ev; [exact Hs|].
  destruct (gorm.slugTaken _ w1); [exact Hs|].
  apply Validate_ok in Ev as (Hid' & Hst' & Hstamp & Hkeep' & Hset').
  destruct Hu as [Harts Hnext].
  unfold settled, wellKeyed, publishedStamped, evolved. simpl.
  rewrite Harts, Hnext.
  assert (ID a' = ID a0) as Hkey by congruence.
  repeat split.
  - destruct (decide (ID a' = k)) as [<-|Hne].
    + rewrite lookup_insert_eq in H. congruence.
    + rewrite lookup_insert_ne in H by exact Hne. apply (Hk k a1 H).
  - destruct (decide (ID a' = k)) as [<-|Hne].
    + rewrite Hkey. apply (Hk _ _ Ha0).
    + rewrite lookup_insert_ne in H by exact Hne. apply (Hk k a1 H).
  - intros Hs0 k b Hkb. destruct (decide (ID a' = k)) as [<-|Hne].
    + rewrite lookup_insert_eq in Hkb. injection Hkb as <-. exact Hstamp.
    + rewrite lookup_insert_ne in Hkb by exact Hne. apply (Hs0 k b Hkb).
  - intros k b Hkb. destruct (decide (ID a' = k)) as [<-|Hne].
    + exists a'. rewrite lookup_insert_eq. split; [reflexivity|].
      rewrite Hkey, Ha0 in Hkb. injection Hkb as <-.
      repeat split; [exact Hkey | auto |].
      intros Hnone Hsome. rewrite Hst'.
      destruct (PublishedAt a) as [t|] eqn:Ep.
      * apply Hset; [exact Hnone | discriminate].
      * apply Hset'; [reflexivity | exact Hsome].
    + exists b. rewrite lookup_insert_ne by exact Hne.
      split; [exact Hkb | apply keepsStamp_refl].
Qed.

(** Soundness of [safe]: whatever the store answers, the article table
    ends up [settled]. *)
Lemma safe_sound {R} (mode : Mode) (p : Prog R) :
  safe mode p ->
  forall w0 w1, wellKeyed w0 -> holds mode w0 w1 ->
    settled w0 (state_of gorm.handle p w1).
Proof.
  induction 1 as [mode r | mode X e k He _ IH | id k _ IHok _ IHerr
                 | mode a k _ IH | a0 a k Hkeep _ IH];
    intros w0 w1 Hk Hmode.
  - unfold state_of. simpl.
    destruct mode; simpl in Hmode.
    + apply untouched_settled; assumption.
    + apply untouched_settled; [assumption | apply Hmode].
    + exact Hmode.
  - rewrite state_of_Call. apply IH; [exact Hk|].
    destruct (read_untouched e w1 He) as [Ha Hn].
    destruct mode; simpl in *.
    + destruct Hmode as [Ha' Hn']. split; congruence.
    + destruct Hmode as [[Ha' Hn'] Ht]. repeat split; congruence.
    + destruct Hmode as (Hk1 & Hs1 & He1).
      unfold settled, wellKeyed, publishedStamped, evolved.
      rewrite Ha, Hn. repeat split; auto; apply (Hk1 k0 a H).
  - rewrite state_of_Call. simpl in Hmode. destruct Hmode as [Ha Hn].
    simpl. unfold gorm.query. simpl.
    destruct (gorm.faulty w1); [apply IHerr; [exact Hk | split; assumption]|].
    unfold gorm.articleRepository_GetByID.
    destruct (w_articles w1 !! id) as [a0|] eqn:Eget;
      [|apply IHerr; [exact Hk | split; assumption]].
    destruct (gorm.live a0); [|apply IHerr; [exact Hk | split; assumption]].
    apply IHok; [exact Hk|]. simpl. split; [split; assumption|].
    rewrite Ha in Eget. destruct (Hk id a0 Eget) as [-> _]. exact Eget.
  - rewrite state_of_Call. apply IH; [exact Hk|]. simpl.
    apply create_settled.
    destruct mode; simpl in Hmode.
    + apply untouched_settled; assumption.
    + apply untouched_settled; [assumption | apply Hmode].
    + exact Hmode.
  - rewrite state_of_Call. apply IH; [exact Hk|]. simpl.
    destruct Hmode as [Hu Ht].
    eapply update_settled; eassumption.
Qed.

End StoreFacts.

Module ProgramFacts.

Lemma quiet_weaken {R} (Q Q' : R -> Prop) (p : Prog R) :
  quiet Q p -> (forall r, Q r -> Q' r) -> quiet Q' p.
Proof.
  intros Hq Himp. induction Hq as [r Hr | X e k He _ IH].
  - apply quiet_Ret. auto.
  - apply quiet_Call; [exact He | exact IH].
Qed.

Lemma quiet_bind {A B} (Q1 : A -> Prop) (Q2 : B -> Prop)
    (m : Prog A) (f : A -> Prog B) :
  quiet Q1 m -> (forall a, Q1 a -> quiet Q2 (f a)) -> quiet Q2 (bind m f).
Proof.
  intros Hq Hf. induction Hq as [r Hr | X e k He _ IH]; simpl.
  - apply Hf. exact Hr.
  - apply quiet_Call; [exact He | exact IH].
Qed.

Lemma safe_bind {A B} (Q1 : A -> Prop) (mode : Mode)
    (m : Prog A) (f : A -> Prog B) :
  quiet Q1 m -> (forall a, Q1 a -> safe mode (f a)) -> safe mode (bind m f).
Proof.
  intros Hq Hf. induction Hq as [r Hr | X e k He _ IH]; simpl.
  - apply Hf. exact Hr.
  - apply safe_read; [exact He | exact IH].
Qed.

Lemma safe_bindOk {A B} (J : A -> Prop) (mode : Mode)
    (m : Prog (Result A)) (f : A -> Prog (Result B)) :
  quiet (okAnd J) m -> (forall a, J a -> safe mode (f a)) ->
  safe mode (bindOk m f).
Proof.
  intros Hq Hf. unfold bindOk. apply (safe_bind (okAnd J)); [exact Hq|].
  intros [a|err] Hr; [apply Hf; exact Hr | apply safe_Ret].
Qed.

Lemma quiet_uniqueSlugLoop {T} (getBySlug : gostring -> Event (Result T))
    (Hread : forall s, isArticleWrite (getBySlug s) = false)
    (fuel : nat) (base slug : gostring) (counter : N) :
  quiet (fun _ => True) (uniqueSlugLoop getBySlug fuel base slug counter).
Proof.
  revert slug counter. induction fuel as [|fuel IH]; intros slug counter; simpl.
  - apply quiet_Ret. exact I.
  - apply quiet_Call; [apply Hread|]. intros [t|err].
    + destruct (1000 <? counter + 1); [apply quiet_Ret; exact I | apply IH].
    + destruct (isRecordNotFound err); apply quiet_Ret; exact I.
Qed.

Ltac quiet_auto :=
  repeat (cbn [bind call bindOk nilDereference];
          match goal with
          | |- quiet _ (Ret _) => apply quiet_Ret; first [exact I | simpl; exact I]
          | |- quiet _ nilDereference => unfold nilDereference
          | |- quiet _ (Call _ _) => apply quiet_Call; [reflexivity | intros ?]
          | |- quiet _ (uniqueSlugLoop _ _ _ _ _) =>
              apply quiet_uniqueSlugLoop; intros ?; reflexivity
          | |- quiet _ (bind _ _) =>
              apply (quiet_bind (fun _ => True)); [ | intros ? _ ]
          | |- quiet _ (match ?x with _ => _ end) => destruct x
          end).

Section WithTable.
Context `{CaseTable}.

Lemma quiet_tag_generateUniqueSlug (name : gostring) :
  quiet (fun _ => True) (TagService.generateUniqueSlug name).
Proof. unfold TagService.generateUniqueSlug. quiet_auto. Qed.

Lemma quiet_article_generateUniqueSlug (title : gostring) :
  quiet (fun _ => True) (ArticleService.generateUniqueSlug title).
Proof. unfold ArticleService.generateUniqueSlug. quiet_auto. Qed.

Lemma quiet_tag_Create (req : option TagService.CreateTagRequest) :
  quiet (fun _ => True) (TagService.Create req).
Proof.
  unfold TagService.Create. quiet_auto.
  all: apply quiet_tag_generateUniqueSlug.
Qed.

Lemma quiet_FindOrCreateByName (name : gostring) :
  quiet (fun _ => True) (TagService.FindOrCreateByName name).
Proof.
  unfold TagService.FindOrCreateByName. quiet_auto.
  all: apply quiet_tag_Create.
Qed.

Lemma quiet_processLoop (tagNames : list gostring) :
  forall tags processed,
    quiet (fun _ => True) (TagService.processLoop tagNames tags processed).
Proof.
  induction tagNames as [|raw rest IH]; intros tags processed; simpl.
  - apply quiet_Ret. exact I.
  - destruct (decide _); [apply IH|].
    destruct (default false _); [apply IH|].
    apply (quiet_bind (fun _ => True)); [apply quiet_FindOrCreateByName|].
    intros [tag|err] _; [apply IH | apply quiet_Ret; exact I].
Qed.

Lemma quiet_processTagNames (tagNames : list gostring) :
  quiet (fun _ => True) (ArticleService.processTagNames tagNames).
Proof. apply quiet_processLoop. Qed.

End WithTable.

End ProgramFacts.

Module OperationFacts.
Import ProgramFacts.

Lemma keepsStamp_set_Status (a0 : Article) (status : ArticleStatus) :
  PublishedAt a0 <> None \/ status <> StatusPublished ->
  keepsStamp a0 (set_Status status a0).
Proof.
  intros Hcase. repeat split; simpl; auto.
  intros Hnone Hsome. contradiction.
Qed.

Lemma safe_changeStatus (id authorID : N) (status : ArticleStatus) :
  safe Fresh (ArticleService.changeStatus id authorID status).
Proof.
  unfold ArticleService.changeStatus. cbn [bind call].
  apply safe_get; [|intros err; apply safe_Ret].
  intros a0. destruct (negb _); [apply safe_Ret|].
  destruct (decide (Status a0 = status)); [apply safe_Ret|].
  destruct (decide (status = StatusPublished)) as [->|Hnp].
  - change (PublishedAt (set_Status StatusPublished a0)) with (PublishedAt a0).
    destruct (PublishedAt a0) as [t|] eqn:Ep; cbn [bind call].
    + apply safe_update.
      * repeat split; simpl; auto; intros; congruence.
      * intros [saved [err|]]; apply safe_Ret.
    + apply safe_read; [reflexivity|]. intros now. cbn [bind].
      apply safe_update.
      * repeat split; simpl; auto; intros; congruence.
      * intros [saved [err|]]; apply safe_Ret.
  - cbn [bind call]. apply safe_update.
    + repeat split; simpl; auto; intros; contradiction.
    + intros [saved [err|]]; apply safe_Ret.
Qed.

Ltac safe_auto :=
  repeat (cbn [bind call nilDereference];
          match goal with
          | |- safe _ (Ret _) => apply safe_Ret
          | |- safe _ nilDereference => unfold nilDereference
          | |- safe _ (Call (ArticleCreate _) _) => apply safe_create; intros ?
          | |- safe _ (Call _ _) => apply safe_read; [reflexivity | intros ?]
          | |- safe _ (bindOk _ _) =>
              apply (safe_bindOk (fun _ => True)); [ | intros ? _ ]
          | |- safe _ (bind _ _) =>
              apply (safe_bind (fun _ => True)); [ | intros ? _ ]
          | |- safe _ (match ?x with _ => _ end) => destruct x
          end).

Section WithTable.
Context `{CaseTable}.

Lemma safe_Create (authorID : N)
    (req : option ArticleService.CreateArticleRequest) :
  safe Fresh (ArticleService.Create authorID req).
Proof.
  unfold ArticleService.Create. safe_auto.
  all: quiet_auto.
  all: first [ apply quiet_article_generateUniqueSlug
             | apply quiet_processTagNames ].
Qed.

Lemma safe_Update (id authorID : N)
    (req : option ArticleService.UpdateArticleRequest) :
  safe Fresh (ArticleService.Update id authorID req).
Proof.
  unfold ArticleService.Update.
  destruct (ArticleService.validateUpdateRequest req); [apply safe_Ret|].
  destruct req as [req|]; [|apply safe_Ret].
  cbn [bind call]. apply safe_get; [|intros; apply safe_Ret].
  intros a0. destruct (negb _); [apply safe_Ret|].
  apply (safe_bindOk (sameStamp a0)).
  { destruct (_ && _).
    - apply (quiet_bind (fun _ => True));
        [apply quiet_article_generateUniqueSlug|].
      intros [slug|err] _; apply quiet_Ret; simpl;
        [split; reflexivity | exact I].
    - apply quiet_Ret. split; reflexivity. }
  intros [article updated] [Hid Hpa]. simpl in Hid, Hpa.
  (* content and excerpt *)
  set (st1 := if _ && _ then (set_Content _ article, true) else _).
  assert (sameStamp a0 st1) as [Hid1 Hpa1]
    by (unfold st1; destruct (_ && _); split; simpl; assumption).
  clearbody st1. destruct st1 as [article1 updated1]. simpl in Hid1, Hpa1.
  set (st2 := if negb _ then (set_Excerpt _ article1, true) else _).
  assert (sameStamp a0 st2) as [Hid2 Hpa2]
    by (unfold st2; destruct (negb _); split; simpl; assumption).
  clearbody st2. destruct st2 as [article2 updated2]. simpl in Hid2, Hpa2.
  (* category *)
  apply (safe_bindOk (sameStamp a0)).
  { destruct (ArticleService.u_CategoryID req) as [reqCategory|];
      [|apply quiet_Ret; split; assumption].
    destruct (match CategoryID article2 with Some _ => _ | None => _ end);
      [|apply quiet_Ret; split; assumption].
    destruct (reqCategory =? 0); [apply quiet_Ret; split; assumption|].
    apply quiet_Call; [reflexivity|].
    intros [category|err]; apply quiet_Ret; [split; assumption | exact I]. }
  intros [article3 updated3] [Hid3 Hpa3]. simpl in Hid3, Hpa3.
  (* status *)
  apply (safe_bind (fun st => keepsStamp a0 st.1)).
  { destruct (_ && _).
    - apply (quiet_bind (keepsStamp a0)); [|intros a Ha; apply quiet_Ret; exact Ha].
      destruct (_ && _) eqn:Epub.
      + change (PublishedAt (set_Status (ArticleService.u_Status req) article3))
          with (PublishedAt article3).
        destruct (PublishedAt article3) as [t|] eqn:Ep3.
        * apply quiet_Ret. repeat split; simpl; auto; intros; congruence.
        * apply quiet_Call; [reflexivity|]. intros now. apply quiet_Ret.
          apply andb_true_iff in Epub as [Epub _].
          apply bool_decide_eq_true in Epub. simpl in Epub.
          repeat split; simpl; auto; intros; congruence.
      + apply quiet_Ret. repeat split; simpl; auto; intros; congruence.
    - apply quiet_Ret. repeat split; simpl; auto; intros; congruence. }
  intros [article4 updated4] Hkeep4. simpl in Hkeep4.
  (* tags *)
  apply (safe_bindOk (fun st => keepsStamp a0 st.1)).
  { destruct (ArticleService.u_TagNames req) as [tagNames|];
      [|apply quiet_Ret; exact Hkeep4].
    apply (quiet_bind (fun _ => True)); [apply quiet_processTagNames|].
    intros [tags|err] _; apply quiet_Ret; [exact Hkeep4 | exact I]. }
  intros [article5 updated5] Hkeep5. simpl in Hkeep5.
  destruct (negb updated5); [apply safe_Ret|].
  apply safe_update; [exact Hkeep5|].
  intros [saved [err|]]; apply safe_Ret.
Qed.

Lemma safe_perform (op : Op) : safe Fresh (perform op).
Proof.
  destruct op; simpl.
  - apply safe_Create.
  - apply safe_Update.
  - apply safe_changeStatus.
  - apply safe_changeStatus.
  - apply safe_changeStatus.
Qed.

End WithTable.

End OperationFacts.

Lemma perform_settled `{CaseTable} (op : Op) (w : World) :
  wellKeyed w -> settled w (state_of gorm.handle (perform op) w).
Proof.
  intros Hk.
  apply (StoreFacts.safe_sound Fresh _ (OperationFacts.safe_perform op) w w Hk).
  split; reflexivity.
Qed.

Lemma performAll_snoc `{CaseTable} (ops : list Op) (op : Op) (w : World) :
  performAll (ops ++ [op]) w
  = state_of gorm.handle (perform op) (performAll ops w).
Proof. unfold performAll. rewrite foldl_app. reflexivity. Qed.

Lemma performAll_settled `{CaseTable} (ops : list Op) :
  forall w : World,
    wellKeyed w ->
    wellKeyed (performAll ops w)
    /\ (publishedStamped w -> publishedStamped (performAll ops w))
    /\ (forall k a t, w_articles w !! k = Some a -> PublishedAt a = Some t ->
          exists a', w_articles (performAll ops w) !! k = Some a'
                     /\ PublishedAt a' = Some t).
Proof.
  induction ops as [|op ops IH]; intros w Hk.
  - simpl. split; [exact Hk|]. split; [auto|].
    intros k a t Hka Ht. exists a. auto.
  - destruct (perform_settled op w Hk) as (Hk1 & Hs1 & He1).
    destruct (IH _ Hk1) as (Hk2 & Hs2 & Hr2).
    change (performAll (op :: ops) w)
      with (performAll ops (state_of gorm.handle (perform op) w)).
    split; [exact Hk2|]. split; [auto|].
    intros k a t Hka Ht.
    destruct (He1 k a Hka) as (a1 & Hka1 & _ & Hkeep & _).
    exact (Hr2 k a1 t Hka1 (Hkeep t Ht)).
Qed.


Lemma sample_wellKeyed : wellKeyed sample.blog.
Proof.
  assert (map_Forall (fun k a => ID a = k /\ k < w_nextArticleID sample.blog)
            (w_articles sample.blog)) as F.
  { refine (bool_decide_unpack _ _). vm_compute. exact I. }
  intros k a Hka. exact (F k a Hka).
Defined.

Lemma sample_publishedStamped : publishedStamped sample.blog.
Proof.
  assert (map_Forall (fun k a => Status a = StatusPublished -> PublishedAt a <> None)
            (w_articles sample.blog)) as F.
  { refine (bool_decide_unpack _ _). vm_compute. exact I. }
  intros k a Hka. exact (F k a Hka).
Defined.


Lemma GenerateSlug_wellformed_witness :
  Forall (fun r => unicode_IsSpace r = true) (lit "   ")
  /\ @utils.GenerateSlug asciiCaseTable (lit "   ") = [].
Proof.
  assert (Forall (fun r => unicode_IsSpace r = true) (lit "   ")) as F
    by (repeat constructor).
  split; [exact F|].
  exact (proj2 (proj2 (proj2 (proj2
           (@GenerateSlug_wellformed asciiCaseTable (lit "   "))))) F).
Defined.

(* ===================================================================== *)
(** * Further properties of the code *)
(* ===================================================================== *)

(** ** The slug generator, continued *)

Module SlugPrefix.
Import utils.

Section WithTable.
Context `{CaseTable}.

Lemma GenerateSlug_prefix text :
  exists suf, trimmed text = GenerateSlug text ++ suf.
Proof.
  rewrite SlugFacts.GenerateSlug_unfold.
  destruct (100 <? len (trimmed text)).
  - unfold strings.TrimSuffix.
    destruct (strings.HasSuffix _ _).
    + rewrite take_take.
      eexists. symmetry. apply take_drop.
    + eexists. symmetry. apply take_drop.
  - exists []. symmetry. apply app_nil_r.
Qed.

Lemma GenerateSlug_noDouble text : noDoubleHyphen (GenerateSlug text).
Proof.
  destruct (GenerateSlug_prefix text) as [suf E].
  pose proof (SlugFacts.trimmed_noDouble text) as Hn. rewrite E in Hn.
  exact (SlugFacts.noDoubleHyphen_app_l _ _ Hn).
Qed.

End WithTable.
End SlugPrefix.

Module SlugFixedPoint.
Import utils.

Lemma slugChar_cases r :
  slugChar r = true -> (isSlugAlnum r = true /\ r <> hyphen) \/ (r = hyphen).
Proof.
  unfold slugChar. intros Hr. apply orb_true_iff in Hr as [Hr|Hr].
  - left. split; [exact Hr|]. intros ->. discriminate.
  - right. apply N.eqb_eq in Hr. exact Hr.
Qed.

Lemma replaceRuns_id b s :
  Forall (fun r => slugChar r = true) s ->
  noDoubleHyphen s ->
  (b = true -> head s <> Some hyphen) ->
  replaceRuns b s = s.
Proof.
  intros F. revert b. induction F as [|r t Hr _ IH]; intros b Hn Hb; [reflexivity|].
  simpl in *. destruct Hn as [Hn1 Hn2].
  destruct (slugChar_cases r Hr) as [[Ha _]| ->].
  - rewrite Ha. f_equal. apply IH; [exact Hn2 | discriminate].
  - rewrite SlugFacts.hyphen_not_alnum.
    destruct b; [exfalso; apply Hb; reflexivity|].
    f_equal. apply IH; [exact Hn2 | intros _; apply Hn1; reflexivity].
Qed.

Section WithTable.
Context `{CaseTable}.

Lemma toLowerRune_slugChar r : slugChar r = true -> strings.toLowerRune r = r.
Proof.
  intros Hr. unfold strings.toLowerRune.
  assert (r <= 122) as Hle.
  { destruct (slugChar_cases r Hr) as [[Ha _]| ->]; [|unfold hyphen; lia].
    unfold isSlugAlnum, in_range in Ha.
    apply orb_true_iff in Ha as [Ha|Ha]; apply andb_true_iff in Ha as [_ Ha];
      apply N.leb_le in Ha; lia. }
  destruct (N.leb_spec r 127); [|lia].
  destruct (in_range 65 90 r) eqn:Eu; [|reflexivity].
  exfalso. unfold in_range in Eu. apply andb_true_iff in Eu as [E1 E2].
  apply N.leb_le in E1, E2.
  destruct (slugChar_cases r Hr) as [[Ha _]| ->]; [|unfold hyphen in *; lia].
  unfold isSlugAlnum, in_range in Ha.
  apply orb_true_iff in Ha as [Ha|Ha]; apply andb_true_iff in Ha as [Ha1 Ha2];
    apply N.leb_le in Ha1, Ha2; lia.
Qed.

Lemma ToLower_slug s :
  Forall (fun r => slugChar r = true) s -> strings.ToLower s = s.
Proof.
  induction 1 as [|r t Hr _ IH]; [reflexivity|].
  unfold strings.ToLower in *. simpl. rewrite IH, (toLowerRune_slugChar r Hr).
  reflexivity.
Qed.

(** A string in the shape of a slug is left as it is. *)
Lemma GenerateSlug_fixed s :
  Forall (fun r => slugChar r = true) s ->
  head s <> Some hyphen ->
  last s <> Some hyphen ->
  noDoubleHyphen s ->
  (length s <= 100)%nat ->
  GenerateSlug s = s.
Proof.
  intros Hc Hh Hl Hn Hlen.
  assert (trimmed s = s) as Et.
  { unfold trimmed. rewrite (ToLower_slug s Hc).
    rewrite (replaceRuns_id false s Hc Hn) by discriminate.
    unfold strings.Trim. rewrite (TagFacts.dropWhile_id _ s).
    - apply TagFacts.dropWhileEnd_id. intros x Hx.
      rewrite SlugFacts.inCutset_hyphen. apply N.eqb_neq. congruence.
    - intros x Hx. rewrite SlugFacts.inCutset_hyphen. apply N.eqb_neq. congruence. }
  rewrite SlugFacts.GenerateSlug_unfold, Et, (SlugFacts.ascii_len s Hc).
  destruct (N.ltb_spec 100 (N.of_nat (length s))); [lia | reflexivity].
Qed.

Lemma GenerateSlug_shape text :
  Forall (fun r => slugChar r = true) (GenerateSlug text)
  /\ head (GenerateSlug text) <> Some hyphen
  /\ last (GenerateSlug text) <> Some hyphen
  /\ (length (GenerateSlug text) <= 100)%nat.
Proof.
  pose proof (SlugFacts.trimmed_chars text) as Hc.
  pose proof (SlugFacts.trimmed_noDouble text) as Hn.
  pose proof (SlugFacts.trimmed_head text) as Hh.
  pose proof (SlugFacts.trimmed_last text) as Hl.
  destruct (SlugPrefix.GenerateSlug_prefix text) as [suf E].
  assert (Forall (fun r => slugChar r = true) (GenerateSlug text)) as Hc'.
  { rewrite E in Hc. apply Forall_app in Hc as [Hc _]. exact Hc. }
  split; [exact Hc'|]. split.
  { intros Hg. apply Hh. rewrite E.
    destruct (GenerateSlug text); [discriminate | exact Hg]. }
  revert E Hc'. rewrite SlugFacts.GenerateSlug_unfold.
  rewrite (SlugFacts.ascii_len _ Hc).
  set (t := trimmed text) in *.
  destruct (N.ltb_spec 100 (N.of_nat (length t))) as [Hlong|Hshort].
  - intros _ _.
    assert (length (take 100 t) = 100%nat) as Hu by (rewrite length_take; lia).
    unfold strings.TrimSuffix.
    destruct (strings.HasSuffix (take 100 t) (lit "-")) eqn:Esuf.
    + apply SlugFacts.HasSuffix_hyphen in Esuf.
      rewrite last_lookup, Hu, lookup_take_lt in Esuf by lia. simpl in Esuf.
      rewrite Hu. change (length (lit "-")) with 1%nat.
      rewrite take_take. change (Init.Nat.min (100 - 1) 100) with 99%nat.
      split; [|rewrite length_take; lia].
      rewrite last_lookup, length_take, lookup_take_lt by lia.
      replace (Init.Nat.pred (Init.Nat.min 99 (length t))) with 98%nat by lia.
      intros H98. exact (SlugFacts.noDoubleHyphen_lookup t 98 Hn H98 Esuf).
    + split; [|lia].
      intros Hlast. apply SlugFacts.HasSuffix_hyphen in Hlast. congruence.
  - intros _ _. split; [exact Hl | lia].
Qed.

End WithTable.
End SlugFixedPoint.

(** X1.  Generating a slug from a slug gives the same slug: [GenerateSlug]
    is idempotent. *)
Theorem GenerateSlug_idempotent `{CaseTable} (text : gostring) :
  utils.GenerateSlug (utils.GenerateSlug text) = utils.GenerateSlug text.
Proof.
  destruct (SlugFixedPoint.GenerateSlug_shape text) as (Hc & Hh & Hl & Hlen).
  apply SlugFixedPoint.GenerateSlug_fixed; try assumption.
  apply SlugPrefix.GenerateSlug_noDouble.
Qed.

(** X2.  A slug never holds two hyphens in a row: every run of characters
    outside [[a-z0-9]] has become a single hyphen, also after the cut at 100
    bytes. *)
Theorem GenerateSlug_single_hyphens `{CaseTable} (text : gostring) (i : nat) :
  utils.GenerateSlug text !! i = Some hyphen ->
  utils.GenerateSlug text !! (S i) <> Some hyphen.
Proof.
  apply SlugFacts.noDoubleHyphen_lookup, SlugPrefix.GenerateSlug_noDouble.
Qed.

Lemma GenerateSlug_single_hyphens_witness :
  @utils.GenerateSlug asciiCaseTable (lit "a -- b") !! 1%nat = Some hyphen
  /\ @utils.GenerateSlug asciiCaseTable (lit "a -- b") !! 2%nat <> Some hyphen.
Proof.
  split; [reflexivity|].
  exact (@GenerateSlug_single_hyphens asciiCaseTable (lit "a -- b") 1 eq_refl).
Defined.

(** X3.  The validator of slug fields, [validateSlug], accepts every slug
    that [GenerateSlug] returns except the empty one. *)
Theorem GenerateSlug_passes_validateSlug `{CaseTable} (text : gostring) :
  validation.validateSlug (utils.GenerateSlug text)
  = negb (bool_decide (utils.GenerateSlug text = [])).
Proof.
  destruct (SlugFixedPoint.GenerateSlug_shape text) as (Hc & _).
  unfold validation.validateSlug. rewrite (SlugFacts.ascii_len _ Hc).
  destruct (utils.GenerateSlug text) as [|r t] eqn:E; [reflexivity|].
  rewrite <- E in *.
  assert ((N.of_nat (length (utils.GenerateSlug text)) =? 0) = false) as ->.
  { rewrite E. reflexivity. }
  rewrite bool_decide_eq_false_2 by (rewrite E; discriminate).
  simpl negb. apply forallb_forall. intros x Hx.
  rewrite Forall_forall in Hc. apply Hc. apply list_elem_of_In. exact Hx.
Qed.

(** ** The error helpers of package database *)

Module DatabaseFacts.
Import database.

Section Bytes.
Context {B : Type} `{EqDecision B}.

Lemma containsAt_spec (s substr : list B) :
  containsAt s substr = true <-> exists pre post, s = pre ++ substr ++ post.
Proof.
  unfold containsAt. split.
  - destruct (Nat.ltb_spec (length s) (length substr)); [discriminate|].
    intros Hex. apply existsb_exists in Hex as (i & _ & Hi).
    apply bool_decide_eq_true in Hi.
    exists (take i s), (drop (length substr) (drop i s)).
    rewrite <- Hi at 1. rewrite take_drop, take_drop. reflexivity.
  - intros (pre & post & ->).
    rewrite !length_app.
    destruct (Nat.ltb_spec (length pre + (length substr + length post))
                (length substr)); [lia|].
    apply existsb_exists. exists (length pre). split.
    + apply in_seq. lia.
    + apply bool_decide_eq_true.
      rewrite drop_app_length, take_app_length. reflexivity.
Qed.

Lemma contains_spec (s substr : list B) :
  contains s substr = true <-> exists pre post, s = pre ++ substr ++ post.
Proof.
  unfold contains. split.
  - intros Hc. apply andb_true_iff in Hc as [_ Hc].
    apply orb_true_iff in Hc as [Hc|Hc].
    + apply bool_decide_eq_true in Hc as ->. exists [], [].
      rewrite app_nil_r. reflexivity.
    + apply andb_true_iff in Hc as [_ Hc].
      apply orb_true_iff in Hc as [Hc|Hc]; [|apply containsAt_spec; exact Hc].
      apply orb_true_iff in Hc as [Hc|Hc]; apply bool_decide_eq_true in Hc.
      * exists [], (drop (length substr) s). simpl.
        rewrite <- Hc at 1. symmetry. apply take_drop.
      * exists (take (length s - length substr) s), [].
        rewrite app_nil_r. rewrite <- Hc at 2. symmetry. apply take_drop.
  - intros Hex. pose proof Hex as (pre & post & E).
    assert (length s = (length pre + (length substr + length post))%nat) as Hlen
      by (rewrite E, !length_app; reflexivity).
    apply andb_true_iff. split; [apply Nat.leb_le; lia|].
    destruct (Nat.ltb_spec (length substr) (length s)) as [Hlt|Hge].
    + apply orb_true_iff. right. simpl.
      apply orb_true_iff. right. apply containsAt_spec. exact Hex.
    + apply orb_true_iff. left. apply bool_decide_eq_true.
      destruct pre; [|simpl in Hlen; lia].
      destruct post; [|simpl in Hlen; lia].
      rewrite E, app_nil_r. reflexivity.
Qed.

End Bytes.
End DatabaseFacts.

(** X4.  [contains] and [containsAt] decide whether [substr] occurs in [s]
    as a contiguous piece, byte for byte (so with the case of the letters
    as it is). *)
Theorem contains_iff_substring {B : Type} `{EqDecision B} (s substr : list B) :
  (database.contains s substr = true
   <-> exists pre post, s = pre ++ substr ++ post)
  /\ (database.containsAt s substr = true
      <-> exists pre post, s = pre ++ substr ++ post).
Proof.
  split; [apply DatabaseFacts.contains_spec | apply DatabaseFacts.containsAt_spec].
Qed.

(** X5.  [IsDuplicateEntry] holds exactly of the errors whose text holds
    [Duplicate entry] or [duplicate key], spelled in this way; of a nil
    error it is false. *)
Theorem IsDuplicateEntry_iff (err : option gostring) :
  database.IsDuplicateEntry err = true
  <-> exists text pre post,
        err = Some text
        /\ (text = pre ++ lit "Duplicate entry" ++ post
            \/ text = pre ++ lit "duplicate key" ++ post).
Proof.
  unfold database.IsDuplicateEntry. destruct err as [text|].
  - rewrite orb_true_iff, !DatabaseFacts.contains_spec. split.
    + intros [(pre & post & E)|(pre & post & E)];
        exists text, pre, post; auto.
    + intros (text' & pre & post & [= <-] & [E|E]); [left|right];
        exists pre, post; exact E.
  - split; [discriminate|]. intros (text & pre & post & E & _). discriminate.
Qed.

(** ** The search service, continued *)

Module SanitizeFacts.
Import SearchService.

Lemma TrimSpace_head (s : gostring) (r : rune) :
  head (strings.TrimSpace s) = Some r -> unicode_IsSpace r = false.
Proof.
  unfold strings.TrimSpace. intros Hh.
  apply dropWhileEnd_head in Hh. exact (dropWhile_head _ _ _ Hh).
Qed.

Lemma TrimSpace_last (s : gostring) (r : rune) :
  last (strings.TrimSpace s) = Some r -> unicode_IsSpace r = false.
Proof. unfold strings.TrimSpace. apply dropWhileEnd_last. Qed.

Lemma sanitizeQuery_runes (query : gostring) :
  Forall (fun r => r = space
                   \/ perlWord r = true
                   \/ strings.inCutset keptPunctuation r = true)
    (sanitizeQuery query).
Proof.
  unfold sanitizeQuery. apply SearchFacts.Forall_TrimSpace.
  apply List.Forall_forall. intros r Hr.
  pose proof (SearchFacts.replaceClassRuns_runes (fun r => negb (allowed r)) false
                (replaceClassRuns perlSpace false (strings.TrimSpace query))) as F3.
  rewrite List.Forall_forall in F3.
  destruct (F3 r Hr) as [->|[Hallowed Hin]]; [left; reflexivity|].
  apply negb_false_iff in Hallowed.
  pose proof (SearchFacts.replaceClassRuns_runes perlSpace false
                (strings.TrimSpace query)) as F2.
  rewrite List.Forall_forall in F2.
  destruct (F2 r Hin) as [->|[Hns _]]; [left; reflexivity|].
  right. unfold allowed in Hallowed. rewrite Hns, orb_false_r in Hallowed.
  apply orb_true_iff in Hallowed. exact Hallowed.
Qed.

End SanitizeFacts.

(** X6.  A sanitized query holds nothing but ASCII letters, digits, the
    underscore, single-space separators and the punctuation marks the
    sanitizer keeps, and it neither starts nor ends with white space. *)
Theorem sanitizeQuery_alphabet (query : gostring) :
  Forall (fun r => r = space
                   \/ SearchService.perlWord r = true
                   \/ strings.inCutset SearchService.keptPunctuation r = true)
    (SearchService.sanitizeQuery query)
  /\ (forall r, head (SearchService.sanitizeQuery query) = Some r ->
                unicode_IsSpace r = false)
  /\ (forall r, last (SearchService.sanitizeQuery query) = Some r ->
                unicode_IsSpace r = false).
Proof.
  split; [apply SanitizeFacts.sanitizeQuery_runes|].
  split; intros r; [apply SanitizeFacts.TrimSpace_head
                   | apply SanitizeFacts.TrimSpace_last].
Qed.

Module BooleanQueryFacts.
Import SearchService.

Lemma fieldsFrom_fields (cur s : gostring) :
  Forall (fun r => unicode_IsSpace r = false) cur ->
  Forall (fun f => f <> [] /\ Forall (fun r => unicode_IsSpace r = false) f)
    (strings.fieldsFrom cur s).
Proof.
  revert cur. induction s as [|r t IH]; intros cur Hcur; simpl.
  - destruct cur as [|c cs]; [constructor|].
    constructor; [|constructor]. split.
    + intros E. apply (f_equal length) in E.
      rewrite length_reverse in E. discriminate.
    + apply Forall_reverse. exact Hcur.
  - destruct (unicode_IsSpace r) eqn:Es.
    + destruct cur as [|c cs]; [apply IH; constructor|].
      constructor; [|apply IH; constructor]. split.
      * intros E. apply (f_equal length) in E.
        rewrite length_reverse in E. discriminate.
      * apply Forall_reverse. exact Hcur.
    + apply IH. constructor; assumption.
Qed.

Lemma Trim_head (s cutset : gostring) (r : rune) :
  head (strings.Trim s cutset) = Some r -> strings.inCutset cutset r = false.
Proof.
  unfold strings.Trim. intros Hh.
  apply dropWhileEnd_head in Hh. exact (dropWhile_head _ _ _ Hh).
Qed.

Lemma Trim_last (s cutset : gostring) (r : rune) :
  last (strings.Trim s cutset) = Some r -> strings.inCutset cutset r = false.
Proof. unfold strings.Trim. apply dropWhileEnd_last. Qed.

Lemma Forall_Trim (P : rune -> Prop) (s cutset : gostring) :
  Forall P s -> Forall P (strings.Trim s cutset).
Proof.
  intros F. unfold strings.Trim.
  destruct (trim_both_split (strings.inCutset cutset) s) as (pre & suf & E).
  rewrite E in F. apply Forall_app in F as [_ F].
  apply Forall_app in F as [F _]. exact F.
Qed.

Lemma terms_loop (all words booleanTerms : list gostring) :
  (forall word, In word words -> In word all) ->
  Forall (fun f => Forall (fun r => unicode_IsSpace r = false) f) words ->
  Forall (booleanTerm all) booleanTerms ->
  Forall (booleanTerm all)
    (foldl (fun booleanTerms word =>
              let word := strings.Trim word booleanOperators in
              if decide (word = []) then booleanTerms
              else booleanTerms ++ [word])
       booleanTerms words).
Proof.
  revert booleanTerms. induction words as [|word rest IH];
    intros booleanTerms Hall Hwords Hterms; simpl; [exact Hterms|].
  apply Forall_cons in Hwords as [Hword Hrest].
  apply IH; [intros; apply Hall; right; assumption | exact Hrest |].
  destruct (decide (strings.Trim word booleanOperators = [])) as [_|Hne];
    [exact Hterms|].
  apply Forall_app. split; [exact Hterms|]. constructor; [|constructor].
  repeat split.
  - exact Hne.
  - exists word. split; [apply Hall; left; reflexivity | reflexivity].
  - apply Trim_head.
  - apply Trim_last.
  - apply Forall_Trim. exact Hword.
Qed.

End BooleanQueryFacts.

(** X7.  [prepareBooleanQuery] returns a query without words as it is.
    Otherwise the result is the terms joined by single spaces, where every
    term is a word of the query without the operator characters at its two
    ends: it is not empty, holds no white space, and neither starts nor ends
    with an operator character. *)
Theorem prepareBooleanQuery_terms (query : gostring) :
  exists terms,
    SearchService.prepareBooleanQuery query
    = (if decide (strings.Fields query = []) then query
       else strings.Join terms (lit " "))
    /\ Forall (booleanTerm (strings.Fields query)) terms.
Proof.
  unfold SearchService.prepareBooleanQuery.
  destruct (strings.Fields query) as [|word rest] eqn:Ef.
  - exists []. split; [reflexivity | constructor].
  - rewrite <- Ef. eexists. split.
    + destruct (decide (strings.Fields query = [])) as [E|_]; [congruence|].
      reflexivity.
    + apply BooleanQueryFacts.terms_loop; [auto | | constructor].
      eapply Forall_impl; [apply (BooleanQueryFacts.fieldsFrom_fields [] query);
                           constructor|].
      intros f [_ Hf]. exact Hf.
Qed.

Module SuggestionFacts.

(** The loop that removes duplicates from the suggestions. *)
Lemma unique_loop (query : gostring) (suggestions : list gostring) :
  forall (seen : gmap gostring bool) (unique : list gostring),
    List.NoDup unique ->
    (forall s, In s unique -> seen !! s = Some true) ->
    (forall s, In s unique -> s <> query) ->
    let out :=
      (foldl (fun '(seen, uniqueSuggestions) suggestion =>
                if negb (default false ((seen : gmap gostring bool) !! suggestion))
                   && negb (bool_decide (suggestion = query))
                then (<[suggestion := true]> seen, uniqueSuggestions ++ [suggestion])
                else (seen, uniqueSuggestions))
         (seen, unique) suggestions).2 in
    List.NoDup out
    /\ (forall s, In s out -> s <> query)
    /\ (forall s, In s out -> In s unique \/ In s suggestions).
Proof.
  induction suggestions as [|x rest IH]; intros seen unique Hnd Hseen Hq; simpl.
  - auto.
  - destruct (default false (seen !! x)) eqn:Ex; simpl.
    + destruct (IH seen unique Hnd Hseen Hq) as (H1 & H2 & H3).
      split; [exact H1|]. split; [exact H2|].
      intros s Hs. destruct (H3 s Hs); auto.
    + destruct (bool_decide (x = query)) eqn:Eq; simpl.
      * destruct (IH seen unique Hnd Hseen Hq) as (H1 & H2 & H3).
        split; [exact H1|]. split; [exact H2|].
        intros s Hs. destruct (H3 s Hs); auto.
      * apply bool_decide_eq_false in Eq.
        destruct (IH (<[x := true]> seen) (unique ++ [x])) as (H1 & H2 & H3).
        -- apply NoDup_ListNoDup, NoDup_app. split; [apply NoDup_ListNoDup; exact Hnd|].
           split; [|apply NoDup_singleton].
           intros s Hs Hx. apply list_elem_of_singleton in Hx as ->.
           apply list_elem_of_In in Hs. rewrite (Hseen _ Hs) in Ex. discriminate.
        -- intros s Hs. apply in_app_or in Hs as [Hs|[<-|[]]].
           ++ destruct (decide (x = s)) as [->|Hne];
                [apply lookup_insert_eq | rewrite lookup_insert_ne by exact Hne; auto].
           ++ apply lookup_insert_eq.
        -- intros s Hs. apply in_app_or in Hs as [Hs|[<-|[]]]; auto.
        -- split; [exact H1|]. split; [exact H2|].
           intros s Hs. destruct (H3 s Hs) as [Hu|Hr]; [|auto].
           apply in_app_or in Hu as [Hu|[<-|[]]]; auto.
Qed.

End SuggestionFacts.

(** X8.  For a sanitized query [generateSuggestions] returns at most five
    suggestions, no suggestion twice, and never the query itself (in lower
    case). *)
Theorem generateSuggestions_bounds `{CaseTable} (raw : gostring) :
  let query := SearchService.sanitizeQuery raw in
  (length (SearchService.generateSuggestions query) <= 5)%nat
  /\ List.NoDup (SearchService.generateSuggestions query)
  /\ ~ In (strings.ToLower query) (SearchService.generateSuggestions query).
Proof.
  intros query. clearbody query.
  unfold SearchService.generateSuggestions.
  match goal with
  | |- context [foldl ?f (∅, []) ?l] =>
      pose proof (SuggestionFacts.unique_loop (strings.ToLower query) l ∅ []) as Hloop;
      set (u := (foldl f (∅, []) l).2) in *
  end.
  destruct Hloop as (Hnd & Hq & _); [constructor | intros s [] | intros s [] |].
  destruct (Nat.ltb_spec 5 (length u)) as [Hlong|Hshort].
  - split; [rewrite length_take; lia|]. split.
    + apply NoDup_ListNoDup. apply NoDup_ListNoDup in Hnd.
      rewrite <- (take_drop 5 u) in Hnd. apply NoDup_app in Hnd as [Hnd _]. exact Hnd.
    + intros Hin. apply (Hq (strings.ToLower query)); [|reflexivity].
      rewrite <- (take_drop 5 u). apply in_or_app. left. exact Hin.
  - split; [lia|]. split; [exact Hnd|]. intros Hin. exact (Hq _ Hin eq_refl).
Qed.

Lemma wrap64_small (z : Z) : (- 2 ^ 63 <= z < 2 ^ 63)%Z -> wrap64 z = z.
Proof.
  intros Hz. unfold wrap64.
  rewrite Z.mod_small; lia.
Qed.

Lemma ceil_quot (total limit : Z) :
  (0 <= total)%Z -> (1 <= limit)%Z ->
  ((Z.quot (total + limit - 1) limit - 1) * limit < total
   <= Z.quot (total + limit - 1) limit * limit)%Z.
Proof.
  intros Ht Hl. rewrite Z.quot_div_nonneg by lia.
  pose proof (Z.div_mod (total + limit - 1) limit ltac:(lia)) as Hd.
  pose proof (Z.mod_pos_bound (total + limit - 1) limit ltac:(lia)) as Hm.
  nia.
Qed.

(** X9.  A search that succeeds answers with the page set to at least 1
    and the limit within 1..100 (10 when the caller's limit is outside),
    echoes the query as the caller wrote it, and has made exactly one call
    to the text-search engine - in the mode asked for, with the sanitized
    query, that limit and the offset of the page - between two readings of
    the clock.  Suggestions are given only when nothing was found, and the
    number of pages is the total divided by the limit, rounded up. *)
Theorem Search_paging `{CaseTable} {W} (h : Handler W) (w : W)
    (req : SearchService.SearchRequest) (page limit : Z)
    (resp : SearchService.SearchResponse) :
  result_of h (SearchService.Search (Some req) page limit) w = Ok resp ->
  let page' := if (page <? 1)%Z then 1%Z else page in
  let limit' := if (limit <? 1)%Z || (100 <? limit)%Z then 10%Z else limit in
  let query := SearchService.sanitizeQuery (SearchService.Query req) in
  let filters :=
    mkSearchFilters (SearchService.Status req) (SearchService.CategoryID req)
      (SearchService.AuthorID req) (SearchService.TagID req)
      (SearchService.DateFrom req) (SearchService.DateTo req) in
  SearchService.Page resp = page' /\ (1 <= page')%Z
  /\ SearchService.Limit resp = limit' /\ (1 <= limit' <= 100)%Z
  /\ SearchService.r_Query resp = SearchService.Query req
  /\ calls_of h (SearchService.Search (Some req) page limit) w
     = [Called TimeNow;
        if decide (SearchService.SearchMode req = lit "boolean")
        then Called (ArticleSearchWithBoolean
                       (SearchService.prepareBooleanQuery query)
                       (wrap64 ((page' - 1) * limit')) limit' filters)
        else Called (ArticleAdvancedSearch query
                       (wrap64 ((page' - 1) * limit')) limit' filters);
        Called TimeNow]
  /\ (SearchService.Total resp <> 0%Z -> SearchService.Suggestions resp = [])
  /\ ((0 <= SearchService.Total resp < 2 ^ 62)%Z ->
      ((SearchService.TotalPages resp - 1) * limit' < SearchService.Total resp
       <= SearchService.TotalPages resp * limit')%Z).
Proof.
  intros Hok page' limit' query filters.
  assert (1 <= page')%Z as Hp by (subst page'; destruct (Z.ltb_spec page 1); lia).
  assert (1 <= limit' <= 100)%Z as Hl.
  { subst limit'. destruct (Z.ltb_spec limit 1); simpl; [lia|].
    destruct (Z.ltb_spec 100 limit); lia. }
  revert Hok. unfold result_of, calls_of, SearchService.Search.
  rewrite run_call_bind.
  destruct (SearchService.validateSearchRequest (Some req)); [discriminate|].
  fold query. destruct (decide (query = [])); [discriminate|].
  destruct (h Time TimeNow w) as [startTime w1].
  fold page' limit' filters.
  rewrite run_bind.
  destruct (decide (SearchService.SearchMode req = lit "boolean"));
    rewrite run_call; cbn [fst snd];
    match goal with
    | |- context [h ?X ?e w1] =>
        destruct (h X e w1) as [[[articles total]|err] w2]; [|discriminate]
    end;
    cbn [fst snd];
    rewrite run_call_bind; destruct (h Time TimeNow w2) as [now w3]; simpl;
    intros [= <-]; simpl; repeat split; try assumption; try lia;
    try (intros Ht; destruct (Z.eqb_spec total 0); [contradiction | reflexivity]);
    rewrite wrap64_small by lia; apply ceil_quot; lia.
Qed.

Lemma Search_paging_witness :
  exists resp,
    result_of (mocks.handle mocks.blank)
      (@SearchService.Search asciiCaseTable (Some (sample.search (lit "go") [])) 0 500)
      0%nat = Ok resp
    /\ SearchService.Page resp = 1%Z
    /\ SearchService.Limit resp = 10%Z.
Proof.
  eexists. split; [reflexivity|].
  pose proof (@Search_paging asciiCaseTable nat (mocks.handle mocks.blank) 0%nat
                (sample.search (lit "go") []) 0 500 _ eq_refl)
    as (Hp & _ & Hl & _).
  split; [exact Hp | exact Hl].
Defined.

(** ** The ordering of the ranking functions *)

Module SortFacts.
Import Float64Facts.

Section Sorting.
Context {A : Type} (score : A -> float64).

Lemma swapIfLess_cases (i j : nat) (s : list A) :
  (swapIfLess score i j s = s
   /\ forall a b, s !! i = Some a -> s !! j = Some b ->
        score a <> S754_nan -> score b <> S754_nan ->
        fleb (score b) (score a) = true)
  \/ (exists a b, s !! i = Some a /\ s !! j = Some b
        /\ fltb (score a) (score b) = true
        /\ swapIfLess score i j s = <[i := b]> (<[j := a]> s)).
Proof.
  unfold swapIfLess.
  destruct (s !! i) as [a|] eqn:Ei; [|left; split; [reflexivity | discriminate]].
  destruct (s !! j) as [b|] eqn:Ej; [|left; split; [reflexivity | discriminate]].
  destruct (fltb (score a) (score b)) eqn:El.
  - right. exists a, b. auto.
  - left. split; [reflexivity|]. intros a' b' [= <-] [= <-] Ha Hb.
    apply fltb_false; assumption.
Qed.

Lemma swapIfLess_length (i j : nat) (s : list A) :
  length (swapIfLess score i j s) = length s.
Proof.
  destruct (swapIfLess_cases i j s) as [[-> _]|(a & b & _ & _ & _ & ->)];
    [reflexivity|].
  rewrite !length_insert. reflexivity.
Qed.

Lemma swapIfLess_Permutation (i j : nat) (s : list A) :
  swapIfLess score i j s ≡ₚ s.
Proof.
  destruct (swapIfLess_cases i j s) as [[-> _]|(a & b & Ei & Ej & _ & ->)];
    [reflexivity|].
  apply Permutation_insert_swap; assumption.
Qed.

Lemma swapIfLess_elsewhere (i j p : nat) (s : list A) :
  p <> i -> p <> j -> swapIfLess score i j s !! p = s !! p.
Proof.
  intros Hi Hj.
  destruct (swapIfLess_cases i j s) as [[-> _]|(a & b & _ & _ & _ & ->)];
    [reflexivity|].
  rewrite !list_lookup_insert_ne by congruence. reflexivity.
Qed.

(** After the swap every element sits where it was or at [i] or [j]. *)
Lemma swapIfLess_from (i j q : nat) (s : list A) (b : A) :
  swapIfLess score i j s !! q = Some b ->
  s !! q = Some b
  \/ (q = i /\ s !! j = Some b
      /\ exists a, s !! i = Some a /\ fltb (score a) (score b) = true)
  \/ (q = j /\ s !! i = Some b /\ i <> j).
Proof.
  destruct (swapIfLess_cases i j s) as [[-> _]|(a0 & b0 & Ei & Ej & Hlt & ->)];
    [auto|].
  pose proof (lookup_lt_Some _ _ _ Ei) as Hli.
  pose proof (lookup_lt_Some _ _ _ Ej) as Hlj.
  destruct (decide (q = i)) as [->|Hqi].
  - rewrite list_lookup_insert_eq by (rewrite length_insert; exact Hli).
    intros [= <-]. right. left. eauto.
  - rewrite list_lookup_insert_ne by congruence.
    destruct (decide (q = j)) as [->|Hqj].
    + rewrite list_lookup_insert_eq by exact Hlj. intros [= <-].
      right. right. split; [reflexivity|]. split; [exact Ei|].
      intros ->. rewrite Ei in Ej. injection Ej as <-.
      unfold fltb, SFltb in Hlt.
      destruct (compare_number (score a0) (score a0)) as [c Ec].
      * intros E. rewrite E in Hlt. discriminate.
      * intros E. rewrite E in Hlt. discriminate.
      * pose proof (compare_swap _ _ _ Ec) as Ec'. rewrite Ec in Ec', Hlt.
        destruct c; discriminate.
    + rewrite list_lookup_insert_ne by congruence. auto.
Qed.

(** The scores of the list are numbers. *)
Let numbers (s : list A) : Prop := Forall (fun a => score a <> S754_nan) s.

Lemma swapIfLess_numbers (i j : nat) (s : list A) :
  numbers s -> numbers (swapIfLess score i j s).
Proof. apply RankingFacts.swapIfLess_Forall. Qed.

(** One comparison of the inner loop. *)
Lemma swapIfLess_above_i (i j : nat) (s : list A) :
  numbers s ->
  (i < j)%nat -> scoresAbove score s i j -> scoresAbove score (swapIfLess score i j s) i (S j).
Proof.
  intros Hnum Hij Ha q a b Hq Hi Hb.
  destruct (swapIfLess_cases i j s) as [[E Hle]|(a0 & b0 & Ei & Ej & Hlt & E)];
    rewrite E in *.
  - destruct (decide (q = j)) as [->|Hne].
    + apply (Hle _ _ Hi Hb).
      * exact (Forall_lookup_1 _ _ _ _ Hnum Hi).
      * exact (Forall_lookup_1 _ _ _ _ Hnum Hb).
    + apply (Ha q a b); [lia | assumption..].
  - pose proof (lookup_lt_Some _ _ _ Ei) as Hli.
    pose proof (lookup_lt_Some _ _ _ Ej) as Hlj.
    rewrite list_lookup_insert_eq in Hi by (rewrite length_insert; exact Hli).
    injection Hi as <-.
    rewrite list_lookup_insert_ne in Hb by lia.
    destruct (decide (q = j)) as [->|Hne].
    + rewrite list_lookup_insert_eq in Hb by exact Hlj. injection Hb as <-.
      apply fltb_true. exact Hlt.
    + rewrite list_lookup_insert_ne in Hb by congruence.
      apply fleb_trans with (score a0); [|apply fltb_true; exact Hlt].
      apply (Ha q a0 b); [lia | assumption..].
Qed.

(** Positions before [i] keep their standing when two later positions are
    compared. *)
Lemma swapIfLess_above_before (i j p k : nat) (s : list A) :
  (p < i)%nat -> (p < j)%nat -> (length s <= k)%nat ->
  scoresAbove score s p k -> scoresAbove score (swapIfLess score i j s) p k.
Proof.
  intros Hpi Hpj Hk Ha q a b Hq Hp Hb.
  rewrite swapIfLess_elsewhere in Hp by lia.
  apply swapIfLess_from in Hb as [Hb|[(-> & Hb & _)|(-> & Hb & _)]].
  - exact (Ha q a b Hq Hp Hb).
  - apply (Ha j a b); [|assumption..].
    pose proof (lookup_lt_Some _ _ _ Hb). lia.
  - apply (Ha i a b); [|assumption..].
    pose proof (lookup_lt_Some _ _ _ Hb). lia.
Qed.

Lemma inner_spec (i : nat) (m : nat) :
  forall (k : nat) (s : list A),
    numbers s ->
    (i < k)%nat ->
    scoresAbove score s i k ->
    (forall p, (p < i)%nat -> scoresAbove score s p (length s)) ->
    let s1 := sortInner score i s (seq k m) in
    length s1 = length s
    /\ numbers s1
    /\ scoresAbove score s1 i (k + m)
    /\ (forall p, (p < i)%nat -> scoresAbove score s1 p (length s1)).
Proof.
  induction m as [|m IH]; intros k s Hnum Hik Hi Hbefore; simpl.
  - rewrite Nat.add_0_r. auto.
  - destruct (IH (S k) (swapIfLess score i k s)) as (Hlen & Hnum' & Hi' & Hb').
    + apply swapIfLess_numbers, Hnum.
    + lia.
    + apply swapIfLess_above_i; assumption.
    + intros p Hp. rewrite swapIfLess_length.
      apply swapIfLess_above_before; [lia | lia | lia | auto].
    + rewrite swapIfLess_length in Hlen.
      split; [exact Hlen|]. split; [exact Hnum'|]. split.
      * replace (k + S m)%nat with (S k + m)%nat by lia. exact Hi'.
      * exact Hb'.
Qed.

Lemma outer_spec (m : nat) :
  forall (c : nat) (s : list A),
    numbers s ->
    (forall p, (p < c)%nat -> scoresAbove score s p (length s)) ->
    let s1 :=
      foldl (fun s i => sortInner score i s (seq (i + 1) (length s - (i + 1)))) s (seq c m) in
    length s1 = length s
    /\ (forall p, (p < c + m)%nat -> scoresAbove score s1 p (length s1)).
Proof.
  induction m as [|m IH]; intros c s Hnum Hc; simpl.
  - rewrite Nat.add_0_r. auto.
  - destruct (inner_spec c (length s - (c + 1)) (c + 1) s) as (Hlen & Hnum' & Hi & Hb).
    + exact Hnum.
    + lia.
    + intros q a b Hq. lia.
    + exact Hc.
    + set (s' := sortInner score c s (seq (c + 1) (length s - (c + 1)))) in *.
      destruct (IH (S c) s') as (Hlen' & Hsorted).
      * exact Hnum'.
      * intros p Hp. destruct (decide (p = c)) as [->|Hne]; [|apply Hb; lia].
        intros q a b Hq Ha Hq'. apply (Hi q a b); [|assumption..].
        pose proof (lookup_lt_Some _ _ _ Hq'). lia.
      * split; [congruence|].
        intros p Hp. apply Hsorted. lia.
Qed.

(** The sort rearranges the list, whatever its scores. *)
Lemma sortByScoreDesc_Permutation (s : list A) : sortByScoreDesc score s ≡ₚ s.
Proof.
  unfold sortByScoreDesc.
  apply (RankingFacts.foldl_invariant (fun s' => s' ≡ₚ s)); [|reflexivity].
  intros s' i Hs'.
  apply (RankingFacts.foldl_invariant (fun s'' => s'' ≡ₚ s)); [|exact Hs'].
  intros s'' j Hs''. rewrite swapIfLess_Permutation. exact Hs''.
Qed.

(** When the scores are numbers, the sorted list is in descending order. *)
Lemma sortByScoreDesc_sorted (s : list A) :
  numbers s ->
  forall i j a b, (i < j)%nat ->
    sortByScoreDesc score s !! i = Some a ->
    sortByScoreDesc score s !! j = Some b ->
    fleb (score b) (score a) = true.
Proof.
  intros Hnum.
  destruct (outer_spec (length s - 1) 0 s Hnum) as (Hlen & Hsorted);
    [intros p Hp; lia|].
  change (foldl _ s (seq 0 (length s - 1))) with (sortByScoreDesc score s) in *.
  intros i j a b Hij Ha Hb.
  pose proof (lookup_lt_Some _ _ _ Hb) as Hj.
  apply (Hsorted i ltac:(lia) j a b); [lia | assumption..].
Qed.

End Sorting.
End SortFacts.

Module RankedFacts.
Import SortFacts.

(** The first [limit] entries of the sorted list: a part of the list, and,
    when the scores are numbers, in descending order and the best of it. *)
Lemma ranked_prefix {A} (score : A -> float64) (limit : Z) (s : list A) :
  (1 <= limit)%Z ->
  let r := truncateTo limit (sortByScoreDesc score s) in
  length r = Nat.min (Z.to_nat limit) (length s)
  /\ exists rest,
       r ++ rest ≡ₚ s
       /\ (Forall (fun a => score a <> S754_nan) s ->
           (forall i j a b, (i < j)%nat -> r !! i = Some a -> r !! j = Some b ->
              fleb (score b) (score a) = true)
           /\ (forall a b, In a r -> In b rest -> fleb (score b) (score a) = true)).
Proof.
  intros Hl.
  pose proof (sortByScoreDesc_Permutation score s) as Hperm.
  pose proof (Permutation_length Hperm) as Hlen.
  pose proof (sortByScoreDesc_sorted score s) as Hsorted.
  unfold truncateTo. rewrite Hlen.
  destruct (Z.ltb_spec limit (Z.of_nat (length s))) as [Hlong|Hshort].
  - split; [rewrite length_take, Hlen; lia|].
    exists (drop (Z.to_nat limit) (sortByScoreDesc score s)).
    split; [rewrite take_drop; exact Hperm|].
    intros Hnum. specialize (Hsorted Hnum). split.
    + intros i j a b Hij Ha Hb.
      apply lookup_take_Some in Ha as [Ha _]. apply lookup_take_Some in Hb as [Hb _].
      exact (Hsorted i j a b Hij Ha Hb).
    + intros a b Ha Hb.
      apply list_elem_of_In, list_elem_of_lookup in Ha as [i Ha].
      apply list_elem_of_In, list_elem_of_lookup in Hb as [j Hb].
      apply lookup_take_Some in Ha as [Ha Hi]. rewrite lookup_drop in Hb.
      apply (Hsorted i (Z.to_nat limit + j)%nat a b); [lia | assumption..].
  - split; [lia|].
    exists []. rewrite app_nil_r. split; [exact Hperm|].
    intros Hnum. split; [exact (Hsorted Hnum)|]. intros a b _ [].
Qed.

(** The popularity score is never negative and never NaN. *)
Lemma popularity_notNegative (views likes comments : N) :
  notNegative
    (float64_of_uint views + float64_of_uint likes * float64_of_int 3
     + float64_of_uint comments * float64_of_int 5)%f64.
Proof.
  apply Float64Facts.fadd_notNegative; [apply Float64Facts.fadd_notNegative|].
  - apply Float64Facts.of_uint_notNegative.
  - change (float64_of_int 3) with (S754_finite false 6755399441055744 (-51)).
    apply Float64Facts.fmul_notNegative, Float64Facts.of_uint_notNegative.
  - change (float64_of_int 5) with (S754_finite false 5629499534213120 (-50)).
    apply Float64Facts.fmul_notNegative, Float64Facts.of_uint_notNegative.
Qed.

(** A trending score can be NaN: an article without views, likes or
    comments whose publication lies exactly the window's seven days after
    the reading of the clock it is scored with has [1 + (-1) = 0] under the
    division, [1 / 0 = +Inf] for its decay and [0 * +Inf] for its score. *)
Lemma trending_score_nan :
  exists t,
    result_of
      (mocks.handle
         (sample.listing [sample.publishedBefore (-7) (sample.tickingClock 2) 0 0 0]
            sample.tickingClock))
      (StatisticsService.GetTrendingArticles 10 7) 0%nat = Ok [t]
    /\ StatisticsService.TrendingScore t = S754_nan.
Proof. eexists. split; vm_compute; reflexivity. Qed.

End RankedFacts.



(** X11.  What [GetTrendingArticles] returns is a selection of at most
    [limit] of the entries the loop over the listed articles has scored, as
    many as fit; and when none of the scored entries has a trending score
    that is NaN, the entries returned are in descending order of trending
    score and are the best of the scored ones. *)
Theorem GetTrendingArticles_ranked {W} (h : Handler W) (w : W) (limit days : Z)
    (ts : list StatisticsService.TrendingArticle) :
  result_of h (StatisticsService.GetTrendingArticles limit days) w = Ok ts ->
  let limit' := if (limit <=? 0)%Z then 10%Z else limit in
  let days' := if (days <=? 0)%Z then 7%Z else days in
  (Z.of_nat (length ts) <= limit')%Z
  /\ exists articles total rest,
       let listed :=
         h _ (ArticleList 0 (wrap64 (limit' * 2)) StatisticsService.publishedOnly) w in
       let clock := h _ TimeNow listed.2 in
       let scored :=
         result_of h
           (StatisticsService.trendingLoop articles days'
              (Time_AddDays clock.1 (- days')) [])
           clock.2 in
       listed.1 = Ok (articles, total)
       /\ length ts = Nat.min (Z.to_nat limit') (length scored)
       /\ ts ++ rest ≡ₚ scored
       /\ (Forall (fun t => StatisticsService.TrendingScore t <> S754_nan) scored ->
           (forall i j a b, (i < j)%nat -> ts !! i = Some a -> ts !! j = Some b ->
              fleb (StatisticsService.TrendingScore b)
                (StatisticsService.TrendingScore a) = true)
           /\ (forall a b, In a ts -> In b rest ->
                 fleb (StatisticsService.TrendingScore b)
                   (StatisticsService.TrendingScore a) = true)).
Proof.
  intros Hok limit' days'.
  assert (1 <= limit')%Z as Hl by (subst limit'; destruct (Z.leb_spec limit 0); lia).
  revert Hok. unfold StatisticsService.GetTrendingArticles. fold limit' days'.
  rewrite result_of_bind, result_of_call, state_of_call.
  destruct (h _ _ w) as [[[articles total]|err] w1]; [|discriminate].
  cbn [fst snd].
  rewrite result_of_bind, result_of_call, state_of_call.
  destruct (h _ TimeNow w1) as [now w2]. cbn [fst snd].
  rewrite result_of_bind. unfold result_of at 1. simpl.
  intros [= <-].
  match goal with
  | |- context [sortByScoreDesc _ ?s] =>
      destruct (RankedFacts.ranked_prefix StatisticsService.TrendingScore limit' s Hl)
        as (Hlen & rest & Hperm & Hranked)
  end.
  split; [lia|].
  exists articles, total, rest. simpl. split; [reflexivity|].
  split; [exact Hlen|]. split; assumption.
Qed.

Lemma GetTrendingArticles_ranked_witness :
  exists ts,
    result_of
      (mocks.handle
         (sample.listing
            [sample.publishedBefore 1 (sample.tickingClock 2) 0 0 4;
             sample.weekOld (sample.tickingClock 3)]
            sample.tickingClock))
      (StatisticsService.GetTrendingArticles 10 7) 0%nat = Ok ts
    /\ length ts = 2%nat
    /\ forall i j a b, (i < j)%nat -> ts !! i = Some a -> ts !! j = Some b ->
         fleb (StatisticsService.TrendingScore b)
           (StatisticsService.TrendingScore a) = true.
Proof.
  eexists. split; [reflexivity|].
  destruct (GetTrendingArticles_ranked
              (mocks.handle
                 (sample.listing
                    [sample.publishedBefore 1 (sample.tickingClock 2) 0 0 4;
                     sample.weekOld (sample.tickingClock 3)]
                    sample.tickingClock)) 0%nat 10 7 _ eq_refl)
    as (_ & articles & total & rest & Hlisted & Hlen & _ & Hranked).
  injection Hlisted as <- <-.
  split; [vm_compute; reflexivity|].
  apply Hranked. vm_compute. repeat constructor; discriminate.
Defined.

(** ** The archive *)

Module ArchiveFacts.

(** *** Counting by period *)

Lemma count_omap {A B} `{EqDecision B} (f : A -> option B) (b : B) (l : list A) :
  length (filter (fun x => x = b) (omap f l))
  = length (filter (fun a => f a = Some b) l).
Proof.
  induction l as [|a t IH]; [reflexivity|]. simpl.
  rewrite (filter_cons (fun a => f a = Some b)).
  destruct (f a) as [b'|] eqn:Ef.
  - rewrite filter_cons.
    destruct (decide (b' = b)) as [->|Hne].
    + rewrite decide_True by reflexivity. simpl. f_equal. exact IH.
    + rewrite decide_False by congruence. exact IH.
  - rewrite decide_False by discriminate. exact IH.
Qed.

Lemma tally_spec (periods : list (Z * Z)) :
  forall (groups : gmap (Z * Z) Z) (p : Z * Z),
    foldl tallyPeriod groups periods !! p
    = match length (filter (fun x => x = p) periods) with
      | O => groups !! p
      | S n => Some (default 0 (groups !! p) + Z.of_nat (S n))%Z
      end.
Proof.
  induction periods as [|x rest IH]; intros groups p; [reflexivity|].
  simpl foldl. rewrite IH, filter_cons.
  destruct (decide (x = p)) as [->|Hne].
  - unfold tallyPeriod. rewrite lookup_insert_eq. simpl.
    destruct (length (filter _ rest)); f_equal; lia.
  - unfold tallyPeriod. rewrite lookup_insert_ne by exact Hne. reflexivity.
Qed.

(** *** The rows of the query *)

Lemma laterPeriod_total :
  Total (fun a b => Is_true (gorm.laterPeriod a b)).
Proof.
  intros a b. unfold gorm.laterPeriod.
  destruct (Z.ltb_spec (gorm.Year b) (gorm.Year a)); [left; exact I|].
  destruct (Z.ltb_spec (gorm.Year a) (gorm.Year b)); [right; exact I|].
  assert (gorm.Year a = gorm.Year b) as E by lia. rewrite E, Z.eqb_refl. simpl.
  destruct (Z.leb_spec (gorm.Month b) (gorm.Month a)); [left; exact I|].
  right. apply Is_true_true. apply Z.leb_le. lia.
Qed.

Lemma laterPeriod_spec (a b : gorm.ArchiveRow) :
  Is_true (gorm.laterPeriod a b)
  <-> (gorm.Year b < gorm.Year a
       \/ (gorm.Year b = gorm.Year a /\ gorm.Month b <= gorm.Month a))%Z.
Proof.
  unfold gorm.laterPeriod. rewrite Is_true_true, orb_true_iff, andb_true_iff,
    Z.ltb_lt, Z.eqb_eq, Z.leb_le. reflexivity.
Qed.

Lemma laterPeriod_trans :
  Transitive (fun a b => Is_true (gorm.laterPeriod a b)).
Proof.
  intros a b c. rewrite !laterPeriod_spec. lia.
Qed.

Lemma archiveQuery_rows (w : World) :
  StronglySorted (fun a b => Is_true (gorm.laterPeriod a b)) (gorm.archiveQuery w)
  /\ NoDup (map periodOfRow (gorm.archiveQuery w))
  /\ (forall r, In r (gorm.archiveQuery w) <->
                (0 < archivedIn w (periodOfRow r))%nat
                /\ gorm.Count r = Z.of_nat (archivedIn w (periodOfRow r))).
Proof.
  unfold gorm.archiveQuery.
  match goal with
  | |- context [merge_sort _ (map ?f (map_to_list ?g))] =>
      change f with archiveRowOf; set (groups := g)
  end.
  assert (forall p, groups !! p
                    = match archivedIn w p with
                      | O => None
                      | S n => Some (Z.of_nat (S n))
                      end) as Hgroups.
  { intros p. subst groups.
    change (foldl _ ∅ ?l) with (foldl tallyPeriod ∅ l).
    rewrite tally_spec, count_omap, lookup_empty. reflexivity. }
  split; [exact (@StronglySorted_merge_sort _ _ _ laterPeriod_trans laterPeriod_total _)|].
  split.
  - rewrite merge_sort_Permutation, map_map.
    erewrite map_ext; [apply NoDup_fst_map_to_list|].
    intros [[y m] n]. reflexivity.
  - intros r. rewrite <- list_elem_of_In, merge_sort_Permutation, list_elem_of_fmap.
    split.
    + intros ([[y m] n] & -> & Hin). apply elem_of_map_to_list in Hin.
      rewrite Hgroups in Hin. unfold periodOfRow. simpl.
      destruct (archivedIn w (y, m)); [discriminate|].
      injection Hin as <-. split; [lia | reflexivity].
    + intros [Hpos Hcount]. destruct r as [y m n]. unfold periodOfRow in *. simpl in *.
      exists ((y, m), n). split; [reflexivity|].
      apply elem_of_map_to_list. rewrite Hgroups.
      destruct (archivedIn w (y, m)); [lia|]. rewrite Hcount. reflexivity.
Qed.

Lemma months_descending (y : Z) (rows : list gorm.ArchiveRow) :
  StronglySorted (fun a b => Is_true (gorm.laterPeriod a b)) rows ->
  NoDup (map periodOfRow rows) ->
  forall i j r1 r2, (i < j)%nat ->
    filter (fun r => gorm.Year r = y) rows !! i = Some r1 ->
    filter (fun r => gorm.Year r = y) rows !! j = Some r2 ->
    (gorm.Month r2 < gorm.Month r1)%Z.
Proof.
  induction rows as [|r t IH]; intros Hs Hnd i j r1 r2 Hij H1 H2;
    [discriminate|].
  apply StronglySorted_cons in Hs as [Hr Hs].
  apply NoDup_cons in Hnd as [Hnotin Hnd].
  rewrite filter_cons in H1, H2.
  destruct (decide (gorm.Year r = y)) as [Ey|_]; [|exact (IH Hs Hnd i j r1 r2 Hij H1 H2)].
  destruct i as [|i].
  - injection H1 as <-. destruct j as [|j]; [lia|]. simpl in H2.
    apply list_elem_of_lookup_2, list_elem_of_filter in H2 as [Ey2 Hin].
    rewrite Forall_forall in Hr. pose proof (Hr _ Hin) as Hl.
    apply laterPeriod_spec in Hl.
    assert (gorm.Month r2 <> gorm.Month r).
    { intros Em. apply Hnotin. apply list_elem_of_fmap. exists r2.
      split; [|exact Hin]. unfold periodOfRow. congruence. }
    lia.
  - destruct j as [|j]; [lia|]. simpl in H1, H2.
    apply (IH Hs Hnd i j r1 r2); [lia | assumption..].
Qed.

(** *** Reshaping the rows by year *)

Lemma file_spec (rows : list gorm.ArchiveRow) :
  forall (yearMap : gmap Z (list MonthData)) (y : Z),
    foldl fileUnderYear yearMap rows !! y
    = match filter (fun r => gorm.Year r = y) rows with
      | [] => yearMap !! y
      | rs => Some (default [] (yearMap !! y) ++ map monthDataOf rs)
      end.
Proof.
  induction rows as [|r t IH]; intros yearMap y; [reflexivity|].
  simpl foldl. rewrite IH, filter_cons.
  destruct (decide (gorm.Year r = y)) as [<-|Hne].
  - unfold fileUnderYear. rewrite lookup_insert_eq. simpl.
    destruct (filter _ t); simpl; [reflexivity|].
    rewrite <- app_assoc. reflexivity.
  - unfold fileUnderYear. rewrite lookup_insert_ne by exact Hne. reflexivity.
Qed.

Lemma reshapeArchive_years (rangeOrder : list Z -> list Z)
    (rows : list gorm.ArchiveRow) :
  (forall keys, rangeOrder keys ≡ₚ keys) ->
  let years := gorm.reshapeArchive rangeOrder rows in
  NoDup (map yd_year years)
  /\ (forall yd, In yd years <->
         filter (fun r => gorm.Year r = yd_year yd) rows <> []
         /\ yd_months yd
            = map monthDataOf (filter (fun r => gorm.Year r = yd_year yd) rows)).
Proof.
  intros Hperm. unfold gorm.reshapeArchive.
  change (foldl _ ∅ rows) with (foldl fileUnderYear ∅ rows).
  set (yearMap := foldl fileUnderYear ∅ rows).
  set (keys := rangeOrder (map fst (map_to_list yearMap))).
  assert (NoDup keys) as Hnd.
  { subst keys. rewrite Hperm. apply NoDup_fst_map_to_list. }
  assert (forall k, k ∈ keys <-> is_Some (yearMap !! k)) as Hkeys.
  { intros k. subst keys. rewrite Hperm.
    rewrite list_elem_of_fmap. split.
    - intros ([k' ms] & -> & Hin). apply elem_of_map_to_list in Hin. eauto.
    - intros [ms Hk]. exists (k, ms). split; [reflexivity|].
      apply elem_of_map_to_list. exact Hk. }
  assert (forall y, yearMap !! y
                    = match filter (fun r => gorm.Year r = y) rows with
                      | [] => None
                      | rs => Some (map monthDataOf rs)
                      end) as Hmap.
  { intros y. subst yearMap. rewrite file_spec, lookup_empty. reflexivity. }
  clearbody keys. simpl.
  assert (map yd_year (omap (fun year => mkYearData year <$> yearMap !! year) keys)
          = keys) as Hyears.
  { assert (forall k, k ∈ keys -> is_Some (yearMap !! k)) as Hall
      by (intros k; apply Hkeys).
    clear -Hall. induction keys as [|k ks IH]; [reflexivity|]. simpl.
    destruct (Hall k) as [ms ->]; [left|]. simpl. f_equal.
    apply IH. intros k' Hin. apply Hall. right. exact Hin. }
  split; [rewrite Hyears; exact Hnd|].
  intros yd. rewrite <- list_elem_of_In, list_elem_of_omap. split.
  - intros (k & _ & Hk). rewrite Hmap in Hk.
    destruct (filter (fun r => gorm.Year r = k) rows) as [|r rs] eqn:Ef;
      [discriminate|].
    injection Hk as <-. simpl. rewrite Ef. split; [discriminate | reflexivity].
  - intros [Hne Hms]. exists (yd_year yd). split.
    + apply Hkeys. rewrite Hmap.
      destruct (filter _ rows); [contradiction | eauto].
    + rewrite Hmap. destruct (filter _ rows) as [|r rs]; [contradiction|].
      simpl. destruct yd as [y ms]. simpl in *. rewrite Hms. reflexivity.
Qed.

(** *** The totals of the service *)

Lemma wrap64_add_l (a b : Z) : wrap64 (wrap64 a + b) = wrap64 (a + b).
Proof.
  unfold wrap64. f_equal.
  set (p := (2 ^ 63)%Z). set (m := (2 ^ 64)%Z).
  replace ((a + p) mod m - p + b + p)%Z with ((a + p) mod m + b)%Z by ring.
  rewrite Zplus_mod_idemp_l. f_equal. ring.
Qed.

Lemma months_fold (months : list MonthData) :
  forall acc : ArchiveService.ArchiveYear,
    foldl (fun archiveYear month =>
             let entry :=
               ArchiveService.mkArchiveEntry (ArchiveService.Year archiveYear)
                 (md_month month) (ArchiveService.getMonthName (md_month month))
                 (md_count month) in
             ArchiveService.mkArchiveYear (ArchiveService.Year archiveYear)
               (ArchiveService.Months archiveYear ++ [entry])
               (wrap64 (ArchiveService.Total archiveYear
                        + ArchiveService.ArticleCount entry)))
      acc months
    = ArchiveService.mkArchiveYear (ArchiveService.Year acc)
        (ArchiveService.Months acc
         ++ map (archiveEntryOf (ArchiveService.Year acc)) months)
        (match months with
         | [] => ArchiveService.Total acc
         | _ => wrap64 (ArchiveService.Total acc + sumZ (map md_count months))
         end).
Proof.
  induction months as [|m rest IH]; intros acc; simpl.
  - rewrite app_nil_r. destruct acc; reflexivity.
  - rewrite IH. simpl. rewrite <- app_assoc. f_equal.
    destruct rest as [|m' rest']; simpl.
    + f_equal. unfold sumZ. simpl. lia.
    + rewrite wrap64_add_l. f_equal. unfold sumZ. simpl. lia.
Qed.

Lemma years_fold (yearData : list YearData) :
  forall acc : ArchiveService.ArchiveResponse,
    foldl (fun response year =>
             let archiveYear :=
               foldl (fun archiveYear month =>
                        let entry :=
                          ArchiveService.mkArchiveEntry
                            (ArchiveService.Year archiveYear) (md_month month)
                            (ArchiveService.getMonthName (md_month month))
                            (md_count month) in
                        ArchiveService.mkArchiveYear (ArchiveService.Year archiveYear)
                          (ArchiveService.Months archiveYear ++ [entry])
                          (wrap64 (ArchiveService.Total archiveYear
                                   + ArchiveService.ArticleCount entry)))
                 (ArchiveService.mkArchiveYear (yd_year year) [] 0) (yd_months year) in
             ArchiveService.mkArchiveResponse
               (ArchiveService.Years response ++ [archiveYear])
               (wrap64 (ArchiveService.r_Total response
                        + ArchiveService.Total archiveYear)))
      acc yearData
    = ArchiveService.mkArchiveResponse
        (ArchiveService.Years acc ++ map archiveYearOf yearData)
        (match yearData with
         | [] => ArchiveService.r_Total acc
         | _ => wrap64 (ArchiveService.r_Total acc
                        + sumZ (map (fun y => sumZ (map md_count (yd_months y)))
                                  yearData))
         end).
Proof.
  induction yearData as [|y rest IH]; intros acc; simpl.
  - rewrite app_nil_r. destruct acc; reflexivity.
  - rewrite IH, months_fold. simpl. rewrite <- app_assoc.
    assert (match yd_months y with
            | [] => 0%Z
            | _ :: _ => wrap64 (0 + sumZ (map md_count (yd_months y)))
            end = wrap64 (sumZ (map md_count (yd_months y)))) as ->
      by (destruct (yd_months y); reflexivity).
    change (ArchiveService.mkArchiveYear (yd_year y)
              (map (archiveEntryOf (yd_year y)) (yd_months y))
              (wrap64 (sumZ (map md_count (yd_months y)))))
      with (archiveYearOf y).
    f_equal.
    rewrite (Z.add_comm (ArchiveService.r_Total acc)), wrap64_add_l.
    destruct rest as [|y' rest']; simpl.
    + f_equal. unfold sumZ. simpl. lia.
    + rewrite wrap64_add_l. f_equal. unfold sumZ. simpl. lia.
Qed.

Lemma GetArchive_answer {W} (h : Handler W) (w : W) :
  result_of h ArchiveService.GetArchive w
  = match (h _ ArticleGetArchive w).1 with
    | Err err => Err (ErrWrap (lit "failed to get archive data") err)
    | Ok yearData =>
        Ok (ArchiveService.mkArchiveResponse (map archiveYearOf yearData)
              (wrap64 (sumZ (map (fun y => sumZ (map md_count (yd_months y)))
                               yearData))))
    end.
Proof.
  unfold ArchiveService.GetArchive.
  rewrite result_of_bind, result_of_call, state_of_call.
  destruct (h _ ArticleGetArchive w).1 as [yearData|err]; [|reflexivity].
  unfold result_of. simpl. rewrite years_fold. simpl. f_equal. f_equal.
  destruct yearData; reflexivity.
Qed.

End ArchiveFacts.

(** X12.  Over the gorm-backed store, when the query does not fail and the
    [range] over the years visits every year once: the archive lists every
    year once and no year without months; within a year the months come
    in descending order; every entry carries the year it stands under, the
    name of its month and, as its count, the number of published, not
    deleted articles with a publication time in that month, which is not
    zero; and every month with such an article has its entry. *)
Theorem GetArchive_counts (w : World) :
  gorm.faulty w = false ->
  (forall keys, w_rangeOrder w keys ≡ₚ keys) ->
  exists resp,
    result_of gorm.handle ArchiveService.GetArchive w = Ok resp
    /\ NoDup (map ArchiveService.Year (ArchiveService.Years resp))
    /\ (forall y, In y (ArchiveService.Years resp) ->
          ArchiveService.Months y <> []
          /\ (forall i j e1 e2, (i < j)%nat ->
                ArchiveService.Months y !! i = Some e1 ->
                ArchiveService.Months y !! j = Some e2 ->
                (ArchiveService.Month e2 < ArchiveService.Month e1)%Z)
          /\ (forall e, In e (ArchiveService.Months y) ->
                ArchiveService.e_Year e = ArchiveService.Year y
                /\ ArchiveService.MonthName e
                   = ArchiveService.getMonthName (ArchiveService.Month e)
                /\ (0 < archivedIn w (ArchiveService.Year y, ArchiveService.Month e))%nat
                /\ ArchiveService.ArticleCount e
                   = Z.of_nat (archivedIn w (ArchiveService.Year y,
                                             ArchiveService.Month e))))
    /\ (forall year month, (0 < archivedIn w (year, month))%nat ->
          exists y e,
            In y (ArchiveService.Years resp) /\ ArchiveService.Year y = year
            /\ In e (ArchiveService.Months y) /\ ArchiveService.Month e = month).
Proof.
  intros Hfault Hperm.
  rewrite ArchiveFacts.GetArchive_answer. simpl.
  unfold gorm.query, gorm.articleRepository_GetArchive. rewrite Hfault. simpl.
  eexists. split; [reflexivity|]. simpl.
  destruct (ArchiveFacts.archiveQuery_rows w) as (Hsorted & Hnd & Hrows).
  destruct (ArchiveFacts.reshapeArchive_years (w_rangeOrder w) (gorm.archiveQuery w)
              Hperm) as (Hyears & Hyd).
  set (rows := gorm.archiveQuery w) in *.
  set (years := gorm.reshapeArchive (w_rangeOrder w) rows) in *.
  split; [|split].
  - rewrite map_map. exact Hyears.
  - intros y Hy. apply in_map_iff in Hy as (yd & <- & Hin).
    apply Hyd in Hin as [Hne Hms]. unfold archiveYearOf. simpl.
    rewrite Hms. split; [|split].
    + destruct (filter _ rows); [contradiction | discriminate].
    + intros i j e1 e2 Hij H1 H2.
      rewrite !list_lookup_fmap in H1, H2.
      destruct (filter _ rows !! i) as [r1|] eqn:E1; [|discriminate].
      destruct (filter _ rows !! j) as [r2|] eqn:E2; [|discriminate].
      injection H1 as <-. injection H2 as <-. simpl.
      exact (ArchiveFacts.months_descending _ rows Hsorted Hnd i j r1 r2 Hij E1 E2).
    + intros e He. apply in_map_iff in He as (md & <- & He).
      apply in_map_iff in He as (r & <- & Hr).
      apply list_elem_of_In, list_elem_of_filter in Hr as [Ey Hr].
      apply list_elem_of_In, Hrows in Hr as [Hpos Hcount].
      unfold periodOfRow in *. simpl. rewrite <- Ey.
      repeat split; assumption.
  - intros year month Hpos.
    set (r := gorm.mkArchiveRow year month (Z.of_nat (archivedIn w (year, month)))).
    assert (In r rows) as Hr by (apply Hrows; split; [exact Hpos | reflexivity]).
    assert (r ∈ filter (fun r => gorm.Year r = year) rows) as Hf.
    { apply list_elem_of_filter. split; [reflexivity | apply list_elem_of_In; exact Hr]. }
    set (yd := mkYearData year
                 (map monthDataOf (filter (fun r => gorm.Year r = year) rows))).
    assert (In yd years) as Hin.
    { apply Hyd. simpl. split; [|reflexivity].
      intros E. rewrite E in Hf. inversion Hf. }
    exists (archiveYearOf yd), (archiveEntryOf year (monthDataOf r)).
    split; [apply in_map; exact Hin|]. split; [reflexivity|].
    split; [|reflexivity]. simpl.
    apply in_map, in_map. apply list_elem_of_In. exact Hf.
Qed.

Lemma GetArchive_counts_witness :
  gorm.faulty (sample.oneYear (fun keys => keys)) = false
  /\ exists resp,
       result_of gorm.handle ArchiveService.GetArchive
         (sample.oneYear (fun keys => keys)) = Ok resp
       /\ NoDup (map ArchiveService.Year (ArchiveService.Years resp)).
Proof.
  split; [reflexivity|].
  destruct (GetArchive_counts (sample.oneYear (fun keys => keys)) eq_refl
              (fun keys => Permutation_refl keys)) as (resp & Hr & Hnd & _).
  exists resp. split; assumption.
Defined.

(** X13.  Whatever the repository answers, [GetArchive] keeps the years and
    the months with their counts in the order of the answer, names every
    month, and adds up: the total of a year is the sum of the counts of its
    months and the total of the archive the sum over all years (in 64-bit
    arithmetic). *)
Theorem GetArchive_totals {W} (h : Handler W) (w : W) (yearData : list YearData) :
  (h _ ArticleGetArchive w).1 = Ok yearData ->
  exists resp,
    result_of h ArchiveService.GetArchive w = Ok resp
    /\ map ArchiveService.Year (ArchiveService.Years resp) = map yd_year yearData
    /\ map (fun y => map (fun e => (ArchiveService.Month e, ArchiveService.ArticleCount e))
                       (ArchiveService.Months y))
         (ArchiveService.Years resp)
       = map (fun yd => map (fun m => (md_month m, md_count m)) (yd_months yd)) yearData
    /\ Forall (fun y =>
                 ArchiveService.Total y
                 = wrap64 (sumZ (map ArchiveService.ArticleCount
                                   (ArchiveService.Months y)))
                 /\ Forall (fun e =>
                              ArchiveService.e_Year e = ArchiveService.Year y
                              /\ ArchiveService.MonthName e
                                 = ArchiveService.getMonthName (ArchiveService.Month e))
                      (ArchiveService.Months y))
         (ArchiveService.Years resp)
    /\ ArchiveService.r_Total resp
       = wrap64 (sumZ (map (fun y => sumZ (map ArchiveService.ArticleCount
                                             (ArchiveService.Months y)))
                         (ArchiveService.Years resp))).
Proof.
  intros Hget. rewrite ArchiveFacts.GetArchive_answer, Hget.
  eexists. split; [reflexivity|]. simpl.
  assert (forall yd, map ArchiveService.ArticleCount
                       (map (archiveEntryOf (yd_year yd)) (yd_months yd))
                     = map md_count (yd_months yd)) as Hcounts.
  { intros yd. rewrite map_map. reflexivity. }
  split; [rewrite map_map; reflexivity|]. split; [|split].
  - rewrite map_map. apply map_ext. intros yd. simpl. rewrite map_map. reflexivity.
  - apply Forall_map, Forall_forall. intros yd _. simpl. split.
    + rewrite Hcounts. reflexivity.
    + apply Forall_map, Forall_forall. intros m _. simpl. auto.
  - f_equal. f_equal. rewrite map_map. apply map_ext. intros yd. simpl.
    rewrite Hcounts. reflexivity.
Qed.

Lemma GetArchive_totals_witness :
  exists resp,
    result_of gorm.handle ArchiveService.GetArchive
      (sample.oneYear (fun keys => keys)) = Ok resp
    /\ ArchiveService.r_Total resp = 3%Z.
Proof.
  destruct (GetArchive_totals gorm.handle (sample.oneYear (fun keys => keys)) _ eq_refl)
    as (resp & Hr & _).
  exists resp. split; [exact Hr|].
  revert Hr. vm_compute. intros [= <-]. reflexivity.
Defined.

(** ** Unique slugs, continued *)

Module CheckedFacts.

Section Loop.
Context {W T : Type} (h : Handler W) (getBySlug : gostring -> Event (Result T))
        (base : gostring).

(** A slug the loop returns was the subject of its last call, which
    reported it as not found; all calls are existence checks. *)
Lemma loop_checked (fuel : nat) :
  forall (slug : gostring) (counter : N) (w : W) (r : gostring),
    result_of h (uniqueSlugLoop getBySlug fuel base slug counter) w = Ok r ->
    (r = slug \/ exists k, counter <= k <= 999 /\ r = numbered base k)
    /\ exists before w' err,
         calls_of h (uniqueSlugLoop getBySlug fuel base slug counter) w
         = before ++ [Called (getBySlug r)]
         /\ Forall (fun c => exists s, c = Called (getBySlug s)) before
         /\ (length before < fuel)%nat
         /\ (h _ (getBySlug r) w').1 = Err err
         /\ isRecordNotFound err = true
         /\ state_of h (uniqueSlugLoop getBySlug fuel base slug counter) w
            = (h _ (getBySlug r) w').2.
Proof.
  induction fuel as [|fuel IH]; intros slug counter w r;
    cbn [uniqueSlugLoop bind call].
  - unfold result_of. simpl. discriminate.
  - rewrite result_of_Call, calls_of_Call, state_of_Call.
    destruct (h _ (getBySlug slug) w) as [[t|err] w1] eqn:Eh; cbn [fst snd].
    + destruct (N.ltb_spec 1000 (counter + 1)); [unfold result_of; simpl; discriminate|].
      intros Hr. destruct (IH _ _ _ _ Hr) as (Hwhich & before & w' & err & Hc & Hb & Hl & He & Hn & Hs).
      split.
      * right. destruct Hwhich as [->|(k & Hk & ->)].
        -- exists counter. split; [clear -H; lia | reflexivity].
        -- exists k. split; [clear -H Hk; lia | reflexivity].
      * exists (Called (getBySlug slug) :: before), w', err.
        rewrite Hc. repeat split; try assumption.
        -- constructor; [eauto | exact Hb].
        -- simpl. lia.
    + destruct (isRecordNotFound err) eqn:En; unfold result_of; simpl; [|discriminate].
      intros [= <-]. split; [left; reflexivity|].
      exists [], w, err. rewrite Eh. unfold calls_of, state_of. simpl.
      repeat split; try assumption; [constructor | simpl; lia].
Qed.

End Loop.
End CheckedFacts.

(** X14.  A slug that [generateUniqueSlug] returns - in the tag service and
    in the article service alike - has just been checked: the last call is
    the existence check of that very slug, answered with record-not-found.
    The slug is the base slug or the base slug with a number from 1 to 999,
    and the function has made nothing but existence checks, at most 1000
    of them. *)
Theorem generateUniqueSlug_checked_free `{CaseTable} {W} (h : Handler W) (w : W)
    (text slug : gostring) :
  let base := utils.GenerateSlug text in
  (result_of h (TagService.generateUniqueSlug text) w = Ok slug ->
   base <> []
   /\ (slug = base \/ exists k, 1 <= k <= 999 /\ slug = numbered base k)
   /\ exists before w' err,
        calls_of h (TagService.generateUniqueSlug text) w
        = before ++ [Called (TagGetBySlug slug)]
        /\ Forall (fun c => exists s, c = Called (TagGetBySlug s)) before
        /\ (length before < 1000)%nat
        /\ (h _ (TagGetBySlug slug) w').1 = Err err
        /\ isRecordNotFound err = true)
  /\ (result_of h (ArticleService.generateUniqueSlug text) w = Ok slug ->
      base <> []
      /\ (slug = base \/ exists k, 1 <= k <= 999 /\ slug = numbered base k)
      /\ exists before w' err,
           calls_of h (ArticleService.generateUniqueSlug text) w
           = before ++ [Called (ArticleGetBySlug slug)]
           /\ Forall (fun c => exists s, c = Called (ArticleGetBySlug s)) before
           /\ (length before < 1000)%nat
           /\ (h _ (ArticleGetBySlug slug) w').1 = Err err
           /\ isRecordNotFound err = true).
Proof.
  intros base.
  unfold TagService.generateUniqueSlug, ArticleService.generateUniqueSlug.
  fold base.
  destruct (decide (base = [])) as [E|Hne];
    [split; unfold result_of; simpl; discriminate|].
  split; intros Hr;
    (split; [exact Hne|]);
    destruct (CheckedFacts.loop_checked h _ base 1000 base 1 w slug Hr)
      as (Hwhich & before & w' & err & Hc & Hb & Hl & He & Hn & _);
    (split; [exact Hwhich|]);
    exists before, w', err; auto.
Qed.

Lemma generateUniqueSlug_checked_free_witness :
  result_of (mocks.handle (sample.withTagSlugs (lit "go") 2))
    (@TagService.generateUniqueSlug asciiCaseTable (lit "Go!")) 0%nat
  = Ok (lit "go-3")
  /\ @utils.GenerateSlug asciiCaseTable (lit "Go!") <> [].
Proof.
  assert (result_of (mocks.handle (sample.withTagSlugs (lit "go") 2))
            (@TagService.generateUniqueSlug asciiCaseTable (lit "Go!")) 0%nat
          = Ok (lit "go-3")) as Hr by (vm_compute; reflexivity).
  split; [exact Hr|].
  exact (proj1 (proj1 (@generateUniqueSlug_checked_free asciiCaseTable nat
                         (mocks.handle (sample.withTagSlugs (lit "go") 2)) 0%nat
                         (lit "Go!") (lit "go-3")) Hr)).
Defined.

(** ** The tag resolver, continued *)

Module OrderFacts.

Lemma freshNames_from (tagNames : list gostring) :
  forall (processed : gmap gostring bool) (name : gostring),
    In name (freshNames tagNames processed) ->
    name <> [] /\ exists raw, In raw tagNames /\ name = strings.TrimSpace raw.
Proof.
  induction tagNames as [|raw rest IH]; intros processed name; simpl; [tauto|].
  destruct (decide (strings.TrimSpace raw = [])) as [|Hne].
  - intros Hin. destruct (IH _ _ Hin) as (? & raw' & ? & ?). eauto.
  - destruct (default false (processed !! strings.TrimSpace raw)).
    + intros Hin. destruct (IH _ _ Hin) as (? & raw' & ? & ?). eauto.
    + intros [<-|Hin]; [eauto|].
      destruct (IH _ _ Hin) as (? & raw' & ? & ?). eauto.
Qed.

Lemma freshNames_length (tagNames : list gostring) :
  forall processed : gmap gostring bool,
    (length (freshNames tagNames processed) <= length tagNames)%nat.
Proof.
  induction tagNames as [|raw rest IH]; intros processed; simpl; [lia|].
  destruct (decide _); [specialize (IH processed); lia|].
  destruct (default false _); [specialize (IH processed); lia|].
  simpl. specialize (IH (<[strings.TrimSpace raw:=true]> processed)). lia.
Qed.

End OrderFacts.

(** X15.  [ProcessTagNames] returns its tags in the order in which their
    names first occur in the batch: the names of the tags are the trimmed,
    non-empty names of the batch, each once, in first-seen order.  (The
    repository is taken to hand out tags under the name asked for.) *)
Theorem ProcessTagNames_first_seen_order `{CaseTable} {W} (h : Handler W) (w : W)
    (tagNames : list gostring) (tags : list Tag) :
  nameFaithful h ->
  result_of h (TagService.ProcessTagNames tagNames) w = Ok tags ->
  map Tag_Name tags = freshNames tagNames ∅
  /\ List.NoDup (map Tag_Name tags)
  /\ (length tags <= length tagNames)%nat
  /\ (forall name, In name (map Tag_Name tags) ->
        name <> [] /\ exists raw, In raw tagNames /\ name = strings.TrimSpace raw)
  /\ (forall raw, In raw tagNames -> strings.TrimSpace raw <> [] ->
        In (strings.TrimSpace raw) (map Tag_Name tags)).
Proof.
  intros Hfaithful Hok.
  pose proof (TagFacts.processLoop_names h Hfaithful tagNames [] ∅ w tags Hok)
    as Hnames.
  simpl in Hnames. rewrite Hnames.
  split; [reflexivity|]. split; [apply TagFacts.freshNames_NoDup|].
  split; [|split].
  - rewrite <- (length_map Tag_Name), Hnames. apply OrderFacts.freshNames_length.
  - apply OrderFacts.freshNames_from.
  - intros raw Hin Hne. apply TagFacts.freshNames_complete; auto.
Qed.

Lemma ProcessTagNames_first_seen_order_witness :
  nameFaithful gorm.handle
  /\ result_of gorm.handle
       (@TagService.ProcessTagNames asciiCaseTable
          [lit "rust"; lit " go"; lit "rust "; lit "  "]) sample.blog
     = Ok [mkTag 1 (lit "rust") (lit "rust"); mkTag 2 (lit "go") (lit "go")]
  /\ map Tag_Name [mkTag 1 (lit "rust") (lit "rust"); mkTag 2 (lit "go") (lit "go")]
     = [lit "rust"; lit "go"].
Proof.
  split; [exact TagFacts.gorm_nameFaithful|].
  assert (result_of gorm.handle
            (@TagService.ProcessTagNames asciiCaseTable
               [lit "rust"; lit " go"; lit "rust "; lit "  "]) sample.blog
          = Ok [mkTag 1 (lit "rust") (lit "rust"); mkTag 2 (lit "go") (lit "go")])
    as Hr by (vm_compute; reflexivity).
  split; [exact Hr|].
  rewrite (proj1 (@ProcessTagNames_first_seen_order asciiCaseTable World gorm.handle
                    sample.blog _ _ TagFacts.gorm_nameFaithful Hr)).
  vm_compute. reflexivity.
Defined.

(** ** The article service, continued *)

(** X16.  An update that asks for nothing new writes nothing: when title,
    content, category and status are left out or repeat what is stored, the
    excerpt equals the stored one and no tags are given, [Update] returns
    the article as read, and the read is its only call. *)
Theorem Update_without_change `{CaseTable} {W} (h : Handler W) (w w1 : W)
    (id : N) (article : Article) (req : ArticleService.UpdateArticleRequest) :
  ArticleService.validateUpdateRequest (Some req) = None ->
  h _ (ArticleGetByID id) w = (Ok article, w1) ->
  ArticleService.u_Title req = [] \/ ArticleService.u_Title req = Title article ->
  ArticleService.u_Content req = [] \/ ArticleService.u_Content req = Content article ->
  ArticleService.u_Excerpt req = Excerpt article ->
  match ArticleService.u_CategoryID req, CategoryID article with
  | None, _ => True
  | Some wanted, None => wanted = 0
  | Some wanted, Some current => wanted = current
  end ->
  ArticleService.u_Status req = [] \/ ArticleService.u_Status req = Status article ->
  ArticleService.u_TagNames req = None ->
  run h (ArticleService.Update id (AuthorID article) (Some req)) w
  = (Ok article, w1, [Called (ArticleGetByID id)]).
Proof.
  intros Hvalid Hget Htitle Hcontent Hexcerpt Hcategory Hstatus Htags.
  unfold ArticleService.Update. rewrite Hvalid.
  rewrite run_call_bind, Hget. cbn [fst snd].
  rewrite N.eqb_refl. cbn [negb].
  assert (negb (bool_decide (ArticleService.u_Title req = []))
          && negb (bool_decide (ArticleService.u_Title req = Title article)) = false)
    as ->.
  { destruct Htitle as [E|E]; rewrite E.
    - reflexivity.
    - rewrite (bool_decide_eq_true_2 (Title article = Title article)) by reflexivity.
      apply andb_false_r. }
  unfold bindOk at 1. cbn [bind].
  assert (negb (bool_decide (ArticleService.u_Content req = []))
          && negb (bool_decide (ArticleService.u_Content req = Content article)) = false)
    as ->.
  { destruct Hcontent as [E|E]; rewrite E.
    - reflexivity.
    - rewrite (bool_decide_eq_true_2 (Content article = Content article)) by reflexivity.
      apply andb_false_r. }
  rewrite Hexcerpt, (bool_decide_eq_true_2 (Excerpt article = Excerpt article))
    by reflexivity.
  cbn [negb].
  assert (negb (bool_decide (ArticleService.u_Status req = []))
          && negb (bool_decide (Status article = ArticleService.u_Status req)) = false)
    as Hst.
  { destruct Hstatus as [E|E]; rewrite E.
    - reflexivity.
    - rewrite (bool_decide_eq_true_2 (Status article = Status article)) by reflexivity.
      apply andb_false_r. }
  rewrite Htags.
  destruct (ArticleService.u_CategoryID req) as [wanted|].
  - destruct (CategoryID article) as [current|] eqn:Ec.
    + subst wanted. rewrite N.eqb_refl. cbn [negb].
      unfold bindOk. cbn [bind]. rewrite Hst. reflexivity.
    + subst wanted. cbn. rewrite Hst. reflexivity.
  - unfold bindOk. cbn [bind]. rewrite Hst. reflexivity.
Qed.

Lemma Update_without_change_witness :
  run gorm.handle
    (@ArticleService.Update asciiCaseTable 2 1
       (Some (ArticleService.mkUpdateArticleRequest [] [] [] None None
                (lit "published"))))
    sample.blog
  = (Ok sample.published, gorm.step sample.blog, [Called (ArticleGetByID 2)]).
Proof.
  exact (@Update_without_change asciiCaseTable World gorm.handle sample.blog
           (gorm.step sample.blog) 2 sample.published
           (ArticleService.mkUpdateArticleRequest [] [] [] None None (lit "published"))
           eq_refl eq_refl (or_introl eq_refl) (or_introl eq_refl) eq_refl I
           (or_intror eq_refl) eq_refl).
Defined.

(** X17.  Nobody but the author changes an article: for any other caller
    [Update], [changeStatus], [Publish], [Unpublish] and [Archive] answer
    with the authorization error right after reading the article, and make
    no other call. *)
Theorem changes_by_others_refused `{CaseTable} {W} (h : Handler W) (w w1 : W)
    (id caller : N) (article : Article) :
  h _ (ArticleGetByID id) w = (Ok article, w1) ->
  AuthorID article <> caller ->
  (forall req,
     ArticleService.validateUpdateRequest (Some req) = None ->
     run h (ArticleService.Update id caller (Some req)) w
     = (Err (errors_New "unauthorized: you can only edit your own articles"),
        w1, [Called (ArticleGetByID id)]))
  /\ (forall status,
        run h (ArticleService.changeStatus id caller status) w
        = (Err (errors_New "unauthorized: you can only modify your own articles"),
           w1, [Called (ArticleGetByID id)]))
  /\ (forall op, In op [ArticleService.Publish; ArticleService.Unpublish;
                        ArticleService.Archive] ->
        run h (op id caller) w
        = (Err (errors_New "unauthorized: you can only modify your own articles"),
           w1, [Called (ArticleGetByID id)])).
Proof.
  intros Hget Hother.
  assert (negb (AuthorID article =? caller) = true) as Hneg
    by (apply negb_true_iff, N.eqb_neq; exact Hother).
  assert (forall status,
            run h (ArticleService.changeStatus id caller status) w
            = (Err (errors_New "unauthorized: you can only modify your own articles"),
               w1, [Called (ArticleGetByID id)])) as Hchange.
  { intros status. unfold ArticleService.changeStatus.
    rewrite run_call_bind, Hget. cbn [fst snd]. rewrite Hneg. reflexivity. }
  split; [|split].
  - intros req Hvalid. unfold ArticleService.Update. rewrite Hvalid.
    rewrite run_call_bind, Hget. cbn [fst snd]. rewrite Hneg. reflexivity.
  - exact Hchange.
  - intros op [<-|[<-|[<-|[]]]]; apply Hchange.
Qed.

Lemma changes_by_others_refused_witness :
  gorm.handle _ (ArticleGetByID 2) sample.blog
  = (Ok sample.published, gorm.step sample.blog)
  /\ run gorm.handle (ArticleService.Archive 2 7) sample.blog
     = (Err (errors_New "unauthorized: you can only modify your own articles"),
        gorm.step sample.blog, [Called (ArticleGetByID 2)]).
Proof.
  split; [reflexivity|].
  refine (proj2 (proj2 (@changes_by_others_refused asciiCaseTable World gorm.handle
                          sample.blog (gorm.step sample.blog) 2 7 sample.published
                          eq_refl _)) ArticleService.Archive _).
  - discriminate.
  - right. right. left. reflexivity.
Defined.

(** X18.  [Update] takes an excerpt that differs from the stored one as a
    change, also the empty excerpt of a request that leaves the field out:
    a request with nothing but such an excerpt makes [Update] write the
    article with the trimmed excerpt of the request in place of the stored
    one. *)
Theorem Update_overwrites_excerpt `{CaseTable} {W} (h : Handler W) (w w1 : W)
    (id : N) (article : Article) (req : ArticleService.UpdateArticleRequest) :
  ArticleService.validateUpdateRequest (Some req) = None ->
  h _ (ArticleGetByID id) w = (Ok article, w1) ->
  ArticleService.u_Title req = [] ->
  ArticleService.u_Content req = [] ->
  ArticleService.u_CategoryID req = None ->
  ArticleService.u_Status req = [] ->
  ArticleService.u_TagNames req = None ->
  ArticleService.u_Excerpt req <> Excerpt article ->
  calls_of h (ArticleService.Update id (AuthorID article) (Some req)) w
  = [Called (ArticleGetByID id);
     Called (ArticleUpdate
               (set_Excerpt (strings.TrimSpace (ArticleService.u_Excerpt req))
                  article))].
Proof.
  intros Hvalid Hget Htitle Hcontent Hcategory Hstatus Htags Hexcerpt.
  unfold calls_of, ArticleService.Update. rewrite Hvalid.
  rewrite run_call_bind, Hget. cbn [fst snd].
  rewrite N.eqb_refl, Htitle, Hcontent, Hcategory, Hstatus, Htags.
  change (bool_decide (@nil rune = [])) with true.
  unfold bindOk. cbn -[bool_decide strings.TrimSpace run].
  rewrite (bool_decide_eq_false_2 _ Hexcerpt).
  cbn -[strings.TrimSpace].
  destruct (h _ (ArticleUpdate _) w1) as [[saved [err|]] w2]; reflexivity.
Qed.

Lemma Update_overwrites_excerpt_witness :
  calls_of gorm.handle
    (@ArticleService.Update asciiCaseTable 2 1
       (Some (ArticleService.mkUpdateArticleRequest [] [] (lit " short ") None None [])))
    sample.blog
  = [Called (ArticleGetByID 2);
     Called (ArticleUpdate (set_Excerpt (lit "short") sample.published))].
Proof.
  refine (@Update_overwrites_excerpt asciiCaseTable World gorm.handle sample.blog
            (gorm.step sample.blog) 2 sample.published
            (ArticleService.mkUpdateArticleRequest [] [] (lit " short ") None None [])
            eq_refl eq_refl eq_refl eq_refl eq_refl eq_refl eq_refl _).
  discriminate.
Defined.

(** X19.  A title that passes the validation of the request but holds no
    letter or digit gives no slug: [Create] fails with the slug error after
    looking up the author, and writes nothing. *)
Theorem Create_title_without_letters `{CaseTable} {W} (h : Handler W) (w w1 : W)
    (authorID : N) (author : User) (req : ArticleService.CreateArticleRequest) :
  ArticleService.validateCreateRequest (Some req) = None ->
  utils.GenerateSlug (ArticleService.c_Title req) = [] ->
  h _ (UserGetByID authorID) w = (Ok author, w1) ->
  run h (ArticleService.Create authorID (Some req)) w
  = (Err (ErrWrap (lit "failed to generate slug")
            (errors_New "cannot generate slug from title")),
     w1, [Called (UserGetByID authorID)]).
Proof.
  intros Hvalid Hslug Hget.
  unfold ArticleService.Create. rewrite Hvalid.
  rewrite run_call_bind, Hget. cbn [fst snd].
  unfold ArticleService.generateUniqueSlug. rewrite Hslug. reflexivity.
Qed.

Lemma Create_title_without_letters_witness :
  run gorm.handle
    (@ArticleService.Create asciiCaseTable 1
       (Some (ArticleService.mkCreateArticleRequest (lit "?!") (lit "text") [] None
                None [])))
    sample.blog
  = (Err (ErrWrap (lit "failed to generate slug")
            (errors_New "cannot generate slug from title")),
     gorm.step sample.blog, [Called (UserGetByID 1)]).
Proof.
  exact (@Create_title_without_letters asciiCaseTable World gorm.handle sample.blog
           (gorm.step sample.blog) 1 sample.author
           (ArticleService.mkCreateArticleRequest (lit "?!") (lit "text") [] None
              None [])
           eq_refl eq_refl eq_refl).
Defined.

Module InsertFacts.
Import ProgramFacts.

Lemma inserts_bind {A} (Q : A -> Prop) (P : Article -> Prop)
    (m : Prog A) (f : A -> Prog (Result Article)) :
  quiet Q m -> (forall a, Q a -> inserts P (f a)) -> inserts P (bind m f).
Proof.
  intros Hq Hf. induction Hq as [r Hr | X e k He _ IH]; simpl.
  - apply Hf. exact Hr.
  - apply inserts_read; [exact He | exact IH].
Qed.

Lemma inserts_bindOk {A} (J : A -> Prop) (P : Article -> Prop)
    (m : Prog (Result A)) (f : A -> Prog (Result Article)) :
  quiet (okAnd J) m -> (forall a, J a -> inserts P (f a)) ->
  inserts P (bindOk m f).
Proof.
  intros Hq Hf. unfold bindOk. apply (inserts_bind (okAnd J)); [exact Hq|].
  intros [a|err] Hr; [apply Hf; exact Hr | apply inserts_Err].
Qed.

Lemma inserts_sound (P : Article -> Prop) (p : Prog (Result Article)) :
  inserts P p ->
  forall (w : World) (a : Article),
    result_of gorm.handle p w = Ok a ->
    exists a0 w1,
      P a0 /\ untouched w w1
      /\ gorm.articleRepository_Create a0 w1 = ((a, None), state_of gorm.handle p w).
Proof.
  induction 1 as [err | X e k He _ IH | a0 k Ha Hk]; intros w a.
  - unfold result_of. simpl. discriminate.
  - rewrite result_of_Call, state_of_Call. intros Hr.
    destruct (IH _ _ _ Hr) as (a0 & w1 & Ha & [Hu1 Hu2] & Hc).
    destruct (StoreFacts.read_untouched e w He) as [Hr1 Hr2].
    exists a0, w1. split; [exact Ha|]. split; [split; congruence | exact Hc].
  - rewrite result_of_Call, state_of_Call, Hk. unfold result_of, state_of. simpl.
    destruct (gorm.articleRepository_Create a0 w) as [[a' [err|]] w'] eqn:Ec;
      simpl; [discriminate|].
    intros [= <-]. exists a0, w. split; [exact Ha|].
    split; [split; reflexivity | exact Ec].
Qed.

Section WithTable.
Context `{CaseTable}.

Lemma inserts_Create_service (authorID : N)
    (req : option ArticleService.CreateArticleRequest) :
  inserts (fun a => AuthorID a = authorID /\ DeletedAt a = None /\ ID a = 0)
    (ArticleService.Create authorID req).
Proof.
  unfold ArticleService.Create.
  destruct (ArticleService.validateCreateRequest req); [apply inserts_Err|].
  destruct req as [req|]; [|apply inserts_Err].
  cbn [bind call]. apply inserts_read; [reflexivity|].
  intros [author|err]; [|apply inserts_Err].
  apply (inserts_bind (fun _ => True)); [apply quiet_article_generateUniqueSlug|].
  intros [slug|err] _; [|apply inserts_Err].
  set (P := fun a : Article => AuthorID a = authorID /\ DeletedAt a = None /\ ID a = 0).
  apply (inserts_bindOk P).
  { destruct (ArticleService.c_CategoryID req) as [categoryID|].
    - cbn [bind call]. apply quiet_Call; [reflexivity|].
      intros [category|err]; apply quiet_Ret; simpl; [|exact I].
      repeat split.
    - apply quiet_Ret. simpl. repeat split. }
  intros article1 HP1.
  apply (inserts_bind P).
  { assert (P (if decide (ArticleService.c_Status req = []) then article1
               else set_Status (ArticleService.c_Status req) article1)) as HP2
      by (destruct (decide _); [exact HP1 | exact HP1]).
    destruct (decide (Status _ = StatusPublished)).
    - cbn [bind call]. apply quiet_Call; [reflexivity|]. intros now.
      apply quiet_Ret. exact HP2.
    - apply quiet_Ret. exact HP2. }
  intros article2 HP2.
  apply (inserts_bindOk P).
  { destruct (ArticleService.c_TagNames req) as [[|name names]|];
      [apply quiet_Ret; exact HP2 | | apply quiet_Ret; exact HP2].
    apply (quiet_bind (fun _ => True)); [apply quiet_processTagNames|].
    intros [tags|err] _; apply quiet_Ret; [exact HP2 | exact I]. }
  intros article3 HP3.
  cbn [bind call]. apply inserts_Create; [exact HP3|].
  intros [created [err|]]; reflexivity.
Qed.

End WithTable.

(** An insert that is refused leaves the table as it was. *)
Lemma Create_refused (a0 : Article) (w : World) (err : error) :
  (gorm.articleRepository_Create a0 w).1.2 = Some err ->
  untouched w (gorm.articleRepository_Create a0 w).2.
Proof.
  unfold gorm.articleRepository_Create.
  destruct (gorm.faulty w); [split; reflexivity|].
  destruct (hooks.Article_Validate _ _ a0) as [a0' [e|]]; [split; reflexivity|].
  destruct (gorm.slugTaken _ w); [split; reflexivity | discriminate].
Qed.

(** A program that only inserts, and fails, has stored no article. *)
Lemma inserts_failed (P : Article -> Prop) (p : Prog (Result Article)) :
  inserts P p ->
  forall (w : World) (err : error),
    result_of gorm.handle p w = Err err ->
    untouched w (state_of gorm.handle p w).
Proof.
  induction 1 as [err0 | X e k He _ IH | a0 k Ha Hk]; intros w err.
  - intros _. split; reflexivity.
  - rewrite result_of_Call, state_of_Call. intros Hr.
    destruct (IH _ _ _ Hr) as [Hu1 Hu2].
    destruct (StoreFacts.read_untouched e w He) as [Hr1 Hr2].
    split; congruence.
  - rewrite result_of_Call, state_of_Call, Hk. unfold result_of, state_of. simpl.
    pose proof (Create_refused a0 w) as Href.
    destruct (gorm.articleRepository_Create a0 w) as [[a' [err'|]] w'];
      simpl in *; [|discriminate].
    intros _. exact (Href err' eq_refl).
Qed.

End InsertFacts.

Module CreateFacts.

Lemma Validate_keeps (structError : Article -> option error) (now : Time)
    (a a' : Article) :
  hooks.Article_Validate structError now a = (a', None) ->
  AuthorID a' = AuthorID a /\ DeletedAt a' = DeletedAt a /\ Slug a' = Slug a
  /\ Title a' = Title a /\ Status a' = Status a
  /\ (Status a' = StatusPublished -> PublishedAt a' <> None).
Proof.
  unfold hooks.Article_Validate, hooks.validatePublishedStatus.
  destruct (structError a); [discriminate|].
  destruct (hooks.validateTitle a); [discriminate|].
  destruct (hooks.validateContent a); [discriminate|].
  destruct (decide (Status a = StatusPublished)) as [Hp|Hp].
  - destruct (PublishedAt a) as [t|] eqn:Ep; intros [= <-]; simpl;
      repeat split; auto; try congruence.
  - intros [= <-]. repeat split; auto; try congruence.
Qed.

Lemma Create_inserted (a0 a : Article) (w1 w' : World) :
  gorm.articleRepository_Create a0 w1 = ((a, None), w') ->
  ID a = w_nextArticleID w1
  /\ w_nextArticleID w' = w_nextArticleID w1 + 1
  /\ w_articles w' = <[ID a := a]> (w_articles w1)
  /\ AuthorID a = AuthorID a0 /\ DeletedAt a = DeletedAt a0
  /\ (Status a = StatusPublished -> PublishedAt a <> None)
  /\ (forall k b, w_articles w1 !! k = Some b -> ID b <> ID a -> Slug b <> Slug a).
Proof.
  unfold gorm.articleRepository_Create.
  destruct (gorm.faulty w1); [discriminate|].
  destruct (hooks.Article_Validate _ _ a0) as [a0' [err|]] eqn:Ev; [discriminate|].
  destruct (gorm.slugTaken _ w1) eqn:Et; [discriminate|].
  intros [= <- <-]. simpl.
  destruct (Validate_keeps _ _ _ _ Ev) as (Hau & Hdel & _ & _ & _ & Hstamp).
  repeat split; try assumption.
  intros k b Hkb Hid Hslug.
  unfold gorm.slugTaken in Et. simpl in Et.
  assert (existsb (fun b0 => bool_decide (Slug b0 = Slug a0') && negb (ID b0 =? w_nextArticleID w1))
            (map snd (map_to_list (w_articles w1))) = true) as Hex; [|congruence].
  apply existsb_exists. exists b. split.
  - apply in_map_iff. exists (k, b). split; [reflexivity|].
    apply list_elem_of_In, elem_of_map_to_list. exact Hkb.
  - apply andb_true_iff. split; [apply bool_decide_eq_true; exact Hslug|].
    apply negb_true_iff, N.eqb_neq. exact Hid.
Qed.

End CreateFacts.

(** X20.  Over the gorm-backed store a successful [Create] has inserted the
    article it returns: under the next key of the table, with the caller as
    author, with a publication time if it is published, with a slug that no
    other stored article has, leaving every other row as it was; and
    [GetByID] of that key returns the article again. *)
Theorem Create_then_GetByID `{CaseTable} (w : World) (authorID : N)
    (req : option ArticleService.CreateArticleRequest) (a : Article) :
  result_of gorm.handle (ArticleService.Create authorID req) w = Ok a ->
  let w' := state_of gorm.handle (ArticleService.Create authorID req) w in
  ID a = w_nextArticleID w
  /\ w_nextArticleID w' = w_nextArticleID w + 1
  /\ w_articles w' = <[ID a := a]> (w_articles w)
  /\ AuthorID a = authorID
  /\ (Status a = StatusPublished -> PublishedAt a <> None)
  /\ (forall k b, w_articles w !! k = Some b -> ID b <> ID a -> Slug b <> Slug a)
  /\ (gorm.faulty w' = false ->
      (gorm.handle _ (ArticleGetByID (ID a)) w').1 = Ok a).
Proof.
  intros Hok w'.
  destruct (InsertFacts.inserts_sound _ _
              (InsertFacts.inserts_Create_service authorID req) w a Hok)
    as (a0 & w1 & (Hauthor & Hdeleted & _) & [Harts Hnext] & Hcreate).
  fold w' in Hcreate.
  destruct (CreateFacts.Create_inserted _ _ _ _ Hcreate)
    as (Hid & Hnext' & Harts' & Hau & Hdel & Hstamp & Hslug).
  rewrite Harts in Harts', Hslug. rewrite Hnext in Hid, Hnext'.
  repeat split; try assumption; try congruence.
  intros Hfault. simpl. unfold gorm.query. rewrite Hfault. simpl.
  unfold gorm.articleRepository_GetByID. rewrite Harts', lookup_insert_eq.
  unfold gorm.live. rewrite Hdel, Hdeleted. reflexivity.
Qed.

Lemma Create_then_GetByID_witness :
  exists a,
    result_of gorm.handle
      (@ArticleService.Create asciiCaseTable 1
         (Some (ArticleService.mkCreateArticleRequest (lit "Hello World")
                  (lit "text") [] None None (lit "published"))))
      sample.blog = Ok a
    /\ ID a = 4.
Proof.
  eexists. split; [vm_compute; reflexivity|].
  refine (proj1 (@Create_then_GetByID asciiCaseTable sample.blog 1
                   (Some (ArticleService.mkCreateArticleRequest (lit "Hello World")
                            (lit "text") [] None None (lit "published"))) _ _)).
  vm_compute. reflexivity.
Defined.

Module ListFacts.

Lemma forallb_map_to_list {V} (m : gmap gostring V) (f : gostring * V -> bool) :
  forallb f (map_to_list m) = true
  <-> map_Forall (fun k v => f (k, v) = true) m.
Proof.
  rewrite forallb_forall. unfold map_Forall. split.
  - intros Hall k v Hk. apply Hall, list_elem_of_In, elem_of_map_to_list. exact Hk.
  - intros Hall [k v] Hin. apply Hall, elem_of_map_to_list, list_elem_of_In. exact Hin.
Qed.

Lemma existsb_map_to_list {V} (m : gmap gostring V) (f : gostring * V -> bool) :
  existsb f (map_to_list m) = false
  <-> map_Forall (fun k v => f (k, v) = false) m.
Proof.
  unfold map_Forall. split.
  - intros Hex k v Hk. destruct (f (k, v)) eqn:Ef; [|reflexivity].
    rewrite <- Hex. symmetry. apply existsb_exists. exists (k, v).
    split; [apply list_elem_of_In, elem_of_map_to_list; exact Hk | exact Ef].
  - intros Hall. destruct (existsb f (map_to_list m)) eqn:Ex; [|reflexivity].
    apply existsb_exists in Ex as ([k v] & Hin & Ef).
    apply list_elem_of_In, elem_of_map_to_list in Hin.
    rewrite (Hall k v Hin) in Ef. discriminate.
Qed.

Lemma filterMapOf_Forall (f : ArticleListFilters) (P : gostring -> FilterValue -> Prop) :
  map_Forall P (filterMapOf f)
  <-> (f_Status f <> [] -> P (lit "status") (FStatus (f_Status f)))
      /\ (f_CategoryID f <> 0 -> P (lit "category_id") (FUint (f_CategoryID f)))
      /\ (f_AuthorID f <> 0 -> P (lit "author_id") (FUint (f_AuthorID f))).
Proof.
  unfold filterMapOf.
  destruct (decide (f_Status f = [])) as [Es|Es];
    [rewrite (bool_decide_eq_true_2 _ Es) | rewrite (bool_decide_eq_false_2 _ Es)];
    destruct (N.ltb_spec 0 (f_CategoryID f)) as [Ec|Ec];
    destruct (N.ltb_spec 0 (f_AuthorID f)) as [Ea|Ea]; cbn [negb];
    repeat (rewrite map_Forall_insert by (vm_compute; reflexivity));
    pose proof (map_Forall_empty (M := gmap gostring) P) as Hempty;
    intuition (try lia; try congruence).
Qed.

(** The conditions of the map hold of an article exactly when the article
    meets the filters. *)
Lemma conditions_meet (f : ArticleListFilters) (a : Article) :
  forallb (fun '(field, v) => default false (gorm.filterHolds field v a))
    (map_to_list (filterMapOf f))
  = meetsFilters (Some f) a.
Proof.
  apply Bool.eq_iff_eq_true.
  rewrite (forallb_map_to_list (filterMapOf f)
             (fun '(field, v) => default false (gorm.filterHolds field v a))).
  rewrite filterMapOf_Forall. unfold meetsFilters.
  rewrite !andb_true_iff, !orb_true_iff, !bool_decide_eq_true, !N.eqb_eq.
  change (default false (gorm.filterHolds (lit "status") (FStatus (f_Status f)) a))
    with (bool_decide (Status a = f_Status f)).
  change (default false (gorm.filterHolds (lit "category_id")
                           (FUint (f_CategoryID f)) a))
    with (bool_decide (CategoryID a = Some (f_CategoryID f))).
  change (default false (gorm.filterHolds (lit "author_id")
                           (FUint (f_AuthorID f)) a))
    with (AuthorID a =? f_AuthorID f).
  rewrite !bool_decide_eq_true, N.eqb_eq.
  destruct (decide (f_Status f = [])); destruct (decide (f_CategoryID f = 0));
    destruct (decide (f_AuthorID f = 0)); tauto.
Qed.

Lemma columns_known (f : ArticleListFilters) (a : Article) :
  existsb (fun '(field, v) =>
             match gorm.filterHolds field v a with None => true | Some _ => false end)
    (map_to_list (filterMapOf f))
  = false.
Proof.
  apply (existsb_map_to_list (filterMapOf f)
           (fun '(field, v) =>
              match gorm.filterHolds field v a with None => true | Some _ => false end)).
  apply filterMapOf_Forall. repeat split; intros _; reflexivity.
Qed.

End ListFacts.

(** X21.  Over the gorm-backed store, page [p] of a listing with limit [l]
    holds the articles at the positions (p-1)l to pl-1 of the not deleted
    articles that meet the filters, newest first, together with the number
    of all such articles; a page below 1 counts as 1 and a limit outside
    1..100 as 10. *)
Theorem List_page (w : World) (page limit : Z)
    (filters : option ArticleListFilters) :
  gorm.faulty w = false ->
  match filters with Some f => f_TagID f = 0 | None => True end ->
  (page < 2 ^ 50)%Z ->
  let page' := if (page <? 1)%Z then 1%Z else page in
  let limit' := if (limit <? 1)%Z || (100 <? limit)%Z then 10%Z else limit in
  let matching := filter (fun a => Is_true (meetsFilters filters a)) (gorm.rows w) in
  result_of gorm.handle (ArticleService_List page limit filters) w
  = Ok (take (Z.to_nat limit') (drop (Z.to_nat ((page' - 1) * limit')) matching),
        Z.of_nat (length matching)).
Proof.
  intros Hfault Htag Hpage page' limit' matching.
  assert (1 <= page' < 2 ^ 50)%Z as Hp
    by (subst page'; destruct (Z.ltb_spec page 1); lia).
  assert (1 <= limit' <= 100)%Z as Hl.
  { subst limit'. destruct (Z.ltb_spec limit 1); simpl; [lia|].
    destruct (Z.ltb_spec 100 limit); lia. }
  unfold ArticleService_List. fold page' limit'. rewrite result_of_call.
  cbn [gorm.handle]. unfold gorm.query. rewrite Hfault. cbn [fst].
  assert (0 <= (page' - 1) * limit' < 2 ^ 57)%Z as Hoff.
  { split; [nia|]. 
    assert ((page' - 1) * limit' <= 2 ^ 50 * 100)%Z by nia.
    assert (2 ^ 50 * 100 < 2 ^ 57)%Z by (vm_compute; reflexivity). lia. }
  assert (2 ^ 57 < 2 ^ 63)%Z as Hpow by (vm_compute; reflexivity).
  rewrite (wrap64_small ((page' - 1) * limit')) by lia.
  unfold gorm.articleRepository_List.
  assert ((limit' =? 0)%Z = false) as -> by (apply Z.eqb_neq; lia).
  rewrite Z.quot_mul by lia.
  replace (page' - 1 + 1)%Z with page' by lia.
  rewrite (wrap64_small page') by lia.
  assert ((page' <? 1)%Z = false) as -> by (apply Z.ltb_ge; lia).
  assert ((limit' <? 1)%Z = false) as -> by (apply Z.ltb_ge; lia).
  assert ((100 <? limit')%Z = false) as -> by (apply Z.ltb_ge; lia).
  rewrite (wrap64_small ((page' - 1) * limit')) by lia.
  destruct filters as [f|].
  - rewrite Htag. change (0 <? 0) with false. cbv iota.
    change (if 0 <? f_AuthorID f then _ else _) with (filterMapOf f).
    rewrite ListFacts.columns_known.
    subst matching.
    rewrite (list_filter_iff _ (fun a => Is_true (meetsFilters (Some f) a)))
      by (intros a; rewrite ListFacts.conditions_meet; reflexivity).
    reflexivity.
  - change (map_to_list (∅ : gmap gostring FilterValue)) with (@nil (gostring * FilterValue)).
    simpl existsb. cbv iota. subst matching.
    rewrite (list_filter_iff _ (fun a => Is_true (meetsFilters None a)))
      by (intros a; reflexivity).
    reflexivity.
Qed.

Lemma List_page_witness :
  gorm.faulty sample.blog = false
  /\ result_of gorm.handle
       (ArticleService_List 2 2 (Some (mkArticleListFilters [] 0 1 0))) sample.blog
     = Ok ([sample.draft], 3%Z).
Proof.
  split; [reflexivity|].
  rewrite (List_page sample.blog 2 2 (Some (mkArticleListFilters [] 0 1 0))
             eq_refl eq_refl eq_refl).
  vm_compute. reflexivity.
Defined.

(** X22.  A listing filtered by tag fails over the gorm-backed store: the
    filter map then holds the key [tag_id], which is no column of the table
    of articles, and the store answers with its error. *)
Theorem List_by_tag_fails (w : World) (page limit : Z)
    (filters : ArticleListFilters) :
  gorm.faulty w = false ->
  f_TagID filters <> 0 ->
  result_of gorm.handle (ArticleService_List page limit (Some filters)) w
  = Err gorm.unknownColumn.
Proof.
  intros Hfault Htag.
  set (limit' := if (limit <? 1)%Z || (100 <? limit)%Z then 10%Z else limit).
  assert (1 <= limit' <= 100)%Z as Hl.
  { subst limit'. destruct (Z.ltb_spec limit 1); simpl; [lia|].
    destruct (Z.ltb_spec 100 limit); lia. }
  unfold ArticleService_List. fold limit'. rewrite result_of_call.
  cbn [gorm.handle]. unfold gorm.query. rewrite Hfault. cbn [fst].
  unfold gorm.articleRepository_List.
  assert ((limit' =? 0)%Z = false) as -> by (apply Z.eqb_neq; lia).
  assert ((0 <? f_TagID filters) = true) as -> by (apply N.ltb_lt; lia).
  match goal with
  | |- (if existsb ?f ?l then _ else _) = _ =>
      assert (existsb f l = true) as ->; [|reflexivity]
  end.
  apply existsb_exists. exists (lit "tag_id", FUint (f_TagID filters)).
  split; [|reflexivity].
  apply list_elem_of_In, elem_of_map_to_list, lookup_insert_eq.
Qed.

Lemma List_by_tag_fails_witness :
  result_of gorm.handle
    (ArticleService_List 1 10 (Some (mkArticleListFilters [] 0 0 5))) sample.blog
  = Err gorm.unknownColumn.
Proof.
  refine (List_by_tag_fails sample.blog 1 10 (mkArticleListFilters [] 0 0 5)
            eq_refl _).
  discriminate.
Defined.

(** ** The statistics of the archive *)

Module StatisticsFacts.
Import ArchiveService.

Section Best.
Context {A : Type} (key : A -> Z).

Lemma moreActive_from (l : list A) :
  forall current : A,
    exists b, foldl (moreActive key) (Some current) l = Some b
      /\ ((b = current /\ forall y, In y l -> (key y <= key current)%Z)
          \/ ((key current < key b)%Z /\ firstHighest key b l)).
Proof.
  induction l as [|x rest IH]; intros current; simpl.
  - exists current. split; [reflexivity|]. left. split; [reflexivity|tauto].
  - destruct (Z.ltb_spec (key current) (key x)) as [Hlt|Hge].
    + destruct (IH x)
        as (b & Hb & [[Hbx Hall]|[Hlt' (before & after & Hl & Hbefore & Hafter)]]);
        exists b; (split; [exact Hb|]); right.
      * subst b. split; [exact Hlt|]. exists [], rest. split; [reflexivity|].
        split; [intros y []|exact Hall].
      * split; [lia|]. exists (x :: before), after. rewrite Hl.
        split; [reflexivity|].
        split; [|exact Hafter]. intros y [<-|Hy]; [exact Hlt'|apply Hbefore, Hy].
    + destruct (IH current)
        as (b & Hb & [[Hbx Hall]|[Hlt' (before & after & Hl & Hbefore & Hafter)]]);
        exists b; (split; [exact Hb|]).
      * subst b. left. split; [reflexivity|].
        intros y [<-|Hy]; [exact Hge|apply Hall, Hy].
      * right. split; [exact Hlt'|]. exists (x :: before), after. rewrite Hl.
        split; [reflexivity|]. split; [|exact Hafter].
        intros y [<-|Hy]; [lia|apply Hbefore, Hy].
Qed.

(** Folding [moreActive] over a list finds the first element with the
    highest key, and nothing only in the empty list. *)
Lemma moreActive_first (l : list A) :
  match foldl (moreActive key) None l with
  | None => l = []
  | Some b => firstHighest key b l
  end.
Proof.
  destruct l as [|x rest]; [reflexivity|]. simpl.
  destruct (moreActive_from rest x)
    as (b & -> & [[Hbx Hall]|[Hb (before & after & Hl & Hbefore & Hafter)]]).
  - subst b. exists [], rest. split; [reflexivity|].
    split; [intros y []|exact Hall].
  - exists (x :: before), after. rewrite Hl. split; [reflexivity|].
    split; [|exact Hafter].
    intros y [<-|Hy]; [exact Hb|apply Hbefore, Hy].
Qed.

End Best.

(** The loop over the years keeps two independent records: the year over
    the years, the month over all the months. *)
Lemma most_active_split (years : list ArchiveService.ArchiveYear) :
  forall mostActiveYear mostActiveMonth,
    foldl (fun '(mostActiveYear, mostActiveMonth) year =>
             (moreActive ArchiveService.Total mostActiveYear year,
              foldl (moreActive ArchiveService.ArticleCount) mostActiveMonth
                (ArchiveService.Months year)))
      (mostActiveYear, mostActiveMonth) years
    = (foldl (moreActive ArchiveService.Total) mostActiveYear years,
       foldl (moreActive ArchiveService.ArticleCount) mostActiveMonth
         (concat (ArchiveService.Months <$> years))).
Proof.
  induction years as [|year rest IH]; intros y m; [reflexivity|].
  simpl. rewrite IH, foldl_app. reflexivity.
Qed.

Lemma totalMonths_fold (years : list ArchiveService.ArchiveYear) :
  forall n : Z,
    (0 <= n)%Z ->
    (n + Z.of_nat (length (concat (ArchiveService.Months <$> years))) < 2 ^ 63)%Z ->
    foldl (fun totalMonths year =>
             wrap64 (totalMonths
                     + Z.of_nat (length (ArchiveService.Months year))))
      n years
    = (n + Z.of_nat (length (concat (ArchiveService.Months <$> years))))%Z.
Proof.
  induction years as [|year rest IH]; intros n Hn Hlt.
  - cbn. lia.
  - cbn [fmap list_fmap concat foldl] in *. rewrite length_app in *.
    rewrite wrap64_small by lia. rewrite IH by lia. lia.
Qed.

End StatisticsFacts.

(** X23. [GetArchiveStatistics] answers with the totals of the archive it
    read; its most active year is the first year of the archive with the
    highest total and its most active month the first month with the
    highest count, and each is missing only when the archive has no year,
    or no month. *)
Theorem GetArchiveStatistics_most_active {W} (h : Handler W) (w : W)
    (stats : ArchiveService.ArchiveStatistics) :
  result_of h ArchiveService.GetArchiveStatistics w = Ok stats ->
  exists archive,
    result_of h ArchiveService.GetArchive w = Ok archive
    /\ ArchiveService.total_articles stats = ArchiveService.r_Total archive
    /\ ArchiveService.total_years stats = Z.of_nat (length (ArchiveService.Years archive))
    /\ ((Z.of_nat (length (monthsOf archive)) < 2 ^ 63)%Z ->
        ArchiveService.total_months stats = Z.of_nat (length (monthsOf archive)))
    /\ match ArchiveService.most_active_year stats with
       | None => ArchiveService.Years archive = []
       | Some (y, count) =>
           exists year,
             firstHighest ArchiveService.Total year (ArchiveService.Years archive)
             /\ y = ArchiveService.Year year
             /\ count = ArchiveService.Total year
       end
    /\ match ArchiveService.most_active_month stats with
       | None => monthsOf archive = []
       | Some month =>
           firstHighest ArchiveService.ArticleCount month (monthsOf archive)
       end.
Proof.
  unfold ArchiveService.GetArchiveStatistics. rewrite result_of_bind.
  destruct (result_of h ArchiveService.GetArchive w) as [archive|err];
    [|discriminate].
  rewrite StatisticsFacts.most_active_split.
  cbn. intros [= <-]. exists archive. cbn.
  split; [reflexivity|]. split; [reflexivity|]. split; [reflexivity|].
  split; [|split].
  - intros Hlt. apply (StatisticsFacts.totalMonths_fold _ 0%Z); [lia|exact Hlt].
  - pose proof (StatisticsFacts.moreActive_first ArchiveService.Total
                  (ArchiveService.Years archive)) as H.
    destruct (foldl _ None (ArchiveService.Years archive)) as [year|]; cbn.
    + exists year. auto.
    + exact H.
  - exact (StatisticsFacts.moreActive_first ArchiveService.ArticleCount
             (monthsOf archive)).
Qed.

Lemma GetArchiveStatistics_most_active_witness :
  exists stats archive,
    result_of gorm.handle ArchiveService.GetArchiveStatistics
      (sample.oneYear (fun keys => keys)) = Ok stats
    /\ result_of gorm.handle ArchiveService.GetArchive
         (sample.oneYear (fun keys => keys)) = Ok archive
    /\ ArchiveService.total_articles stats = ArchiveService.r_Total archive.
Proof.
  destruct (result_of gorm.handle ArchiveService.GetArchiveStatistics
              (sample.oneYear (fun keys => keys))) as [stats|err] eqn:E;
    [|vm_compute in E; discriminate].
  destruct (GetArchiveStatistics_most_active gorm.handle _ stats E)
    as (archive & Harchive & Htotal & _).
  exists stats, archive. auto.
Defined.

(** ** The popular tags *)

Module BubbleFacts.

Section Sorting.
Context {A : Type} (count : A -> Z).

Lemma swapAdjacent_cases (j : nat) (s : list A) :
  (swapAdjacent count j s = s
   /\ forall a b, s !! j = Some a -> s !! (j + 1)%nat = Some b ->
        (count b <= count a)%Z)
  \/ (exists a b, s !! j = Some a /\ s !! (j + 1)%nat = Some b
        /\ (count a < count b)%Z
        /\ swapAdjacent count j s = <[j := b]> (<[(j + 1)%nat := a]> s)).
Proof.
  unfold swapAdjacent.
  destruct (s !! j) as [a|] eqn:Ei; [|left; split; [reflexivity | discriminate]].
  destruct (s !! (j + 1)%nat) as [b|] eqn:Ej;
    [|left; split; [reflexivity | discriminate]].
  destruct (Z.ltb_spec (count a) (count b)) as [Hlt|Hge].
  - right. exists a, b. auto.
  - left. split; [reflexivity|]. intros a' b' [= <-] [= <-]. exact Hge.
Qed.

Lemma swapAdjacent_length (j : nat) (s : list A) :
  length (swapAdjacent count j s) = length s.
Proof.
  destruct (swapAdjacent_cases j s) as [[-> _]|(a & b & _ & _ & _ & ->)];
    [reflexivity|].
  rewrite !length_insert. reflexivity.
Qed.

Lemma swapAdjacent_Permutation (j : nat) (s : list A) :
  swapAdjacent count j s ≡ₚ s.
Proof.
  destruct (swapAdjacent_cases j s) as [[-> _]|(a & b & Ei & Ej & _ & ->)];
    [reflexivity|].
  apply Permutation_insert_swap; assumption.
Qed.

(** After the swap every element sits where it was, or one place off at
    [j] or [j + 1]. *)
Lemma swapAdjacent_from (j q : nat) (s : list A) (b : A) :
  swapAdjacent count j s !! q = Some b ->
  s !! q = Some b
  \/ (q = j /\ s !! (j + 1)%nat = Some b)
  \/ (q = (j + 1)%nat /\ s !! j = Some b).
Proof.
  destruct (swapAdjacent_cases j s) as [[-> _]|(a0 & b0 & Ei & Ej & Hlt & ->)];
    [auto|].
  pose proof (lookup_lt_Some _ _ _ Ei) as Hli.
  pose proof (lookup_lt_Some _ _ _ Ej) as Hlj.
  destruct (decide (q = j)) as [->|Hqi].
  - rewrite list_lookup_insert_eq by (rewrite length_insert; exact Hli).
    intros [= <-]. auto.
  - rewrite list_lookup_insert_ne by congruence.
    destruct (decide (q = (j + 1)%nat)) as [->|Hqj].
    + rewrite list_lookup_insert_eq by exact Hlj. intros [= <-]. auto.
    + rewrite list_lookup_insert_ne by congruence. auto.
Qed.

Lemma swapAdjacent_elsewhere (j p : nat) (s : list A) :
  p <> j -> p <> (j + 1)%nat -> swapAdjacent count j s !! p = s !! p.
Proof.
  intros Hi Hj.
  destruct (swapAdjacent_cases j s) as [[-> _]|(a & b & _ & _ & _ & ->)];
    [reflexivity|].
  rewrite !list_lookup_insert_ne by congruence. reflexivity.
Qed.

(** One comparison carries the smallest count seen one place on. *)
Lemma swapAdjacent_sinks (k : nat) (s : list A) :
  sinksTo count s k -> sinksTo count (swapAdjacent count k s) (k + 1).
Proof.
  intros Hk p a b Hp Ha Hb.
  destruct (swapAdjacent_cases k s) as [[E Hle]|(a0 & b0 & Ei & Ej & Hlt & E)];
    rewrite E in *.
  - destruct (decide (p = k)) as [->|Hne]; [exact (Hle _ _ Ha Hb)|].
    destruct (s !! k) as [c|] eqn:Ec.
    + specialize (Hle c b eq_refl Hb).
      specialize (Hk p a c ltac:(lia) Ha Ec). lia.
    + apply lookup_ge_None in Ec. apply lookup_lt_Some in Hb. lia.
  - pose proof (lookup_lt_Some _ _ _ Ei) as Hli.
    pose proof (lookup_lt_Some _ _ _ Ej) as Hlj.
    rewrite list_lookup_insert_ne in Hb by lia.
    rewrite list_lookup_insert_eq in Hb by exact Hlj. injection Hb as <-.
    destruct (decide (p = k)) as [->|Hne].
    + rewrite list_lookup_insert_eq in Ha by (rewrite length_insert; exact Hli).
      injection Ha as <-. lia.
    + rewrite !list_lookup_insert_ne in Ha by lia.
      exact (Hk p a a0 ltac:(lia) Ha Ei).
Qed.

(** A comparison below [n] leaves the part from [n] on settled. *)
Lemma swapAdjacent_settled (j n : nat) (s : list A) :
  (j + 1 < n)%nat ->
  settledFrom count s n -> settledFrom count (swapAdjacent count j s) n.
Proof.
  intros Hj Hs p q a b Hpq Hq Ha Hb.
  rewrite swapAdjacent_elsewhere in Hb by lia.
  apply swapAdjacent_from in Ha as [Ha|[(-> & Ha)|(-> & Ha)]].
  - exact (Hs p q a b Hpq Hq Ha Hb).
  - apply (Hs (j + 1)%nat q a b); [lia | assumption..].
  - apply (Hs j q a b); [lia | assumption..].
Qed.

Lemma bubblePass_spec (m : nat) :
  forall (k n : nat) (s : list A),
    (k + m < n)%nat ->
    sinksTo count s k ->
    settledFrom count s n ->
    let s1 := bubblePass count s (seq k m) in
    length s1 = length s
    /\ s1 ≡ₚ s
    /\ sinksTo count s1 (k + m)
    /\ settledFrom count s1 n.
Proof.
  induction m as [|m IH]; intros k n s Hn Hk Hs; simpl.
  - rewrite Nat.add_0_r. auto.
  - destruct (IH (S k) n (swapAdjacent count k s)) as (Hlen & Hperm & Hk' & Hs').
    + lia.
    + replace (S k) with (k + 1)%nat by lia. apply swapAdjacent_sinks, Hk.
    + apply swapAdjacent_settled; [lia | exact Hs].
    + rewrite swapAdjacent_length in Hlen.
      split; [exact Hlen|]. split; [|split].
      * unfold bubblePass in Hperm. rewrite Hperm. apply swapAdjacent_Permutation.
      * replace (k + S m)%nat with (S k + m)%nat by lia. exact Hk'.
      * exact Hs'.
Qed.

Lemma bubbleSort_spec (m : nat) :
  forall (c : nat) (s : list A),
    (c + m <= length s - 1)%nat ->
    settledFrom count s (length s - c) ->
    let s1 :=
      foldl (fun s i => bubblePass count s (seq 0 (length s - i - 1))) s (seq c m) in
    length s1 = length s
    /\ s1 ≡ₚ s
    /\ settledFrom count s1 (length s1 - (c + m)).
Proof.
  induction m as [|m IH]; intros c s Hc Hs; simpl.
  - rewrite Nat.add_0_r. auto.
  - destruct (bubblePass_spec (length s - c - 1) 0 (length s - c) s)
      as (Hlen & Hperm & Hk & Hs').
    + lia.
    + intros p a b Hp. lia.
    + exact Hs.
    + set (s' := bubblePass count s (seq 0 (length s - c - 1))) in *.
      destruct (IH (S c) s') as (Hlen' & Hperm' & Hsettled).
      * lia.
      * intros p q a b Hpq Hq Ha Hb.
        destruct (decide (q = (length s - c - 1)%nat)) as [->|Hne].
        -- exact (Hk p a b Hpq Ha Hb).
        -- apply (Hs' p q a b); [lia | lia | assumption..].
      * split; [congruence|]. split; [rewrite Hperm'; exact Hperm|].
        replace (c + S m)%nat with (S c + m)%nat by lia. exact Hsettled.
Qed.

Lemma bubbleSortDesc_sorted (s : list A) :
  length (bubbleSortDesc count s) = length s
  /\ bubbleSortDesc count s ≡ₚ s
  /\ (forall i j a b, (i < j)%nat ->
        bubbleSortDesc count s !! i = Some a ->
        bubbleSortDesc count s !! j = Some b ->
        (count b <= count a)%Z).
Proof.
  destruct (bubbleSort_spec (length s - 1) 0 s) as (Hlen & Hperm & Hsorted).
  - lia.
  - intros p q a b Hpq Hq Ha Hb. apply lookup_lt_Some in Hb. lia.
  - change (foldl _ s (seq 0 (length s - 1))) with (bubbleSortDesc count s) in *.
    split; [exact Hlen|]. split; [exact Hperm|].
    intros i j a b Hij Ha Hb.
    apply (Hsorted i j a b); [lia | | assumption..].
    pose proof (lookup_lt_Some _ _ _ Hb). lia.
Qed.

(** The first [limit] of the sorted list: the best of the list. *)
Lemma bubble_prefix (limit : Z) (s : list A) :
  (1 <= limit)%Z ->
  let r := truncateTo limit (bubbleSortDesc count s) in
  length r = Nat.min (Z.to_nat limit) (length s)
  /\ (forall i j a b, (i < j)%nat -> r !! i = Some a -> r !! j = Some b ->
        (count b <= count a)%Z)
  /\ (exists rest,
        r ++ rest ≡ₚ s
        /\ forall a b, In a r -> In b rest -> (count b <= count a)%Z).
Proof.
  intros Hl. destruct (bubbleSortDesc_sorted s) as (Hlen & Hperm & Hsorted).
  unfold truncateTo. rewrite Hlen.
  destruct (Z.ltb_spec limit (Z.of_nat (length s))) as [Hlong|Hshort].
  - split; [rewrite length_take, Hlen; lia|]. split.
    + intros i j a b Hij Ha Hb.
      apply lookup_take_Some in Ha as [Ha _]. apply lookup_take_Some in Hb as [Hb _].
      exact (Hsorted i j a b Hij Ha Hb).
    + exists (drop (Z.to_nat limit) (bubbleSortDesc count s)).
      split; [rewrite take_drop; exact Hperm|].
      intros a b Ha Hb.
      apply list_elem_of_In, list_elem_of_lookup in Ha as [i Ha].
      apply list_elem_of_In, list_elem_of_lookup in Hb as [j Hb].
      apply lookup_take_Some in Ha as [Ha Hi]. rewrite lookup_drop in Hb.
      apply (Hsorted i (Z.to_nat limit + j)%nat a b); [lia | assumption..].
  - split; [lia|]. split; [exact Hsorted|].
    exists []. rewrite app_nil_r. split; [exact Hperm|]. intros a b _ [].
Qed.

End Sorting.

Section Counting.
Context {W : Type}
        (tagRepo_GetArticles : N -> Z -> Z -> W -> Result (list Article * Z) * W).

(** The loop appends one entry per tag, in order, with the count the
    repository gave for it. *)
Lemma countArticles_spec (tags : list Tag) :
  forall (acc stats : list TagWithStats) (w w1 : W),
    countArticles tagRepo_GetArticles tags acc w = (Ok stats, w1) ->
    exists new,
      stats = acc ++ new
      /\ ts_Tag <$> new = tags
      /\ Forall (fun e =>
                   exists w0 articles,
                     (tagRepo_GetArticles (Tag_ID (ts_Tag e)) 0%Z 1%Z w0).1
                     = Ok (articles, ts_ArticleCount e)) new.
Proof.
  induction tags as [|tag rest IH]; intros acc stats w w1; simpl.
  - intros [= <- <-]. exists []. rewrite app_nil_r. auto.
  - destruct (tagRepo_GetArticles (Tag_ID tag) 0%Z 1%Z w) as [r w'] eqn:E.
    destruct r as [[articles count]|err]; [|discriminate].
    intros H. apply IH in H as (new & -> & Htags & Hall).
    exists (mkTagWithStats tag count :: new).
    split; [rewrite <- app_assoc; reflexivity|].
    split; [rewrite fmap_cons, Htags; reflexivity|].
    constructor; [|exact Hall].
    exists w, articles. simpl. rewrite E. reflexivity.
Qed.

(** A tag whose articles cannot be counted stops the loop: the answer is
    the failure of the first count that fails. *)
Lemma countArticles_failure (tags : list Tag) :
  forall (acc : list TagWithStats) (w : W),
    (exists tag, In tag tags
                 /\ forall w0, exists err,
                      (tagRepo_GetArticles (Tag_ID tag) 0%Z 1%Z w0).1 = Err err) ->
    exists bad err,
      In bad tags
      /\ (countArticles tagRepo_GetArticles tags acc w).1
         = Err (ErrWrap (lit "failed to get article count for tag "
                         ++ itoa (Tag_ID bad)) err).
Proof.
  induction tags as [|tag rest IH]; intros acc w (bad & Hin & Hbad); [destruct Hin|].
  simpl. destruct (tagRepo_GetArticles (Tag_ID tag) 0%Z 1%Z w) as [r w'] eqn:E.
  destruct r as [[articles count]|err].
  - destruct Hin as [->|Hin].
    + destruct (Hbad w) as [err Herr]. rewrite E in Herr. discriminate.
    + destruct (IH (acc ++ [mkTagWithStats tag count]) w') as (bad' & err & Hin' & H).
      * exists bad. auto.
      * exists bad', err. auto.
  - exists tag, err. auto.
Qed.

End Counting.
End BubbleFacts.



(** X25. If the articles of one listed tag cannot be counted,
    [GetPopularTags] returns no tags at all: it fails with the error of the
    first count that failed, naming that tag. *)
Theorem GetPopularTags_count_failure {W}
    (tagRepo_List : W -> Result (list Tag) * W)
    (tagRepo_GetArticles : N -> Z -> Z -> W -> Result (list Article * Z) * W)
    (limit : Z) (w : W) (tags : list Tag) (tag : Tag) :
  (tagRepo_List w).1 = Ok tags ->
  In tag tags ->
  (forall w0, exists err,
      (tagRepo_GetArticles (Tag_ID tag) 0%Z 1%Z w0).1 = Err err) ->
  exists bad err,
    In bad tags
    /\ (TagService_GetPopularTags tagRepo_List tagRepo_GetArticles limit w).1
       = Err (ErrWrap (lit "failed to get article count for tag "
                       ++ itoa (Tag_ID bad)) err).
Proof.
  intros Hlist Hin Hbad. unfold TagService_GetPopularTags.
  destruct (tagRepo_List w) as [r w0]. simpl in Hlist. subst r.
  destruct (BubbleFacts.countArticles_failure tagRepo_GetArticles tags [] w0)
    as (bad & err & Hbad' & H); [exists tag; auto|].
  exists bad, err. split; [exact Hbad'|].
  destruct (countArticles tagRepo_GetArticles tags [] w0) as [r w1].
  simpl in H. subst r. reflexivity.
Qed.

Lemma GetPopularTags_count_failure_witness :
  exists bad err,
    In bad (fst <$> sample.brokenTagTable)
    /\ (TagService_GetPopularTags (sample.tagRepo_List sample.brokenTagTable)
          (sample.tagRepo_GetArticles sample.brokenTagTable) 10 0%nat).1
       = Err (ErrWrap (lit "failed to get article count for tag "
                       ++ itoa (Tag_ID bad)) err).
Proof.
  refine (GetPopularTags_count_failure (sample.tagRepo_List sample.brokenTagTable)
            (sample.tagRepo_GetArticles sample.brokenTagTable) 10 0%nat
            _ (mkTag 4 (lit "lost") (lit "lost")) eq_refl _ _).
  - vm_compute. auto 10.
  - intros w0. exists gorm.storeFailure. reflexivity.
Defined.

(** ** Slugs of deleted articles *)

Module DeletedSlugFacts.
Import ProgramFacts.

Lemma quiet_untouched {R} (Q : R -> Prop) (p : Prog R) :
  quiet Q p -> forall w, untouched w (state_of gorm.handle p w).
Proof.
  induction 1 as [r Hr | X e k He _ IH]; intros w.
  - split; reflexivity.
  - rewrite state_of_Call.
    destruct (IH (gorm.handle _ e w).1 (gorm.handle _ e w).2) as [Ha Hn].
    destruct (StoreFacts.read_untouched e w He) as [Ha' Hn'].
    split; congruence.
Qed.

(** The rows a query sees are stored and not deleted. *)
Lemma rows_stored (w : World) (b : Article) :
  In b (gorm.rows w) ->
  DeletedAt b = None /\ exists k, w_articles w !! k = Some b.
Proof.
  unfold gorm.rows. intros Hin.
  apply list_elem_of_In in Hin. rewrite merge_sort_Permutation in Hin.
  apply list_elem_of_filter in Hin as [Hlive Hin].
  split.
  - unfold gorm.live in Hlive. destruct (DeletedAt b); [destruct Hlive|reflexivity].
  - apply list_elem_of_In, in_map_iff in Hin as ([k b'] & <- & Hin).
    exists k. apply elem_of_map_to_list, list_elem_of_In. exact Hin.
Qed.

(** The slug loop offers the base slug whenever no visible row has it. *)
Lemma base_offered (base : gostring) (fuel : nat) (w : World) (slug : gostring) :
  (forall k b, w_articles w !! k = Some b -> DeletedAt b = None -> Slug b <> base) ->
  result_of gorm.handle (uniqueSlugLoop ArticleGetBySlug fuel base base 1) w
  = Ok slug ->
  slug = base.
Proof.
  intros Hfree. destruct fuel as [|fuel]; [discriminate|].
  cbn [uniqueSlugLoop bind call]. rewrite result_of_Call.
  cbn [gorm.handle]. unfold gorm.query. cbn [fst snd].
  destruct (gorm.faulty w); [discriminate|].
  unfold gorm.lookupFirst.
  destruct (List.find _ (gorm.rows w)) as [b|] eqn:Ef.
  - apply find_some in Ef as [Hin Hslug].
    apply bool_decide_eq_true in Hslug.
    apply rows_stored in Hin as [Hlive [k Hk]].
    destruct (Hfree k b Hk Hlive Hslug).
  - unfold result_of. simpl. intros [= <-]. reflexivity.
Qed.

Section WithTable.
Context `{CaseTable}.

(** A successful [Create] stores its article under the slug that
    [generateUniqueSlug] returned after the author was read. *)
Lemma Create_slug (w : World) (authorID : N)
    (req : ArticleService.CreateArticleRequest) (a : Article) :
  result_of gorm.handle (ArticleService.Create authorID (Some req)) w = Ok a ->
  exists w1 slug a0 w2,
    untouched w w1
    /\ result_of gorm.handle
         (ArticleService.generateUniqueSlug (ArticleService.c_Title req)) w1
       = Ok slug
    /\ untouched w w2
    /\ Slug a0 = slug
    /\ (gorm.articleRepository_Create a0 w2).1 = (a, None).
Proof.
  unfold ArticleService.Create.
  destruct (ArticleService.validateCreateRequest (Some req)); [discriminate|].
  cbn [bind call]. rewrite result_of_Call.
  destruct (StoreFacts.read_untouched (UserGetByID authorID) w eq_refl) as [Ha1 Hn1].
  set (w1 := (gorm.handle _ (UserGetByID authorID) w).2) in *.
  destruct (gorm.handle _ (UserGetByID authorID) w).1 as [author|err];
    [|discriminate].
  rewrite result_of_bind.
  destruct (quiet_untouched _ _
              (quiet_article_generateUniqueSlug (ArticleService.c_Title req)) w1)
    as [Ha2 Hn2].
  set (w2 := state_of gorm.handle _ w1) in *.
  destruct (result_of gorm.handle
              (ArticleService.generateUniqueSlug (ArticleService.c_Title req)) w1)
    as [slug|err] eqn:Es; [|discriminate].
  intros Hok.
  set (P := fun a : Article => Slug a = slug).
  match type of Hok with
  | result_of _ ?tail _ = _ => assert (inserts P tail) as Hins
  end.
  { apply (InsertFacts.inserts_bindOk P).
    { destruct (ArticleService.c_CategoryID req) as [categoryID|].
      - cbn [bind call]. apply quiet_Call; [reflexivity|].
        intros [category|err]; apply quiet_Ret; simpl; [reflexivity|exact I].
      - apply quiet_Ret. reflexivity. }
    intros article1 HP1.
    apply (InsertFacts.inserts_bind P).
    { assert (P (if decide (ArticleService.c_Status req = []) then article1
                 else set_Status (ArticleService.c_Status req) article1)) as HP2
        by (destruct (decide _); [exact HP1 | exact HP1]).
      destruct (decide (Status _ = StatusPublished)).
      - cbn [bind call]. apply quiet_Call; [reflexivity|]. intros now.
        apply quiet_Ret. exact HP2.
      - apply quiet_Ret. exact HP2. }
    intros article2 HP2.
    apply (InsertFacts.inserts_bindOk P).
    { destruct (ArticleService.c_TagNames req) as [[|name names]|];
        [apply quiet_Ret; exact HP2 | | apply quiet_Ret; exact HP2].
      apply (quiet_bind (fun _ => True)); [apply quiet_processTagNames|].
      intros [tags|err] _; apply quiet_Ret; [exact HP2 | exact I]. }
    intros article3 HP3.
    cbn [bind call]. apply inserts_Create; [exact HP3|].
    intros [created [err|]]; reflexivity. }
  destruct (InsertFacts.inserts_sound P _ Hins w2 a Hok)
    as (a0 & w3 & HP & [Ha3 Hn3] & Hcreate).
  exists w1, slug, a0, w3.
  split; [split; assumption|]. split; [exact Es|].
  split; [split; congruence|]. split; [exact HP|].
  rewrite Hcreate. reflexivity.
Qed.

End WithTable.
End DeletedSlugFacts.

(** X26. The slug of a deleted article is not free again: the existence
    check of [generateUniqueSlug] does not see the deleted row, the unique
    index on the slug does.  While no visible article has that slug,
    [Create] fails for every request whose title gives it, and stores no
    article. *)
Theorem Create_slug_of_deleted_article `{CaseTable} (w : World) (authorID : N)
    (req : ArticleService.CreateArticleRequest) (k : N) (d : Article) :
  w_articles w !! k = Some d ->
  DeletedAt d <> None ->
  ID d <> w_nextArticleID w ->
  Slug d = utils.GenerateSlug (ArticleService.c_Title req) ->
  (forall k' b, w_articles w !! k' = Some b -> DeletedAt b = None ->
                Slug b <> Slug d) ->
  (exists err,
     result_of gorm.handle (ArticleService.Create authorID (Some req)) w = Err err)
  /\ w_articles (state_of gorm.handle (ArticleService.Create authorID (Some req)) w)
     = w_articles w.
Proof.
  intros Hd Hdel Hkey Hslug Hfree.
  destruct (result_of gorm.handle (ArticleService.Create authorID (Some req)) w)
    as [a|err] eqn:E;
    [exfalso
    |split; [exists err; reflexivity|];
     exact (proj1 (InsertFacts.inserts_failed _ _
                     (InsertFacts.inserts_Create_service authorID (Some req))
                     w err E))].
  destruct (DeletedSlugFacts.Create_slug w authorID req a E)
    as (w1 & slug & a0 & w2 & [Ha1 _] & Hs & [Ha2 Hn2] & Ha0 & Hc).
  unfold ArticleService.generateUniqueSlug in Hs.
  destruct (decide (utils.GenerateSlug (ArticleService.c_Title req) = []));
    [discriminate|].
  apply DeletedSlugFacts.base_offered in Hs;
    [|rewrite Ha1, <- Hslug; exact Hfree].
  destruct (gorm.articleRepository_Create a0 w2) as [r w3] eqn:Ec.
  simpl in Hc. subst r.
  destruct (CreateFacts.Create_inserted _ _ _ _ Ec)
    as (Hid & _ & _ & _ & _ & _ & Hclash).
  rewrite Ha2 in Hclash. apply (Hclash k d Hd); [congruence|].
  unfold gorm.articleRepository_Create in Ec.
  destruct (gorm.faulty w2); [discriminate|].
  destruct (hooks.Article_Validate _ _ a0) as [a0' [err|]] eqn:Ev; [discriminate|].
  destruct (gorm.slugTaken _ w2); [discriminate|].
  injection Ec as <- _.
  destruct (CreateFacts.Validate_keeps _ _ _ _ Ev) as (_ & _ & Hs' & _).
  simpl. congruence.
Qed.

Lemma Create_slug_of_deleted_article_witness :
  result_of gorm.handle
    (@ArticleService.Create asciiCaseTable 1
       (Some (ArticleService.mkCreateArticleRequest (lit "Post 1") (lit "text")
                [] None None [])))
    sample.afterDelete
  = Err (ErrWrap (lit "failed to create article") gorm.duplicateEntry).
Proof.
  destruct (@Create_slug_of_deleted_article asciiCaseTable sample.afterDelete 1
              (ArticleService.mkCreateArticleRequest (lit "Post 1") (lit "text")
                 [] None None [])
              1 sample.deletedPost)
    as [[err Herr] _].
  - reflexivity.
  - discriminate.
  - vm_compute. discriminate.
  - vm_compute. reflexivity.
  - intros k' b Hb Hlive.
    change (w_articles sample.afterDelete) with
      (<[1 := sample.deletedPost]> (∅ : gmap N Article)) in Hb.
    destruct (decide (k' = 1)) as [->|Hne].
    + rewrite lookup_insert_eq in Hb. injection Hb as <-. discriminate.
    + rewrite lookup_insert_ne, lookup_empty in Hb by congruence. discriminate.
  - vm_compute. reflexivity.
Defined.

(** ** Titles the model refuses *)

Module HookFacts.
Import ProgramFacts.

Section WithTable.
Context `{CaseTable}.

(** The article [Create] hands to the repository carries the trimmed
    title and content of the request. *)
Lemma inserts_Create_text (authorID : N)
    (req : ArticleService.CreateArticleRequest) :
  inserts (fun a => Title a = strings.TrimSpace (ArticleService.c_Title req)
                    /\ Content a = strings.TrimSpace (ArticleService.c_Content req))
    (ArticleService.Create authorID (Some req)).
Proof.
  unfold ArticleService.Create.
  destruct (ArticleService.validateCreateRequest (Some req)); [apply inserts_Err|].
  cbn [bind call]. apply inserts_read; [reflexivity|].
  intros [author|err]; [|apply inserts_Err].
  apply (InsertFacts.inserts_bind (fun _ => True));
    [apply quiet_article_generateUniqueSlug|].
  intros [slug|err] _; [|apply inserts_Err].
  set (P := fun a : Article =>
              Title a = strings.TrimSpace (ArticleService.c_Title req)
              /\ Content a = strings.TrimSpace (ArticleService.c_Content req)).
  apply (InsertFacts.inserts_bindOk P).
  { destruct (ArticleService.c_CategoryID req) as [categoryID|].
    - cbn [bind call]. apply quiet_Call; [reflexivity|].
      intros [category|err]; apply quiet_Ret; simpl; [|exact I].
      split; reflexivity.
    - apply quiet_Ret. simpl. split; reflexivity. }
  intros article1 HP1.
  apply (InsertFacts.inserts_bind P).
  { assert (P (if decide (ArticleService.c_Status req = []) then article1
               else set_Status (ArticleService.c_Status req) article1)) as HP2
      by (destruct (decide _); [exact HP1 | exact HP1]).
    destruct (decide (Status _ = StatusPublished)).
    - cbn [bind call]. apply quiet_Call; [reflexivity|]. intros now.
      apply quiet_Ret. exact HP2.
    - apply quiet_Ret. exact HP2. }
  intros article2 HP2.
  apply (InsertFacts.inserts_bindOk P).
  { destruct (ArticleService.c_TagNames req) as [[|name names]|];
      [apply quiet_Ret; exact HP2 | | apply quiet_Ret; exact HP2].
    apply (quiet_bind (fun _ => True)); [apply quiet_processTagNames|].
    intros [tags|err] _; apply quiet_Ret; [exact HP2 | exact I]. }
  intros article3 HP3.
  cbn [bind call]. apply inserts_Create; [exact HP3|].
  intros [created [err|]]; reflexivity.
Qed.

End WithTable.

(** An insert that succeeds has passed the hook's check of the title. *)
Lemma Create_passed_validateTitle (a0 a : Article) (w w' : World) :
  gorm.articleRepository_Create a0 w = ((a, None), w') ->
  hooks.validateTitle a0 = None.
Proof.
  unfold gorm.articleRepository_Create.
  destruct (gorm.faulty w); [discriminate|].
  unfold hooks.Article_Validate.
  destruct (w_articleStructError w a0); [discriminate|].
  destruct (hooks.validateTitle a0); [discriminate|]. reflexivity.
Qed.

End HookFacts.

(** X27. The check of a create request lets a line break inside the
    title pass, the hook of the model does not: over the gorm-backed store
    [Create] fails for every such request, whatever else it asks for, and
    stores no article. *)
Theorem Create_title_with_line_break `{CaseTable} (w : World) (authorID : N)
    (req : ArticleService.CreateArticleRequest) :
  existsb (fun r => (r =? 10) || (r =? 13))
    (strings.TrimSpace (ArticleService.c_Title req)) = true ->
  (exists err,
     result_of gorm.handle (ArticleService.Create authorID (Some req)) w = Err err)
  /\ w_articles (state_of gorm.handle (ArticleService.Create authorID (Some req)) w)
     = w_articles w.
Proof.
  intros Hbreak.
  destruct (result_of gorm.handle (ArticleService.Create authorID (Some req)) w)
    as [a|err] eqn:E.
  - exfalso.
    destruct (InsertFacts.inserts_sound _ _
                (HookFacts.inserts_Create_text authorID req) w a E)
      as (a0 & w1 & [Htitle _] & _ & Hcreate).
    apply HookFacts.Create_passed_validateTitle in Hcreate.
    unfold hooks.validateTitle in Hcreate.
    destruct (negb _); [discriminate|].
    rewrite Htitle, Hbreak in Hcreate. discriminate.
  - split; [exists err; reflexivity|].
    exact (proj1 (InsertFacts.inserts_failed _ _
                    (HookFacts.inserts_Create_text authorID req) w err E)).
Qed.

Lemma Create_title_with_line_break_witness :
  ArticleService.validateCreateRequest
    (Some (ArticleService.mkCreateArticleRequest [72; 105; 10; 72; 111] (lit "text")
             [] None (Some [lit "go"]) []))
  = None
  /\ (exists err,
        result_of gorm.handle
          (@ArticleService.Create asciiCaseTable 1
             (Some (ArticleService.mkCreateArticleRequest [72; 105; 10; 72; 111]
                      (lit "text") [] None (Some [lit "go"]) [])))
          sample.blog
        = Err err)
  /\ w_tags (state_of gorm.handle
               (@ArticleService.Create asciiCaseTable 1
                  (Some (ArticleService.mkCreateArticleRequest
                           [72; 105; 10; 72; 111] (lit "text") [] None
                           (Some [lit "go"]) [])))
               sample.blog)
     = [mkTag 1 (lit "go") (lit "go")].
Proof.
  split; [reflexivity|]. split; [|vm_compute; reflexivity].
  apply (@Create_title_with_line_break asciiCaseTable sample.blog 1
           (ArticleService.mkCreateArticleRequest [72; 105; 10; 72; 111]
              (lit "text") [] None (Some [lit "go"]) [])).
  reflexivity.
Defined.

(** ** The summary of an author *)

Module SummaryFacts.

Lemma summary_fold (articles : list Article) :
  forall stats : AuthorStats,
    as_ArticleCount stats < 2 ^ 64 -> as_TotalViews stats < 2 ^ 64 ->
    as_TotalLikes stats < 2 ^ 64 -> as_TotalComments stats < 2 ^ 64 ->
    foldl (fun stats article =>
             mkAuthorStats (as_AuthorID stats)
               (wrapU64 (as_ArticleCount stats + 1))
               (wrapU64 (as_TotalViews stats + ViewCount article))
               (wrapU64 (as_TotalLikes stats + LikeCount article))
               (wrapU64 (as_TotalComments stats + CommentCount article)))
      stats articles
    = mkAuthorStats (as_AuthorID stats)
        (wrapU64 (as_ArticleCount stats + N.of_nat (length articles)))
        (wrapU64 (as_TotalViews stats + sumN (ViewCount <$> articles)))
        (wrapU64 (as_TotalLikes stats + sumN (LikeCount <$> articles)))
        (wrapU64 (as_TotalComments stats + sumN (CommentCount <$> articles))).
Proof.
  assert (forall n, wrapU64 n < 2 ^ 64) as Hlt
    by (intros n; apply N.mod_lt; discriminate).
  assert (forall x y z, wrapU64 (wrapU64 (x + y) + z) = wrapU64 (x + (y + z))) as Hw.
  { intros x y z. unfold wrapU64.
    rewrite N.Div0.add_mod_idemp_l, N.add_assoc. reflexivity. }
  induction articles as [|a rest IH]; intros [id c v l m] Hc Hv Hl Hm; simpl in *.
  - rewrite !N.add_0_r. unfold wrapU64. rewrite !N.mod_small by assumption.
    reflexivity.
  - rewrite IH by apply Hlt. cbn [as_AuthorID as_ArticleCount as_TotalViews
                                   as_TotalLikes as_TotalComments].
    rewrite !Hw. f_equal. f_equal. lia.
Qed.

(** The two conditions of [GetByAuthorID]. *)
Lemma author_conditions (authorID : N) (P : gostring -> FilterValue -> Prop) :
  map_Forall P
    (<[lit "author_id" := FUint authorID]>
       (<[lit "status" := FStatus StatusPublished]> (∅ : gmap gostring FilterValue)))
  <-> P (lit "author_id") (FUint authorID)
      /\ P (lit "status") (FStatus StatusPublished).
Proof.
  rewrite map_Forall_insert by (vm_compute; reflexivity).
  rewrite map_Forall_insert by (vm_compute; reflexivity).
  pose proof (map_Forall_empty (M := gmap gostring) P). tauto.
Qed.

Lemma GetByAuthorID_page (authorID : N) (limit : Z) (w : World) :
  (100 <= limit < 2 ^ 62)%Z ->
  gorm.articleRepository_GetByAuthorID authorID limit 0 w
  = Ok (take 100 (publishedBy authorID w)).
Proof.
  intros Hl. unfold gorm.articleRepository_GetByAuthorID, gorm.articleRepository_List.
  assert ((limit =? 0)%Z = false) as -> by (apply Z.eqb_neq; lia).
  rewrite Z.quot_0_l by lia.
  change (wrap64 (0 + 1)) with 1%Z. change (1 <? 1)%Z with false.
  assert ((limit <? 1)%Z = false) as -> by (apply Z.ltb_ge; lia).
  cbv iota. cbn [Z.sub Z.mul Z.add Z.opp Z.pos_sub].
  change (wrap64 0) with 0%Z.
  match goal with
  | |- context [existsb ?f (map_to_list ?m)] =>
      assert (existsb f (map_to_list m) = false) as ->
  end.
  { apply ListFacts.existsb_map_to_list, author_conditions. split; reflexivity. }
  assert (forall a : Article,
             forallb (fun '(field, v) => default false (gorm.filterHolds field v a))
               (map_to_list
                  (<[lit "author_id" := FUint authorID]>
                     (<[lit "status" := FStatus StatusPublished]>
                        (∅ : gmap gostring FilterValue))))
             = true
             <-> AuthorID a = authorID /\ Status a = StatusPublished) as Hcond.
  { intros a.
    rewrite (ListFacts.forallb_map_to_list _
               (fun '(field, v) => default false (gorm.filterHolds field v a))).
    rewrite author_conditions.
    change (default false (gorm.filterHolds (lit "author_id") (FUint authorID) a))
      with (AuthorID a =? authorID).
    change (default false (gorm.filterHolds (lit "status")
                             (FStatus StatusPublished) a))
      with (bool_decide (Status a = StatusPublished)).
    rewrite N.eqb_eq, bool_decide_eq_true. reflexivity. }
  unfold publishedBy.
  rewrite (list_filter_iff _ (fun a => AuthorID a = authorID /\ Status a = StatusPublished))
    by (intros a; rewrite <- Hcond; apply Is_true_true).
  destruct (Z.ltb_spec 100 limit) as [Hbig|Hsmall].
  - reflexivity.
  - replace limit with 100%Z by lia. reflexivity.
Qed.

End SummaryFacts.

(** X28. [GetAuthorSummaryStats] asks for 1000 articles, and [DB.List]
    hands out at most 100: over the gorm-backed store the summary counts
    the 100 newest published articles of the author, and no more, and adds
    up their views, likes and comments. *)
Theorem GetAuthorSummaryStats_first_100 (w : World) (authorID : N)
    (counted := take 100 (publishedBy authorID w)) :
  gorm.faulty w = false ->
  (StatisticsService_GetAuthorSummaryStats gorm.getByAuthorID authorID w).1
  = Ok (mkAuthorStats authorID
          (N.of_nat (length counted))
          (wrapU64 (sumN (ViewCount <$> counted)))
          (wrapU64 (sumN (LikeCount <$> counted)))
          (wrapU64 (sumN (CommentCount <$> counted))))
  /\ length counted = Nat.min 100 (length (publishedBy authorID w)).
Proof.
  intros Hfault. split; [|apply length_take].
  unfold StatisticsService_GetAuthorSummaryStats, gorm.getByAuthorID, gorm.query.
  rewrite Hfault.
  rewrite SummaryFacts.GetByAuthorID_page
    by (split; [lia | vm_compute; reflexivity]).
  fold counted. cbn [fst].
  rewrite SummaryFacts.summary_fold by (vm_compute; reflexivity).
  cbn [as_AuthorID as_ArticleCount as_TotalViews as_TotalLikes as_TotalComments].
  rewrite !N.add_0_l. f_equal. f_equal.
  unfold wrapU64. apply N.mod_small.
  assert (length counted <= 100)%nat by (unfold counted; rewrite length_take; lia).
  assert (100 < 2 ^ 64) by (vm_compute; reflexivity). lia.
Qed.

Lemma GetAuthorSummaryStats_first_100_witness :
  (StatisticsService_GetAuthorSummaryStats gorm.getByAuthorID 1 sample.blog).1
  = Ok (mkAuthorStats 1 1 10 2 1).
Proof.
  refine (eq_trans (proj1 (GetAuthorSummaryStats_first_100 sample.blog 1 eq_refl)) _).
  vm_compute. reflexivity.
Defined.

(** ** Creating a tag *)

Module TagStoreFacts.

Lemma query_sameTags {A} (w : World) (r : Result A) :
  sameTags w (gorm.query w r).2.
Proof. split; reflexivity. Qed.

(** The slug loop of the tag service only reads. *)
Lemma loop_sameTags (base : gostring) (fuel : nat) :
  forall (slug : gostring) (counter : N) (w : World),
    sameTags w
      (state_of gorm.handle (uniqueSlugLoop TagGetBySlug fuel base slug counter) w).
Proof.
  induction fuel as [|fuel IH]; intros slug counter w; [split; reflexivity|].
  cbn [uniqueSlugLoop bind call]. rewrite state_of_Call.
  cbn [gorm.handle].
  destruct (query_sameTags w
              (gorm.lookupFirst (fun t => bool_decide (Tag_Slug t = slug)) (w_tags w)))
    as [Ht Hn].
  destruct (gorm.query w _) as [[t|err] w1]; cbn [fst snd] in *.
  - destruct (1000 <? counter + 1); [split; assumption|].
    destruct (IH (base ++ lit "-" ++ itoa counter) (counter + 1) w1) as [Ht' Hn'].
    split; congruence.
  - destruct (isRecordNotFound err); split; assumption.
Qed.

Lemma find_snoc_fresh {A} (p : A -> bool) (l : list A) (x : A) :
  existsb p l = false -> p x = true -> List.find p (l ++ [x]) = Some x.
Proof.
  induction l as [|y l IH]; simpl; intros Hl Hx.
  - rewrite Hx. reflexivity.
  - apply orb_false_iff in Hl as [Hy Hl]. rewrite Hy. apply IH; assumption.
Qed.

Lemma existsb_either {A} (p q : A -> bool) (l : list A) :
  existsb (fun x => p x || q x) l = false ->
  existsb p l = false /\ existsb q l = false.
Proof.
  induction l as [|x l IH]; simpl; [auto|].
  intros Hl. apply orb_false_iff in Hl as [Hx Hl].
  apply orb_false_iff in Hx as [-> ->]. exact (IH Hl).
Qed.

(** What a successful insert into the tag table has done. *)
Lemma tag_Create_inserted (tag0 tag : Tag) (w w' : World) :
  gorm.tagRepository_Create tag0 w = ((tag, None), w') ->
  tag = mkTag (w_nextTagID w) (Tag_Name tag0) (Tag_Slug tag0)
  /\ w_tags w' = w_tags w ++ [tag]
  /\ w_nextTagID w' = w_nextTagID w + 1
  /\ hooks.validateName tag0 = None
  /\ existsb (fun t => bool_decide (Tag_Name t = Tag_Name tag0)
                       || bool_decide (Tag_Slug t = Tag_Slug tag0)) (w_tags w)
     = false.
Proof.
  unfold gorm.tagRepository_Create.
  destruct (gorm.faulty w); [discriminate|].
  unfold hooks.Tag_Validate.
  destruct (w_tagStructError w tag0); [discriminate|].
  destruct (hooks.validateName tag0); [discriminate|].
  destruct (existsb _ (w_tags w)) eqn:Ex; [discriminate|].
  intros [= <- <-]. simpl. auto.
Qed.

Section WithTable.
Context `{CaseTable}.

(** What a successful [TagService.Create] has done to the tag table. *)
Lemma Create_stored (w : World)
    (req : option TagService.CreateTagRequest) (tag : Tag) :
  result_of gorm.handle (TagService.Create req) w = Ok tag ->
  let w' := state_of gorm.handle (TagService.Create req) w in
  Tag_ID tag = w_nextTagID w
  /\ w_tags w' = w_tags w ++ [tag]
  /\ w_nextTagID w' = w_nextTagID w + 1
  /\ (exists r, req = Some r /\ Tag_Name tag = strings.TrimSpace (TagService.Name r))
  /\ hooks.validateName tag = None
  /\ existsb (fun t => bool_decide (Tag_Name t = Tag_Name tag)) (w_tags w) = false
  /\ existsb (fun t => bool_decide (Tag_Slug t = Tag_Slug tag)) (w_tags w) = false.
Proof.
  unfold TagService.Create.
  destruct (TagService.validateCreateRequest req); [discriminate|].
  destruct req as [req|]; [|discriminate].
  cbn [bind call]. rewrite result_of_Call, state_of_Call.
  cbn [gorm.handle].
  destruct (query_sameTags w
              (gorm.lookupFirst
                 (fun t => bool_decide (Tag_Name t = strings.TrimSpace (TagService.Name req)))
                 (w_tags w))) as [Ht1 Hn1].
  destruct (gorm.query w _) as [[t|err] w1]; cbn [fst snd] in *; [discriminate|].
  destruct (isRecordNotFound err); cbn [negb]; [|discriminate].
  rewrite result_of_bind, state_of_bind.
  pose proof (fun base fuel => loop_sameTags base fuel base 1 w1) as Hloop.
  unfold TagService.generateUniqueSlug.
  destruct (decide (utils.GenerateSlug (strings.TrimSpace (TagService.Name req)) = []));
    [discriminate|].
  specialize (Hloop (utils.GenerateSlug (strings.TrimSpace (TagService.Name req)))
                1000%nat).
  destruct Hloop as [Ht2 Hn2].
  set (w2 := state_of gorm.handle _ w1) in *.
  destruct (result_of gorm.handle _ w1) as [slug|err']; [|discriminate].
  rewrite result_of_Call, state_of_Call. cbn [gorm.handle].
  destruct (gorm.tagRepository_Create
              (mkTag 0 (strings.TrimSpace (TagService.Name req)) slug) w2)
    as [[created [err'|]] w3] eqn:Ec; cbn [fst snd]; [discriminate|].
  unfold result_of, state_of. simpl. intros [= <-].
  apply tag_Create_inserted in Ec
    as (Hcreated & Htags & Hnext & Hname & Hfresh).
  cbn [Tag_Name Tag_Slug] in Hfresh.
  assert (Tag_Name created = strings.TrimSpace (TagService.Name req)) as En
    by (rewrite Hcreated; reflexivity).
  assert (Tag_Slug created = slug) as Es by (rewrite Hcreated; reflexivity).
  split; [rewrite Hcreated; simpl; congruence|].
  split; [congruence|]. split; [congruence|].
  split; [exists req; auto|].
  split.
  { unfold hooks.validateName in *. rewrite En. exact Hname. }
  rewrite Ht2, Ht1 in Hfresh.
  apply existsb_either in Hfresh as [Hfn Hfs].
  rewrite En, Es. split; assumption.
Qed.

End WithTable.

End TagStoreFacts.

(** X29. Over the gorm-backed store a successful [TagService.Create] has
    appended the tag it returns to the tag table, under the next key, with
    the trimmed name of the request, a name the hook of the model accepts,
    and a name and a slug no other tag has; [GetByName] and [GetBySlug]
    then find that tag. *)
Theorem Tag_Create_then_lookup `{CaseTable} (w : World)
    (req : option TagService.CreateTagRequest) (tag : Tag) :
  result_of gorm.handle (TagService.Create req) w = Ok tag ->
  let w' := state_of gorm.handle (TagService.Create req) w in
  Tag_ID tag = w_nextTagID w
  /\ w_tags w' = w_tags w ++ [tag]
  /\ w_nextTagID w' = w_nextTagID w + 1
  /\ (exists r, req = Some r /\ Tag_Name tag = strings.TrimSpace (TagService.Name r))
  /\ hooks.validateName tag = None
  /\ (forall t, In t (w_tags w) ->
                Tag_Name t <> Tag_Name tag /\ Tag_Slug t <> Tag_Slug tag)
  /\ (gorm.faulty w' = false ->
      (gorm.handle _ (TagGetByName (Tag_Name tag)) w').1 = Ok tag
      /\ (gorm.handle _ (TagGetBySlug (Tag_Slug tag)) w').1 = Ok tag).
Proof.
  intros Hok w'.
  destruct (TagStoreFacts.Create_stored w req tag Hok)
    as (Hid & Htags & Hnext & Hname & Hhook & Hfn & Hfs).
  fold w' in Htags, Hnext.
  repeat (split; [assumption|]).
  split.
  - intros t Hin. split; intros E.
    + assert (existsb (fun t => bool_decide (Tag_Name t = Tag_Name tag)) (w_tags w)
              = true) as Hex; [|congruence].
      apply existsb_exists. exists t. split; [exact Hin|].
      apply bool_decide_eq_true. exact E.
    + assert (existsb (fun t => bool_decide (Tag_Slug t = Tag_Slug tag)) (w_tags w)
              = true) as Hex; [|congruence].
      apply existsb_exists. exists t. split; [exact Hin|].
      apply bool_decide_eq_true. exact E.
  - intros Hfault. cbn [gorm.handle]. unfold gorm.query. rewrite Hfault. cbn [fst].
    unfold gorm.lookupFirst. rewrite Htags.
    split; rewrite TagStoreFacts.find_snoc_fresh;
      try reflexivity; try assumption; apply bool_decide_eq_true; reflexivity.
Qed.

Lemma Tag_Create_then_lookup_witness :
  exists tag,
    result_of gorm.handle
      (@TagService.Create asciiCaseTable
         (Some (TagService.mkCreateTagRequest (lit " Go "))))
      sample.blog = Ok tag
    /\ Tag_ID tag = 1.
Proof.
  eexists. split; [vm_compute; reflexivity|].
  refine (proj1 (@Tag_Create_then_lookup asciiCaseTable sample.blog
                   (Some (TagService.mkCreateTagRequest (lit " Go "))) _ _)).
  vm_compute. reflexivity.
Defined.

(** X30. Finding or creating a tag a second time changes nothing: over
    the gorm-backed store, once [FindOrCreateByName] has returned a tag
    for a name, the next call for that name makes one lookup and returns
    the same tag. *)
Theorem FindOrCreateByName_again `{CaseTable} (w : World) (name : gostring)
    (tag : Tag) :
  result_of gorm.handle (TagService.FindOrCreateByName name) w = Ok tag ->
  let w' := state_of gorm.handle (TagService.FindOrCreateByName name) w in
  gorm.faulty w' = false ->
  run gorm.handle (TagService.FindOrCreateByName name) w'
  = (Ok tag, gorm.step w', [Called (TagGetByName (strings.TrimSpace name))]).
Proof.
  unfold TagService.FindOrCreateByName.
  destruct (decide (strings.TrimSpace name = [])); [discriminate|].
  set (k := fun found : Result Tag => match found with Ok tag => _ | Err err => _ end).
  assert (forall w' : World,
             gorm.faulty w' = false ->
             List.find (fun t => bool_decide (Tag_Name t = strings.TrimSpace name))
               (w_tags w') = Some tag ->
             run gorm.handle (bind (call (TagGetByName (strings.TrimSpace name))) k) w'
             = (Ok tag, gorm.step w',
                [Called (TagGetByName (strings.TrimSpace name))])) as Hagain.
  { intros w' Hfault Hfind. rewrite run_call_bind.
    cbn [gorm.handle]. unfold gorm.query, gorm.lookupFirst.
    rewrite Hfault, Hfind. reflexivity. }
  rewrite result_of_bind, state_of_bind, result_of_call, state_of_call.
  cbn [gorm.handle].
  change (gorm.query w ?r).2 with (gorm.step w).
  change (gorm.query w ?r).1 with (if gorm.faulty w then Err gorm.storeFailure else r).
  destruct (gorm.faulty w) eqn:Ef;
    [subst k; cbv beta iota; change (isRecordNotFound gorm.storeFailure) with false;
     cbn [negb]; intros Hok; discriminate Hok|].
  unfold gorm.lookupFirst.
  destruct (List.find _ (w_tags w)) as [t|] eqn:Efind; subst k; cbv beta iota.
  - unfold result_of, state_of. cbn [run fst snd]. intros [= <-] Hfault.
    apply Hagain; [exact Hfault | exact Efind].
  - cbn [isRecordNotFound negb]. intros Hok Hfault.
    destruct (TagStoreFacts.Create_stored _ _ _ Hok)
      as (_ & Htags & _ & (r & [= <-] & Hname) & _ & Hfn & _).
    apply Hagain; [exact Hfault|].
    rewrite Htags. cbn [TagService.Name] in Hname.
    rewrite TagFacts.TrimSpace_idempotent in Hname.
    apply TagStoreFacts.find_snoc_fresh.
    + rewrite <- Hname. exact Hfn.
    + apply bool_decide_eq_true. exact Hname.
Qed.

Lemma FindOrCreateByName_again_witness :
  let w' :=
    state_of gorm.handle (@TagService.FindOrCreateByName asciiCaseTable (lit " Go "))
      sample.blog in
  run gorm.handle (@TagService.FindOrCreateByName asciiCaseTable (lit " Go ")) w'
  = (Ok (mkTag 1 (lit "Go") (lit "go")), gorm.step w',
     [Called (TagGetByName (lit "Go"))]).
Proof.
  refine (@FindOrCreateByName_again asciiCaseTable sample.blog (lit " Go ")
            (mkTag 1 (lit "Go") (lit "go")) _ _);
    vm_compute; reflexivity.
Defined.
